(** * Elevation profile engine of Little Navmap (src/profile/profilewidget.cpp)

    A shallow embedding of the three functions of [ProfileWidget] that make up
    the elevation profile engine:

    - [fetchRouteElevationsThread]  (leg builder and route profile assembler),
    - [updateScreenCoords]          (screen projector),
    - [mouseMoveEvent]              (interactive query engine),

    together with the event handlers of the widget that schedule the worker
    and install its result, and the properties of the profile they build.

    Numbers.  The C++ code computes on [float] and [int].  [float] is
    embedded as the rationals [Q] with exact arithmetic: rounding, overflow,
    infinities and NaN are outside the model, and a division by zero yields
    zero as it does in [Q].  [int] is embedded as [Z]: signed overflow and
    the conversion of a float outside the range of [int] are undefined in
    C++ and are not modelled.  Container sizes and loop indices are [nat].

    Collaborators.  The terrain model (Marble), the geometry helpers of the
    atools library and the widget environment are not part of the sources.
    They are the fields of the class [Collaborators]; nothing is assumed
    about them unless a theorem says so. *)

From Stdlib Require Import String QArith Qabs Qround ZArith List Bool Lia Lqa.
Import ListNotations.

(** ** Numbers *)

Module Num.

Local Open Scope Q_scope.

(** [a < b] on float, as a boolean. *)
Definition ltb (a b : Q) : bool := negb (Qle_bool b a).

(** [std::max(a, b)], which is [(a < b) ? b : a]. *)
Definition fmax (a b : Q) : Q := if ltb a b then b else a.

(** [std::ceil(x)], still a float. *)
Definition ceil (x : Q) : Q := inject_Z (Qceiling x).

(** [static_cast<int>(x)]: truncation toward zero. *)
Definition toInt (x : Q) : Z := Z.quot (Qnum x) (Zpos (Qden x)).

(** An [int] used where a float is expected. *)
Definition ofInt (z : Z) : Q := inject_Z z.

(** Modelled from the spec: [atools::geo::almostEqual(f1, f2, epsilon)] is
    not in the sources; the two values differ by less than the tolerance,
    as an absolute difference. *)
Definition almostEqual (f1 f2 epsilon : Q) : bool := ltb (Qabs (f1 - f2)) epsilon.

End Num.

(** ** Data model *)

(** [atools::geo::Pos]: longitude, latitude (degrees) and altitude (feet). *)
Record Pos : Type := mkPos {
  lonX : Q;
  latY : Q;
  altitude : Q
}.

(** [Marble::GeoDataCoordinates] as [heightProfile] returns them: degrees
  and an altitude in metres. *)
Record GeoDataCoordinates : Type := mkCoord {
  longitude : Q;
  latitude : Q;
  coordAltitude : Q
}.

(** [RouteMapObject]: only the identifier and the position are read here. *)
Record RouteMapObject : Type := mkRmo {
  ident : string;
  position : Pos
}.

(** [ProfileWidget::ElevationLeg]. *)
Record ElevationLeg : Type := mkLeg {
  elevation : list Pos;
  distances : list Q;
  maxElevation : Q
}.

(** [ProfileWidget::ElevationLegList]. *)
Record ElevationLegList : Type := mkLegList {
  routeMapObjects : list RouteMapObject;
  elevationLegs : list ElevationLeg;
  maxRouteElevation : Q;
  totalDistance : Q;
  totalNumPoints : Z
}.

(** Modelled from the spec: the declaration of [ElevationLeg] (profilewidget.h)
  is not in the sources; a fresh leg has no samples and the running maximum
  starts at zero, like the route maximum that the code resets itself. *)
Definition newLeg : ElevationLeg :=
  {| elevation := []; distances := []; maxElevation := 0%Q |}.

(** Modelled from the spec: the declaration of [ElevationLegList]
  (profilewidget.h) is not in the sources; [ElevationLegList()] is the empty
  "no result" list with zero totals. *)
Definition noResult : ElevationLegList :=
  {| routeMapObjects := []; elevationLegs := [];
     maxRouteElevation := 0%Q; totalDistance := 0%Q; totalNumPoints := 0%Z |}.

(** The collaborators of the engine. *)
Class Collaborators : Type := {
  (** [Marble::ElevationModel::heightProfile(lon1, lat1, lon2, lat2)] *)
  heightProfile : Q -> Q -> Q -> Q -> list GeoDataCoordinates;
  (** [Pos::distanceMeterTo] *)
  distanceMeterTo : Pos -> Pos -> Q;
  (** [atools::geo::meterToNm] *)
  meterToNm : Q -> Q;
  (** [atools::geo::meterToFeet] *)
  meterToFeet : Q -> Q;
  (** [Pos::isValid] *)
  isValid : Pos -> bool;
  (** [Pos()], the default constructed position *)
  defaultPos : Pos;
  (** [Pos::interpolate(other, fraction)] *)
  interpolate : Pos -> Pos -> Q -> Pos
}.

(** The cancellation flag [terminate] is written by the scheduler while the
  worker runs.  The worker only polls it: a token gives the value read by
  the k-th poll of a run. *)
Definition Token : Type := nat -> bool.

Definition neverSet (terminate : Token) : Prop := forall k, terminate k = false.

(** ** Leg builder and route profile assembler *)

Section Fetch.

Context {C : Collaborators}.

(** State of the sample loop: the leg under construction, the list with its
    running totals and the last retained position. *)
Record SampleState : Type := mkSampleState {
  stLeg : ElevationLeg;
  stLegs : ElevationLegList;
  stLastPos : Pos
}.

(** The terrain samples of a segment, with the workaround for an empty
    answer of the elevation model. *)
Definition segmentSamples (lastRmo rmo : RouteMapObject) : list GeoDataCoordinates :=
  let elev := heightProfile (lonX (position lastRmo)) (latY (position lastRmo))
                            (lonX (position rmo)) (latY (position rmo)) in
  match elev with
  | [] => [ mkCoord (lonX (position lastRmo)) (latY (position lastRmo)) 0;
            mkCoord (lonX (position rmo)) (latY (position rmo)) 0 ]
  | _ :: _ => elev
  end.

(** [Pos pos(coord.longitude(), coord.latitude(), meterToFeet(coord.altitude()))] *)
Definition samplePos (coord : GeoDataCoordinates) : Pos :=
  mkPos (longitude coord) (latitude coord) (meterToFeet (coordAltitude coord)).

(** The condition under which sample [j] of [n] is skipped. *)
Definition dropSample (st : SampleState) (n j : nat) (pos : Pos) : bool :=
  isValid (stLastPos st)
  && negb (j =? 0)%nat
  && negb (j =? n - 1)%nat
  && (2 <? length (elevationLegs (stLegs st)))%nat
  && Num.almostEqual (altitude pos) (altitude (stLastPos st)) 10.

(** The rest of the loop body, for a sample that is kept. *)
Definition retainSample (st : SampleState) (j : nat) (pos : Pos) : SampleState :=
  let leg := stLeg st in
  let legs := stLegs st in
  let alt := altitude pos in
  let legMax := if Num.ltb (maxElevation leg) alt then alt else maxElevation leg in
  let routeMax := if Num.ltb (maxRouteElevation legs) alt then alt
                  else maxRouteElevation legs in
  let total := if (0 <? j)%nat
               then (totalDistance legs
                     + meterToNm (distanceMeterTo (stLastPos st) pos))%Q
               else totalDistance legs in
  {| stLeg := {| elevation := elevation leg ++ [pos];
                 distances := distances leg ++ [total];
                 maxElevation := legMax |};
     stLegs := {| routeMapObjects := routeMapObjects legs;
                  elevationLegs := elevationLegs legs;
                  maxRouteElevation := routeMax;
                  totalDistance := total;
                  totalNumPoints := (totalNumPoints legs + 1)%Z |};
     stLastPos := pos |}.

(** One pass of the sample loop after the cancellation check. *)
Definition sampleStep (n j : nat) (coord : GeoDataCoordinates) (st : SampleState)
  : SampleState :=
  let pos := samplePos coord in
  if dropSample st n j pos then st else retainSample st j pos.

(** The sample loop [for(int j = 0; j < elev.size(); j++)], entered at
    index [j] with the samples still to visit.  [k] counts the polls of the
    token; [None] is the early [return ElevationLegList()]. *)
Fixpoint sampleLoop (terminate : Token) (n j : nat) (elev : list GeoDataCoordinates)
         (st : SampleState) (k : nat) : option SampleState * nat :=
  match elev with
  | [] => (Some st, k)
  | coord :: rest =>
      if terminate k then (None, S k)
      else sampleLoop terminate n (S j) rest (sampleStep n j coord st) (S k)
  end.

(** [legs.elevationLegs.append(leg)] *)
Definition appendLeg (legs : ElevationLegList) (leg : ElevationLeg) : ElevationLegList :=
  {| routeMapObjects := routeMapObjects legs;
     elevationLegs := elevationLegs legs ++ [leg];
     maxRouteElevation := maxRouteElevation legs;
     totalDistance := totalDistance legs;
     totalNumPoints := totalNumPoints legs |}.

(** The leg loop [for(int i = 1; i < legs.routeMapObjects.size(); i++)]:
    [lastRmo] is the waypoint at [i - 1] and [rest] holds the waypoints
    from [i] on. *)
Fixpoint legLoop (terminate : Token) (lastRmo : RouteMapObject)
         (rest : list RouteMapObject) (legs : ElevationLegList) (k : nat)
  : ElevationLegList :=
  match rest with
  | [] => legs
  | rmo :: rest' =>
      if terminate k then legs
      else
        let elev := segmentSamples lastRmo rmo in
        match sampleLoop terminate (length elev) 0 elev
                         (mkSampleState newLeg legs defaultPos) (S k) with
        | (None, _) => noResult
        | (Some st, k') =>
            legLoop terminate rmo rest' (appendLeg (stLegs st) (stLeg st)) k'
        end
  end.

(** [ProfileWidget::fetchRouteElevationsThread], run on the snapshot
    [route] of [routeController->getRouteMapObjects()]. *)
Definition fetchRouteElevationsThread (terminate : Token) (route : list RouteMapObject)
  : ElevationLegList :=
  let legs := {| routeMapObjects := route; elevationLegs := [];
                 maxRouteElevation := 0%Q; totalDistance := 0%Q;
                 totalNumPoints := 0%Z |} in
  match route with
  | [] => legs
  | first :: rest => legLoop terminate first rest legs 0
  end.

End Fetch.

(** ** Screen projector *)

(** Margins of the drawing area, [const int X0 = 65, Y0 = 14]. *)
Definition X0 : Z := 65.
Definition Y0 : Z := 14.

(** [QPoint] of Qt: integer pixel coordinates. *)
Record QPoint : Type := mkPoint {
  px : Z;
  py : Z
}.

(** [QPoint()], the null point. *)
Definition nullPoint : QPoint := mkPoint 0 0.

(** [QPoint::isNull()]: both coordinates are zero. *)
Definition isNull (p : QPoint) : bool := (px p =? 0)%Z && (py p =? 0)%Z.

(** [(a - b).manhattanLength()] *)
Definition manhattanLength (a b : QPoint) : Z :=
  (Z.abs (px a - px b) + Z.abs (py a - py b))%Z.

(** What the projector and the query read from the widget and from its
    other collaborators. *)
Record Widget : Type := mkWidget {
  (** [rect().width()] and [rect().height()] *)
  rectWidth : Z;
  rectHeight : Z;
  (** [routeController->getFlightplan()->getCruisingAlt()] *)
  cruisingAlt : Z;
  (** [routeController->isFlightplanEmpty()] *)
  flightplanEmpty : bool;
  (** [simData.getPosition()] *)
  simPosition : Pos;
  (** [getShownMapFeatures() & maptypes::AIRCRAFT] *)
  aircraftShown : bool
}.

(** The members that [updateScreenCoords] writes. *)
Record ProjectionState : Type := mkProjection {
  maxRouteElevationFt : Q;
  flightplanAltFt : Q;
  maxHeight : Q;
  vertScale : Q;
  horizScale : Q;
  waypointX : list Z;
  poly : list QPoint
}.

(** A computation that may index a Qt container out of range ([at], [first]
    and [last] assert on that). *)
Inductive Outcome (A : Type) : Type :=
| Ok (a : A)
| OutOfRange.

Arguments Ok {A} a.
Arguments OutOfRange {A}.

Definition bind {A B : Type} (m : Outcome A) (f : A -> Outcome B) : Outcome B :=
  match m with
  | Ok a => f a
  | OutOfRange => OutOfRange
  end.

Notation "x <- m ;; f" := (bind m (fun x => f))
  (at level 61, m at next level, right associativity).

(** [QList::at(i)] and [QVector::at(i)] *)
Definition at_ {A : Type} (l : list A) (i : nat) : Outcome A :=
  match nth_error l i with
  | Some a => Ok a
  | None => OutOfRange
  end.

(** [first()] and [last()] *)
Definition first {A : Type} (l : list A) : Outcome A := at_ l 0.
Definition last_ {A : Type} (l : list A) : Outcome A := at_ l (length l - 1).

Section Projector.

Context {C : Collaborators}.

(** The pixel of sample [i] of a leg. *)
Definition projectPoint (h : Z) (hScale vScale : Q) (dist : Q) (pos : Pos) : QPoint :=
  mkPoint (X0 + Num.toInt (dist * hScale))
          (Y0 + Num.toInt (Num.ofInt h - altitude pos * vScale)).

(** The test that lets a pixel into the polygon. *)
Definition appendPoint (lastPt : QPoint) (n i : nat) (pt : QPoint) : bool :=
  isNull lastPt || (i =? n - 1)%nat || (2 <? manhattanLength lastPt pt)%Z.

(** Body of the loop over the samples of a leg; the state is the polygon and
    [lastPt]. *)
Definition polyStep (n i : nat) (pt : QPoint) (st : list QPoint * QPoint)
  : list QPoint * QPoint :=
  if appendPoint (snd st) n i pt then (fst st ++ [pt], pt) else st.

(** [for(int i = 0; i < leg.elevation.size(); i++)], entered at index [i]
    with the samples still to visit. *)
Fixpoint polyLoop (h : Z) (hScale vScale : Q) (leg : ElevationLeg) (i : nat)
         (elev : list Pos) (st : list QPoint * QPoint)
  : Outcome (list QPoint * QPoint) :=
  match elev with
  | [] => Ok st
  | pos :: rest =>
      dist <- at_ (distances leg) i ;;
      polyLoop h hScale vScale leg (S i) rest
               (polyStep (length (elevation leg)) i
                         (projectPoint h hScale vScale dist pos) st)
  end.

(** [for(const ElevationLeg& leg : legList.elevationLegs)]; the state is
    [waypointX] and [poly]. *)
Fixpoint projectLegs (h : Z) (hScale vScale : Q) (legs : list ElevationLeg)
         (st : list Z * list QPoint) : Outcome (list Z * list QPoint) :=
  match legs with
  | [] => Ok st
  | leg :: rest =>
      d0 <- first (distances leg) ;;
      r <- polyLoop h hScale vScale leg 0 (elevation leg) (snd st, nullPoint) ;;
      projectLegs h hScale vScale rest
                  (fst st ++ [(X0 + Num.toInt (d0 * hScale))%Z], fst r)
  end.

(** The top of the altitude axis. *)
Definition axisTop (reference : Q) (wd : Widget) : Q :=
  let top := Num.fmax reference (Num.ofInt (cruisingAlt wd)) in
  if isValid (simPosition wd) && aircraftShown wd && negb (flightplanEmpty wd)
  then Num.fmax top (altitude (simPosition wd))
  else top.

(** Add 1000 ft buffer and round up to the next 500 feet. *)
Definition bufferedAltitude (elev : Q) : Q :=
  (Num.ceil ((elev + 1000) / 500) * 500)%Q.

(** [ProfileWidget::updateScreenCoords] *)
Definition updateScreenCoords (wd : Widget) (legList : ElevationLegList)
  : Outcome ProjectionState :=
  let w := (rectWidth wd - X0 * 2)%Z in
  let h := (rectHeight wd - Y0)%Z in
  let reference := bufferedAltitude (maxRouteElevation legList) in
  let top := axisTop reference wd in
  let vScale := (Num.ofInt h / top)%Q in
  let hScale := (Num.ofInt w / totalDistance legList)%Q in
  r <- projectLegs h hScale vScale (elevationLegs legList)
                   ([], [mkPoint X0 (h + Y0)]) ;;
  Ok {| maxRouteElevationFt := reference;
        flightplanAltFt := Num.ofInt (cruisingAlt wd);
        maxHeight := top;
        vertScale := vScale;
        horizScale := hScale;
        waypointX := fst r ++ [(X0 + w)%Z];
        poly := snd r ++ [mkPoint (X0 + w) (h + Y0)] |}.

End Projector.

(** ** Interactive query engine *)

(** [std::lower_bound] of the C++ standard library, by its contract: on a
    range ordered by [lt] it is the first position whose element is not less
    than the value, or the length of the range. *)
Fixpoint lower_bound {A : Type} (lt : A -> A -> bool) (l : list A) (v : A) : nat :=
  match l with
  | [] => 0
  | x :: rest => if lt x v then S (lower_bound lt rest v) else 0
  end.

(** [std::upper_bound] of the C++ standard library, by its contract: on a
    range ordered by [lt] it is the first position whose element is greater
    than the value, or the length of the range. *)
Fixpoint upper_bound {A : Type} (lt : A -> A -> bool) (l : list A) (v : A) : nat :=
  match l with
  | [] => 0
  | x :: rest => if lt v x then 0 else S (upper_bound lt rest v)
  end.

(** What the query shows in the label and sends to the map. *)
Record ProfileInfo : Type := mkInfo {
  infoFrom : string;
  infoTo : string;
  infoDistance : Q;
  infoGroundAlt : Q;
  infoAboveGround : Q;
  infoLegSafeAlt : Q;
  infoHighlight : Pos
}.

Section Query.

Context {C : Collaborators}.

(** The clamping of the mouse position. *)
Definition clampX (wd : Widget) (x : Z) : Z :=
  Z.min (Z.max x X0) (rectWidth wd - X0).

(** Index of the leg under pixel [x]. *)
Definition legIndex (wpx : list Z) (x : Z) : nat :=
  let it := lower_bound Z.ltb wpx x in
  if (it <? length wpx)%nat then it - 1 else 0.

(** Index of a bound in the distances of the leg, zero when the bound is the
    end of the range. *)
Definition boundIndex (it : nat) (dists : list Q) : nat :=
  if (it <? length dists)%nat then it else 0.

(** [ProfileWidget::mouseMoveEvent] for the mouse at pixel [mouseX]:
    [Ok None] when the handler returns without an answer, [Ok (Some info)]
    when it shows [info]. *)
Definition mouseMoveEvent (wd : Widget) (legList : ElevationLegList)
           (ps : ProjectionState) (mouseX : Z) : Outcome (option ProfileInfo) :=
  match elevationLegs legList with
  | [] => Ok None
  | _ :: _ =>
      let x := clampX wd mouseX in
      let index := legIndex (waypointX ps) x in
      leg <- at_ (elevationLegs legList) index ;;
      from <- at_ (routeMapObjects legList) index ;;
      to <- at_ (routeMapObjects legList) (index + 1) ;;
      let distance := (Num.ofInt (x - X0) / horizScale ps)%Q in
      let indexLowDist :=
        boundIndex (lower_bound Num.ltb (distances leg) distance) (distances leg) in
      let indexUpperDist :=
        boundIndex (upper_bound Num.ltb (distances leg) distance) (distances leg) in
      p1 <- at_ (elevation leg) indexLowDist ;;
      p2 <- at_ (elevation leg) indexUpperDist ;;
      let alt := (Qabs (altitude p1 + altitude p2) / 2)%Q in
      d0 <- first (distances leg) ;;
      d1 <- last_ (distances leg) ;;
      let legdistpart := (distance - d0)%Q in
      let legdist := (d1 - d0)%Q in
      e0 <- first (elevation leg) ;;
      e1 <- last_ (elevation leg) ;;
      let pos := interpolate e0 e1 (legdistpart / legdist)%Q in
      let maxElev := (Num.ceil ((maxElevation leg + 1000) / 500) * 500)%Q in
      Ok (Some {| infoFrom := ident from;
                  infoTo := ident to;
                  infoDistance := distance;
                  infoGroundAlt := alt;
                  infoAboveGround := (flightplanAltFt ps - alt)%Q;
                  infoLegSafeAlt := maxElev;
                  infoHighlight := pos |})
  end.

End Query.

(** ** Runs that are not cancelled *)

Section FetchPure.

Context {C : Collaborators}.

(** The sample loop when no poll reads the flag as set. *)
Fixpoint sampleFold (n j : nat) (elev : list GeoDataCoordinates) (st : SampleState)
  : SampleState :=
  match elev with
  | [] => st
  | coord :: rest => sampleFold n (S j) rest (sampleStep n j coord st)
  end.

(** The leg built for the segment from [lastRmo] to [rmo], appended to [legs]. *)
Definition buildLeg (legs : ElevationLegList) (lastRmo rmo : RouteMapObject)
  : ElevationLegList :=
  let elev := segmentSamples lastRmo rmo in
  let st := sampleFold (length elev) 0 elev (mkSampleState newLeg legs defaultPos) in
  appendLeg (stLegs st) (stLeg st).

(** The leg loop when no poll reads the flag as set. *)
Fixpoint legFold (lastRmo : RouteMapObject) (rest : list RouteMapObject)
         (legs : ElevationLegList) : ElevationLegList :=
  match rest with
  | [] => legs
  | rmo :: rest' => legFold rmo rest' (buildLeg legs lastRmo rmo)
  end.

End FetchPure.

(** Sum of the distance covered by each leg: last minus first entry of its
    distances. *)
Definition legDelta (leg : ElevationLeg) : Q :=
  (last (distances leg) 0 - hd 0 (distances leg))%Q.

Definition sumDeltas (legs : list ElevationLeg) : Q :=
  fold_left Qplus (map legDelta legs) 0%Q.

(** Maximum of the legs' [maxElevation]. *)
Definition maxOverLegs (legs : list ElevationLeg) : Q :=
  fold_left Num.fmax (map maxElevation legs) 0%Q.

(** Last element of a list, if any. *)
Definition lastError {A : Type} (l : list A) : option A := nth_error l (length l - 1).

(** Consecutive waypoints of a route. *)
Definition adjacent (route : list RouteMapObject) : list (RouteMapObject * RouteMapObject) :=
  combine route (tl route).

(** A sequence of floats that never decreases. *)
Inductive NonDecreasing : list Q -> Prop :=
| ND_nil : NonDecreasing []
| ND_one x : NonDecreasing [x]
| ND_cons x y l : (x <= y)%Q -> NonDecreasing (y :: l) -> NonDecreasing (x :: y :: l).

(** Legs whose cumulative distances start at [d], continue each other and
    end at [e]. *)
Inductive Chained : Q -> list ElevationLeg -> Q -> Prop :=
| Chained_nil d : Chained d [] d
| Chained_cons d leg rest e :
    hd_error (distances leg) = Some d ->
    Chained (last (distances leg) d) rest e ->
    Chained d (leg :: rest) e.

(** ** Concrete collaborators

    Two small worlds on which the functions can be run: positions are valid
    unless they carry the sentinel ordinate, distances follow the grid of
    meridians and parallels, and the terrain is either unknown or a low hill
    halfway between the two waypoints. *)

Module Demo.

Local Open Scope Q_scope.

Definition invalidOrd : Q := 1000.

Definition gridDistanceMeter (p q : Pos) : Q :=
  (Qabs (lonX p - lonX q) + Qabs (latY p - latY q)) * 111120.

Definition linear (p q : Pos) (f : Q) : Pos :=
  mkPos (lonX p + f * (lonX q - lonX p))
        (latY p + f * (latY q - latY p))
        (altitude p + f * (altitude q - altitude p)).

Definition valid (p : Pos) : bool :=
  negb (Qeq_bool (lonX p) invalidOrd) && negb (Qeq_bool (latY p) invalidOrd).

(** The elevation model has no data: every profile is empty. *)
Definition noTerrain : Collaborators :=
  {| heightProfile := fun _ _ _ _ => [];
     distanceMeterTo := gridDistanceMeter;
     meterToNm := fun m => m / 1852;
     meterToFeet := fun m => m * (3281 # 1000);
     isValid := valid;
     defaultPos := mkPos invalidOrd invalidOrd 0;
     interpolate := linear |}.

(** Three samples per segment: 100 m at both ends and 102 m halfway. *)
Definition hill : Collaborators :=
  {| heightProfile := fun lon1 lat1 lon2 lat2 =>
       [ mkCoord lon1 lat1 100;
         mkCoord ((lon1 + lon2) / 2) ((lat1 + lat2) / 2) 102;
         mkCoord lon2 lat2 100 ];
     distanceMeterTo := gridDistanceMeter;
     meterToNm := fun m => m / 1852;
     meterToFeet := fun m => m * (3281 # 1000);
     isValid := valid;
     defaultPos := mkPos invalidOrd invalidOrd 0;
     interpolate := linear |}.

(** Terrain that rises eastwards, 100 m per degree of longitude, sampled at
    both ends of the segment and halfway. *)
Definition slope : Collaborators :=
  {| heightProfile := fun lon1 lat1 lon2 lat2 =>
       [ mkCoord lon1 lat1 (100 * lon1);
         mkCoord ((lon1 + lon2) / 2) ((lat1 + lat2) / 2) (50 * (lon1 + lon2));
         mkCoord lon2 lat2 (100 * lon2) ];
     distanceMeterTo := gridDistanceMeter;
     meterToNm := fun m => m / 1852;
     meterToFeet := fun m => m * (3281 # 1000);
     isValid := valid;
     defaultPos := mkPos invalidOrd invalidOrd 0;
     interpolate := linear |}.

Definition wp (name : string) (lon lat : Q) : RouteMapObject :=
  mkRmo name (mkPos lon lat 0).

(** Routes along the equator, one degree (60 nm) between waypoints. *)
Definition route2 : list RouteMapObject := [wp "A" 0 0; wp "B" 1 0].
Definition route3 : list RouteMapObject := [wp "A" 0 0; wp "B" 1 0; wp "C" 2 0].
Definition route4 : list RouteMapObject :=
  [wp "A" 0 0; wp "B" 1 0; wp "C" 2 0; wp "D" 3 0].
Definition route5 : list RouteMapObject :=
  [wp "A" 0 0; wp "B" 1 0; wp "C" 2 0; wp "D" 3 0; wp "E" 4 0].

(** No poll ever reads the flag as set. *)
Definition running : Token := fun _ => false.

(** The flag is set from the poll [k] on. *)
Definition cancelledFrom (k : nat) : Token := fun i => (k <=? i)%nat.

(** A widget of 730 by 414 pixels, cruise altitude 10000 ft, no aircraft. *)
Definition widget : Widget :=
  {| rectWidth := 730; rectHeight := 414; cruisingAlt := 10000;
     flightplanEmpty := false;
     simPosition := mkPos invalidOrd invalidOrd 0;
     aircraftShown := false |}.

(** The state of the run over [route4] on the hill terrain when the
    sample loop of the third leg reaches the sample halfway: two legs are
    accumulated. *)
Definition thirdLegHalfway : SampleState :=
  @sampleStep hill 3 0 (mkCoord 2 0 100)
    (mkSampleState newLeg
       (@legFold hill (wp "A" 0 0) [wp "B" 1 0; wp "C" 2 0]
          {| routeMapObjects := route4; elevationLegs := [];
             maxRouteElevation := 0; totalDistance := 0; totalNumPoints := 0 |})
       (@defaultPos hill)).

(** The profiles of the three-waypoint route on the hill and on the slope. *)
Definition hillProfile : ElevationLegList :=
  @fetchRouteElevationsThread hill running route3.

Definition slopeProfile : ElevationLegList :=
  @fetchRouteElevationsThread slope running route3.

Definition hillLeg1 : ElevationLeg := nth 0 (elevationLegs hillProfile) newLeg.
Definition hillLeg2 : ElevationLeg := nth 1 (elevationLegs hillProfile) newLeg.

(** The fourth leg of the five-waypoint route on the slope and on the hill. *)
Definition slopeLeg4 : ElevationLeg :=
  nth 3 (elevationLegs (@fetchRouteElevationsThread slope running route5)) newLeg.

Definition hillLeg4 : ElevationLeg :=
  nth 3 (elevationLegs (@fetchRouteElevationsThread hill running route5)) newLeg.

(** The profile of the two-waypoint route without terrain data. *)
Definition flatProfile : ElevationLegList :=
  @fetchRouteElevationsThread noTerrain running route2.

(** The same widget with the aircraft shown at 20000 ft over an empty
    flight plan. *)
Definition widgetNoPlan : Widget :=
  {| rectWidth := 730; rectHeight := 414; cruisingAlt := 10000;
     flightplanEmpty := true;
     simPosition := mkPos 0 0 20000;
     aircraftShown := true |}.

End Demo.

(** The projection of a profile for a widget, when the projector succeeds. *)
Definition projectionOf {C : Collaborators} (wd : Widget) (legList : ElevationLegList)
  : option ProjectionState :=
  match updateScreenCoords wd legList with
  | Ok ps => Some ps
  | OutOfRange => None
  end.

(** ** Predicates of the properties *)

Section Predicates.

Context {C : Collaborators}.

Local Open Scope Q_scope.

(** What holds of the state of the sample loop when it reaches index [j],
    for a leg started on the list [legs0]. *)
Record SampleInv (legs0 : ElevationLegList) (j : nat) (st : SampleState) : Prop := {
  si_rmo : routeMapObjects (stLegs st) = routeMapObjects legs0;
  si_legs : elevationLegs (stLegs st) = elevationLegs legs0;
  si_len : length (elevation (stLeg st)) = length (distances (stLeg st));
  si_started : (0 < j)%nat -> distances (stLeg st) <> [];
  si_hd : hd (totalDistance legs0) (distances (stLeg st)) = totalDistance legs0;
  si_last : last (distances (stLeg st)) (totalDistance legs0)
            = totalDistance (stLegs st);
  si_max : maxRouteElevation (stLegs st)
           == Num.fmax (maxRouteElevation legs0) (maxElevation (stLeg st));
  si_nonneg : 0 <= maxElevation (stLeg st)
}.

(** A leg that belongs to the segment from [a] to [b]: as many distances
    as samples, and the two ends of the segment are its first and its last
    sample. *)
Definition LegOf (a b : RouteMapObject) (leg : ElevationLeg) : Prop :=
  length (elevation leg) = length (distances leg)
  /\ hd_error (elevation leg) = hd_error (map samplePos (segmentSamples a b))
  /\ lastError (elevation leg) = lastError (map samplePos (segmentSamples a b))
  /\ elevation leg <> []
  /\ 0 <= maxElevation leg
  /\ exists legs0,
       leg = stLeg (sampleFold (length (segmentSamples a b)) 0 (segmentSamples a b)
                               (mkSampleState newLeg legs0 defaultPos)).

(** What holds of the list between two legs. *)
Record RouteInv (legs : ElevationLegList) : Prop := {
  ri_chain : Chained 0 (elevationLegs legs) (totalDistance legs);
  ri_sum : totalDistance legs == sumDeltas (elevationLegs legs);
  ri_max : maxRouteElevation legs == maxOverLegs (elevationLegs legs);
  ri_nonneg : 0 <= maxRouteElevation legs
}.

(** The sample loop skips a sample: the leg is left as it was. *)
Definition dropped (n j : nat) (coord : GeoDataCoordinates) (st : SampleState) : Prop :=
  sampleStep n j coord st = st.

(** The condition of the thinning rule in the words of the specification:
    not the first, not the last, at least two legs accumulated, altitude
    within ten feet of the last retained sample. *)
Definition statedDropCondition (n j : nat) (coord : GeoDataCoordinates)
           (st : SampleState) : Prop :=
  j <> 0%nat
  /\ j <> (n - 1)%nat
  /\ (2 <= length (elevationLegs (stLegs st)))%nat
  /\ Qabs (altitude (samplePos coord) - altitude (stLastPos st)) < 10.

(** The condition of the thinning rule as the run meets it, for the sample
    [pos] at index [j] of the [n] samples of a segment, when [accumulated]
    legs are in the list and [lastPos] is the last retained position: the
    last retained position is valid, the sample is neither the first nor the
    last of the segment, more than two legs are accumulated and the altitudes
    are within ten feet of each other. *)
Definition DropCondition (accumulated n j : nat) (lastPos pos : Pos) : Prop :=
  isValid lastPos = true
  /\ j <> 0%nat
  /\ j <> (n - 1)%nat
  /\ (2 < accumulated)%nat
  /\ Qabs (altitude pos - altitude lastPos) < 10.

(** The thinning of the samples of a segment, sample by sample from index
    [j] on: a sample that meets the condition is dropped, every other sample
    is retained and becomes the last retained position.  The last argument
    is what is retained. *)
Inductive Thinned (accumulated n : nat) : nat -> Pos -> list Pos -> list Pos -> Prop :=
| Thinned_end j lastPos : Thinned accumulated n j lastPos [] []
| Thinned_drop j lastPos pos rest kept :
    DropCondition accumulated n j lastPos pos ->
    Thinned accumulated n (S j) lastPos rest kept ->
    Thinned accumulated n j lastPos (pos :: rest) kept
| Thinned_retain j lastPos pos rest kept :
    ~ DropCondition accumulated n j lastPos pos ->
    Thinned accumulated n (S j) pos rest kept ->
    Thinned accumulated n j lastPos (pos :: rest) (pos :: kept).

(** The pixels of the samples of a leg, in the order of the samples: sample
    [i] goes with the distance [i]. *)
Definition legPixels (h : Z) (hScale vScale : Q) (leg : ElevationLeg) : list QPoint :=
  map (fun dp => projectPoint h hScale vScale (fst dp) (snd dp))
      (combine (distances leg) (elevation leg)).

(** No sample of the legs falls on the pixel (0, 0), which [QPoint::isNull]
    cannot tell from a point that was never set. *)
Definition noNullPixel (h : Z) (hScale vScale : Q) (legs : list ElevationLeg) : bool :=
  forallb (fun leg => forallb (fun pt => negb (isNull pt)) (legPixels h hScale vScale leg))
          legs.

(** The condition of the pixel thinning for the pixel [pt] of sample [i] of
    the [n] samples of a leg, when [lastPt] is the last pixel appended for
    this leg, if any: the first point of the leg, or the last point of the
    leg, or more than two pixels away from the last appended point. *)
Definition AppendCondition (lastPt : option QPoint) (n i : nat) (pt : QPoint) : Prop :=
  i = 0%nat
  \/ i = (n - 1)%nat
  \/ exists l, lastPt = Some l /\ (2 < manhattanLength l pt)%Z.

(** The pixel thinning of the pixels of a leg, pixel by pixel from index [i]
    on: a pixel that meets the condition is appended and becomes the last
    appended point, every other pixel is left out.  The last argument is what
    is appended. *)
Inductive PixelsKept (n : nat)
  : nat -> option QPoint -> list QPoint -> list QPoint -> Prop :=
| PixelsKept_end i lastPt : PixelsKept n i lastPt [] []
| PixelsKept_append i lastPt pt rest kept :
    AppendCondition lastPt n i pt ->
    PixelsKept n (S i) (Some pt) rest kept ->
    PixelsKept n i lastPt (pt :: rest) (pt :: kept)
| PixelsKept_skip i lastPt pt rest kept :
    ~ AppendCondition lastPt n i pt ->
    PixelsKept n (S i) lastPt rest kept ->
    PixelsKept n i lastPt (pt :: rest) kept.

(** The last appended point as the loop over the samples holds it: the null
    point stands for none. *)
Definition lastAppended (lastPt : QPoint) : option QPoint :=
  if isNull lastPt then None else Some lastPt.



(** The legs that the projector can walk without leaving a container. *)
Definition SoundLeg (leg : ElevationLeg) : Prop :=
  length (elevation leg) = length (distances leg) /\ elevation leg <> [].

(** The greatest value of a list of floats. *)
Definition greatestOf (candidates : list Q) (top : Q) : Prop :=
  In top candidates /\ forall x, In x candidates -> x <= top.

(** The condition of the pixel thinning in the words of the specification:
    the first point overall, or the last point of its leg, or more than two
    pixels away from the last point appended to the polygon [polyBefore]. *)
Definition statedAppendCondition (legIndex i n : nat) (polyBefore : list QPoint)
           (pt : QPoint) : Prop :=
  (legIndex = 0%nat /\ i = 0%nat)
  \/ i = (n - 1)%nat
  \/ (2 < manhattanLength (last polyBefore nullPoint) pt)%Z.

(** A profile and a projection on which the query stays inside every
    container. *)
Record Consistent (legList : ElevationLegList) (ps : ProjectionState) : Prop := {
  cs_legs : Forall SoundLeg (elevationLegs legList);
  cs_route : elevationLegs legList <> [] ->
             length (routeMapObjects legList) = S (length (elevationLegs legList));
  cs_wpx : length (waypointX ps) = S (length (elevationLegs legList))
}.

(** The ground altitude in the words of the specification: the average of
    the samples at the lower-bound and at the upper-bound index. *)
Definition statedGroundAltitude (leg : ElevationLeg) (d alt : Q) : Prop :=
  exists p1 p2,
    nth_error (elevation leg) (lower_bound Num.ltb (distances leg) d) = Some p1
    /\ nth_error (elevation leg) (upper_bound Num.ltb (distances leg) d) = Some p2
    /\ (alt == Qabs (altitude p1 + altitude p2) / 2)%Q.

End Predicates.

(** ** Further notions on profiles *)

(** Every element of a list stands in the relation [R] to the next one. *)
Inductive AdjacentPairs {A : Type} (R : A -> A -> Prop) : list A -> Prop :=
| AP_nil : AdjacentPairs R []
| AP_one x : AdjacentPairs R [x]
| AP_cons x y l : R x y -> AdjacentPairs R (y :: l) -> AdjacentPairs R (x :: y :: l).

(** [kept] is what remains of a list when some of its elements are left
    out, the others staying in their order. *)
Inductive Subsequence {A : Type} : list A -> list A -> Prop :=
| Sub_nil : Subsequence [] []
| Sub_keep x kept l : Subsequence kept l -> Subsequence (x :: kept) (x :: l)
| Sub_skip x kept l : Subsequence kept l -> Subsequence kept (x :: l).

(** Number of samples held by a list of legs. *)
Definition countPoints (legs : list ElevationLeg) : Z :=
  fold_left (fun acc leg => (acc + Z.of_nat (length (elevation leg)))%Z) legs 0%Z.

(** A list with another snapshot of the route. *)
Definition withRoute (route : list RouteMapObject) (legs : ElevationLegList)
  : ElevationLegList :=
  {| routeMapObjects := route;
     elevationLegs := elevationLegs legs;
     maxRouteElevation := maxRouteElevation legs;
     totalDistance := totalDistance legs;
     totalNumPoints := totalNumPoints legs |}.

(** The list with which a run starts. *)
Definition startList (route : list RouteMapObject) : ElevationLegList :=
  {| routeMapObjects := route; elevationLegs := [];
     maxRouteElevation := 0%Q; totalDistance := 0%Q; totalNumPoints := 0%Z |}.

(** Two lists that differ at most in the snapshot of the route. *)
Definition sameProfile (a b : ElevationLegList) : Prop :=
  elevationLegs a = elevationLegs b
  /\ maxRouteElevation a = maxRouteElevation b
  /\ totalDistance a = totalDistance b
  /\ totalNumPoints a = totalNumPoints b.

(** ** The event handlers of the widget

    The handlers of [ProfileWidget] as functions on the members they read
    and write.  What a handler asks of the timer, of the worker thread and of
    the painter is returned as a list of effects; what it reads from a
    [QFuture] or from the route controller is an argument. *)

Module Handlers.

(** [const int UPDATE_TIMEOUT = 1000] *)
Definition UPDATE_TIMEOUT : Z := 1000.

(** What a handler asks of its collaborators. *)
Inductive Effect : Type :=
| StartTimer (msec : Z)     (* updateTimer->start(msec) *)
| CancelAndWait             (* terminate = true; future.waitForFinished() *)
| StartWorker               (* future = QtConcurrent::run(...); watcher.setFuture(future) *)
| Repaint.                  (* update() *)

(** The members of the widget.  [env] holds what [rect()], the route
    controller and the map widget answer, together with the position of
    [simData]. *)
Record State : Type := mkState {
  env : Widget;
  visible : bool;
  terminateFlag : bool;
  legList : ElevationLegList;
  projection : ProjectionState;
  aircraftDistanceFromStart : Q
}.

(** What [simDataChanged] reads from the route controller. *)
Record RouteController : Type := mkRouteController {
  (** [routeController->getRouteMapObjects()] *)
  getRouteMapObjects : list RouteMapObject;
  (** [routeController->nearestLegIndex(pos)] *)
  nearestLegIndex : Pos -> Z;
  (** [RouteMapObject::getDistanceTo()] *)
  getDistanceTo : RouteMapObject -> Q
}.

Definition setSimPosition (wd : Widget) (pos : Pos) : Widget :=
  {| rectWidth := rectWidth wd; rectHeight := rectHeight wd;
     cruisingAlt := cruisingAlt wd; flightplanEmpty := flightplanEmpty wd;
     simPosition := pos; aircraftShown := aircraftShown wd |}.

Definition setEnv (st : State) (wd : Widget) : State :=
  {| env := wd; visible := visible st; terminateFlag := terminateFlag st;
     legList := legList st; projection := projection st;
     aircraftDistanceFromStart := aircraftDistanceFromStart st |}.

Definition setVisible (st : State) (v : bool) : State :=
  {| env := env st; visible := v; terminateFlag := terminateFlag st;
     legList := legList st; projection := projection st;
     aircraftDistanceFromStart := aircraftDistanceFromStart st |}.

Definition setTerminate (st : State) (t : bool) : State :=
  {| env := env st; visible := visible st; terminateFlag := t;
     legList := legList st; projection := projection st;
     aircraftDistanceFromStart := aircraftDistanceFromStart st |}.

Definition setLegList (st : State) (legs : ElevationLegList) : State :=
  {| env := env st; visible := visible st; terminateFlag := terminateFlag st;
     legList := legs; projection := projection st;
     aircraftDistanceFromStart := aircraftDistanceFromStart st |}.

Definition setProjection (st : State) (ps : ProjectionState) : State :=
  {| env := env st; visible := visible st; terminateFlag := terminateFlag st;
     legList := legList st; projection := ps;
     aircraftDistanceFromStart := aircraftDistanceFromStart st |}.

Definition setAircraftDistance (st : State) (d : Q) : State :=
  {| env := env st; visible := visible st; terminateFlag := terminateFlag st;
     legList := legList st; projection := projection st;
     aircraftDistanceFromStart := d |}.

(** [at(i)] for an [int] index. *)
Definition atInt {A : Type} (l : list A) (i : Z) : Outcome A :=
  if (i <? 0)%Z then OutOfRange else at_ l (Z.to_nat i).

Section WithCollaborators.

Context {C : Collaborators}.

(** [updateScreenCoords()] on the members. *)
Definition reproject (st : State) : Outcome State :=
  ps <- updateScreenCoords (env st) (legList st) ;;
  Ok (setProjection st ps).

(** [ProfileWidget::routeChanged] *)
Definition routeChanged (geometryChanged : bool) (st : State)
  : Outcome (State * list Effect) :=
  if negb (visible st) then Ok (st, [])
  else if geometryChanged then Ok (st, [StartTimer UPDATE_TIMEOUT])
  else st' <- reproject st ;; Ok (st', [Repaint]).

(** [ProfileWidget::updateElevation] *)
Definition updateElevation (st : State) : Outcome (State * list Effect) :=
  if negb (visible st) then Ok (st, [])
  else Ok (st, [StartTimer UPDATE_TIMEOUT]).

(** [ProfileWidget::updateTimeout]; [futureStarted] is what
    [future.isRunning() || future.isStarted()] answers. *)
Definition updateTimeout (futureStarted : bool) (st : State)
  : Outcome (State * list Effect) :=
  if negb (visible st) then Ok (st, [])
  else Ok (setTerminate st false,
           (if futureStarted then [CancelAndWait] else []) ++ [StartWorker]).

(** [ProfileWidget::updateFinished]; [result] is what [future.result()]
    answers. *)
Definition updateFinished (result : ElevationLegList) (st : State)
  : Outcome (State * list Effect) :=
  if negb (visible st) then Ok (st, [])
  else if terminateFlag st then Ok (st, [])
  else st' <- reproject (setLegList st result) ;; Ok (st', [Repaint]).

(** [ProfileWidget::showEvent] and [ProfileWidget::hideEvent] *)
Definition showEvent (st : State) : Outcome (State * list Effect) :=
  Ok (setVisible st true, [StartTimer 0]).

Definition hideEvent (st : State) : Outcome (State * list Effect) :=
  Ok (setVisible st false, []).

(** [ProfileWidget::resizeEvent] *)
Definition resizeEvent (st : State) : Outcome (State * list Effect) :=
  st' <- reproject st ;; Ok (st', []).

(** [ProfileWidget::disconnectedFromSimulator]; the position of a fresh
    [SimConnectData] is the default position. *)
Definition disconnectedFromSimulator (st : State) : Outcome (State * list Effect) :=
  st' <- reproject (setEnv st (setSimPosition (env st) defaultPos)) ;;
  Ok (st', [Repaint]).

(** The loop [for(int i = 0; i <= index; i++)] of [simDataChanged], entered
    at [i] with [count] passes to go. *)
Fixpoint sumDistanceTo (rc : RouteController) (count i : nat) (acc : Q) : Outcome Q :=
  match count with
  | O => Ok acc
  | S count' =>
      rmo <- at_ (getRouteMapObjects rc) i ;;
      sumDistanceTo rc count' (S i) (acc + getDistanceTo rc rmo)%Q
  end.

(** [ProfileWidget::simDataChanged] for the position of the simulator
    data. *)
Definition simDataChanged (rc : RouteController) (simulatorPos : Pos) (st : State)
  : Outcome (State * list Effect) :=
  if aircraftShown (env st) && negb (flightplanEmpty (env st)) then
    let st1 := setEnv st (setSimPosition (env st) simulatorPos) in
    let nearest := nearestLegIndex rc simulatorPos in
    if (nearest =? -1)%Z then Ok (st1, [])
    else
      let size := Z.of_nat (length (getRouteMapObjects rc)) in
      let index := if (size <=? nearest)%Z then (size - 1)%Z else nearest in
      total <- sumDistanceTo rc (Z.to_nat (index + 1)) 0 0%Q ;;
      rmo <- atInt (getRouteMapObjects rc) index ;;
      let st2 := setAircraftDistance st1
                   (total - meterToNm (distanceMeterTo (position rmo) simulatorPos))%Q in
      if Num.ltb (maxHeight (projection st2)) (altitude simulatorPos)
      then st3 <- reproject st2 ;; Ok (st3, [Repaint])
      else Ok (st2, [Repaint])
  else
    let valid := isValid (simPosition (env st)) in
    Ok (setEnv st (setSimPosition (env st) defaultPos),
        if valid then [Repaint] else []).

(** Between two handlers the answers of [rect()], of the route controller
    and of the map widget may change; [simData] is a member and stays. *)
Definition environmentChanged (wd : Widget) (st : State)
  : Outcome (State * list Effect) :=
  Ok (setEnv st (setSimPosition wd (simPosition (env st))), []).

(** The events that reach the widget. *)
Inductive Event : Type :=
| Environment (wd : Widget)
| RouteChanged (geometryChanged : bool)
| UpdateElevation
| UpdateTimeout (futureStarted : bool)
| UpdateFinished (result : ElevationLegList)
| ShowEvent
| HideEvent
| ResizeEvent
| Disconnected
| SimDataChanged (rc : RouteController) (simulatorPos : Pos).

Definition handle (e : Event) (st : State) : Outcome (State * list Effect) :=
  match e with
  | Environment wd => environmentChanged wd st
  | RouteChanged g => routeChanged g st
  | UpdateElevation => updateElevation st
  | UpdateTimeout f => updateTimeout f st
  | UpdateFinished r => updateFinished r st
  | ShowEvent => showEvent st
  | HideEvent => hideEvent st
  | ResizeEvent => resizeEvent st
  | Disconnected => disconnectedFromSimulator st
  | SimDataChanged rc pos => simDataChanged rc pos st
  end.

(** The handlers of a sequence of events, one after the other. *)
Fixpoint run (events : list Event) (st : State) : Outcome (State * list Effect) :=
  match events with
  | [] => Ok (st, [])
  | e :: rest =>
      r1 <- handle e st ;;
      r2 <- run rest (fst r1) ;;
      Ok (fst r2, snd r1 ++ snd r2)
  end.

(** The events of the scheduler: route and terrain changes, the timer and
    the end of the worker. *)
Definition schedulerEvent (e : Event) : bool :=
  match e with
  | RouteChanged _ | UpdateElevation | UpdateTimeout _ | UpdateFinished _ => true
  | _ => false
  end.

(** The sum that the loop of [simDataChanged] builds over the first [n]
    waypoints, in the order of the loop. *)
Definition distanceToWaypoint (rc : RouteController) (n : nat) : Q :=
  fold_left (fun acc rmo => (acc + getDistanceTo rc rmo)%Q)
            (firstn n (getRouteMapObjects rc)) 0%Q.

(** The index that [simDataChanged] uses for a nearest leg index [nearest]
    that is not negative. *)
Definition clampedIndex (rc : RouteController) (nearest : Z) : nat :=
  Z.to_nat (Z.min nearest (Z.of_nat (length (getRouteMapObjects rc)) - 1)).

(** A result of a run of the worker that was not cancelled. *)
Definition WorkerResult (result : ElevationLegList) : Prop :=
  exists terminate route,
    neverSet terminate /\ result = fetchRouteElevationsThread terminate route.

(** The route controller found no leg, or a leg of a route with waypoints. *)
Definition NearestInRoute (rc : RouteController) (pos : Pos) : Prop :=
  nearestLegIndex rc pos = (-1)%Z
  \/ ((0 <= nearestLegIndex rc pos)%Z /\ getRouteMapObjects rc <> []).

(** What the events carry from outside the widget. *)
Definition WellFormed (e : Event) : Prop :=
  match e with
  | UpdateFinished result => WorkerResult result
  | SimDataChanged rc pos => NearestInRoute rc pos
  | _ => True
  end.

(** The members fit each other: no legs, or a profile and a projection on
    which the query stays inside every container. *)
Definition InRange (st : State) : Prop :=
  elevationLegs (legList st) = []
  \/ Consistent (legList st) (projection st).

End WithCollaborators.

(** A widget that was never shown: no profile, nothing projected. *)
Definition emptyProjection : ProjectionState :=
  {| maxRouteElevationFt := 0; flightplanAltFt := 0; maxHeight := 0;
     vertScale := 0; horizScale := 0; waypointX := []; poly := [] |}.

Definition hidden (wd : Widget) : State :=
  {| env := wd; visible := false; terminateFlag := false;
     legList := noResult; projection := emptyProjection;
     aircraftDistanceFromStart := 0 |}.

(** A route controller over the three-waypoint route: legs of 60 nm, the
    nearest leg given by the latitude of the aircraft. *)
Definition controller : RouteController :=
  {| getRouteMapObjects := Demo.route3;
     nearestLegIndex := fun pos => Qfloor (latY pos);
     getDistanceTo := fun _ => 60%Q |}.

(** The demo widget with the aircraft layer on. *)
Definition widgetWithAircraft : Widget :=
  {| rectWidth := 730; rectHeight := 414; cruisingAlt := 10000;
     flightplanEmpty := false;
     simPosition := mkPos Demo.invalidOrd Demo.invalidOrd 0;
     aircraftShown := true |}.

(** The widget shown with the profile of the three-waypoint route on the
    hill installed. *)
Definition shownWithHill : State :=
  match @run Demo.hill [ShowEvent; UpdateTimeout false; UpdateFinished Demo.hillProfile]
             (hidden widgetWithAircraft) with
  | Ok r => fst r
  | OutOfRange => hidden widgetWithAircraft
  end.

End Handlers.

(** ** Facts on the numbers *)

Module NumFacts.

Local Open Scope Q_scope.

Lemma ltb_lt (a b : Q) : Num.ltb a b = true <-> a < b.
Proof.
  unfold Num.ltb. rewrite negb_true_iff.
  split; intro H.
  - apply Qnot_le_lt. intro Hle. apply Qle_bool_iff in Hle. congruence.
  - destruct (Qle_bool b a) eqn:E; [|reflexivity].
    apply Qle_bool_iff in E. exfalso. apply (Qlt_not_le _ _ H E).
Qed.

Lemma ltb_ge (a b : Q) : Num.ltb a b = false <-> b <= a.
Proof.
  unfold Num.ltb. rewrite negb_false_iff. apply Qle_bool_iff.
Qed.

Lemma almostEqual_spec (f1 f2 eps : Q) :
  Num.almostEqual f1 f2 eps = true <-> Qabs (f1 - f2) < eps.
Proof. apply ltb_lt. Qed.

Lemma fmax_ge_l (a b : Q) : a <= Num.fmax a b.
Proof.
  unfold Num.fmax. destruct (Num.ltb a b) eqn:E.
  - apply ltb_lt in E. apply Qlt_le_weak, E.
  - apply Qle_refl.
Qed.

Lemma fmax_ge_r (a b : Q) : b <= Num.fmax a b.
Proof.
  unfold Num.fmax. destruct (Num.ltb a b) eqn:E.
  - apply Qle_refl.
  - apply ltb_ge in E. exact E.
Qed.

Lemma fmax_cases (a b : Q) : Num.fmax a b = a \/ Num.fmax a b = b.
Proof. unfold Num.fmax. destruct (Num.ltb a b); auto. Qed.


Lemma fmax_compat_l (a a' b : Q) : a == a' -> Num.fmax a b == Num.fmax a' b.
Proof.
  intro H. unfold Num.fmax.
  destruct (Num.ltb a b) eqn:E1; destruct (Num.ltb a' b) eqn:E2;
    try apply ltb_lt in E1; try apply ltb_ge in E1;
    try apply ltb_lt in E2; try apply ltb_ge in E2; lra.
Qed.

End NumFacts.

(** Case analysis on every float comparison in sight. *)
Ltac float_cases :=
  repeat match goal with
         | |- context [Num.ltb ?a ?b] =>
             let E := fresh "E" in
             destruct (Num.ltb a b) eqn:E;
             [apply NumFacts.ltb_lt in E | apply NumFacts.ltb_ge in E]
         | H : context [Num.ltb ?a ?b] |- _ =>
             let E := fresh "E" in
             destruct (Num.ltb a b) eqn:E;
             [apply NumFacts.ltb_lt in E | apply NumFacts.ltb_ge in E]
         end.

(** ** Facts on lists *)

Lemma lastError_snoc {A : Type} (l : list A) (x : A) : lastError (l ++ [x]) = Some x.
Proof.
  unfold lastError. rewrite length_app. simpl.
  replace (length l + 1 - 1)%nat with (length l) by lia.
  rewrite nth_error_app2 by lia. rewrite Nat.sub_diag. reflexivity.
Qed.

Lemma lastError_app {A : Type} (l k : list A) :
  k <> [] -> lastError (l ++ k) = lastError k.
Proof.
  intro Hk. destruct (exists_last Hk) as [k' [x ->]].
  rewrite app_assoc. rewrite !lastError_snoc. reflexivity.
Qed.

Lemma lastError_map {A B : Type} (f : A -> B) (l : list A) :
  lastError (map f l) = option_map f (lastError l).
Proof.
  unfold lastError. rewrite length_map. apply nth_error_map.
Qed.

Lemma last_default {A : Type} (l : list A) (d d' : A) :
  l <> [] -> last l d = last l d'.
Proof.
  induction l as [|x l IH]; intro Hne; [congruence|].
  destruct l as [|y l]; [reflexivity|].
  change (last (y :: l) d = last (y :: l) d'). apply IH. discriminate.
Qed.

Lemma ND_snoc (l : list Q) (x d : Q) :
  NonDecreasing l -> (l = [] \/ (last l d <= x)%Q) -> NonDecreasing (l ++ [x]).
Proof.
  induction 1 as [| y | y z l Hyz Hnd IH]; intro Hx; simpl.
  - constructor.
  - destruct Hx as [Hx | Hx]; [discriminate|]. simpl in Hx.
    constructor; [exact Hx | constructor].
  - constructor; [exact Hyz|]. apply IH. right.
    destruct Hx as [Hx | Hx]; [discriminate|]. exact Hx.
Qed.

Lemma Chained_snoc (d e : Q) (legs : list ElevationLeg) (leg : ElevationLeg) :
  Chained d legs e ->
  hd_error (distances leg) = Some e ->
  Chained d (legs ++ [leg]) (last (distances leg) e).
Proof.
  induction 1 as [d | d l rest e Hhd Hch IH]; intro Hleg; simpl.
  - constructor; [exact Hleg | constructor].
  - constructor; [exact Hhd | apply IH, Hleg].
Qed.

Lemma Chained_nth (d e : Q) (legs : list ElevationLeg) :
  Chained d legs e ->
  forall i a b,
    nth_error legs i = Some a -> nth_error legs (S i) = Some b ->
    distances a <> [] /\ hd_error (distances b) = lastError (distances a).
Proof.
  induction 1 as [d | d l rest e Hhd Hch IH]; intros i a b Ha Hb.
  - destruct i; discriminate.
  - destruct i as [|i]; simpl in Ha, Hb.
    + injection Ha as <-. destruct rest as [|l' rest']; [discriminate|].
      simpl in Hb. injection Hb as <-.
      inversion Hch as [| d' l'' r'' e' Hhd' Hch' ]; subst.
      assert (Hne : distances l <> []) by (destruct (distances l); discriminate).
      split; [exact Hne|]. rewrite Hhd'.
      destruct (exists_last Hne) as [k [y Hk]].
      rewrite Hk. rewrite last_last, lastError_snoc. reflexivity.
    + eapply IH; eassumption.
Qed.

(** ** Facts on the leg builder *)

Section FetchFacts.

Context {C : Collaborators}.

Local Open Scope Q_scope.

Lemma sampleLoop_neverSet (terminate : Token) (n : nat) (elev : list GeoDataCoordinates) :
  neverSet terminate ->
  forall j st k,
    sampleLoop terminate n j elev st k
    = (Some (sampleFold n j elev st), (k + length elev)%nat).
Proof.
  intro Hrun. induction elev as [|coord rest IH]; intros j st k; simpl.
  - f_equal. lia.
  - rewrite Hrun, IH. f_equal. lia.
Qed.

Lemma legLoop_neverSet (terminate : Token) :
  neverSet terminate ->
  forall rest lastRmo legs k,
    legLoop terminate lastRmo rest legs k = legFold lastRmo rest legs.
Proof.
  intro Hrun. induction rest as [|rmo rest IH]; intros lastRmo legs k; simpl.
  - reflexivity.
  - rewrite Hrun, sampleLoop_neverSet by exact Hrun. apply IH.
Qed.

Lemma segmentSamples_nonempty (a b : RouteMapObject) : segmentSamples a b <> [].
Proof.
  unfold segmentSamples.
  destruct (heightProfile _ _ _ _); discriminate.
Qed.

(** The first and the last sample of a segment are never skipped. *)
Lemma dropSample_first (st : SampleState) (n : nat) (pos : Pos) :
  dropSample st n 0 pos = false.
Proof.
  unfold dropSample. simpl. rewrite andb_false_r. reflexivity.
Qed.

Lemma dropSample_last (st : SampleState) (n j : nat) (pos : Pos) :
  j = (n - 1)%nat -> dropSample st n j pos = false.
Proof.
  intros ->. unfold dropSample. rewrite Nat.eqb_refl. simpl.
  rewrite !andb_false_r. reflexivity.
Qed.

Lemma SampleInv_start (legs0 : ElevationLegList) :
  0 <= maxRouteElevation legs0 ->
  SampleInv legs0 0 (mkSampleState newLeg legs0 defaultPos).
Proof.
  intro H0. constructor; simpl; try reflexivity.
  - intro Hj. inversion Hj.
  - unfold Num.fmax. float_cases; lra.
  - apply Qle_refl.
Qed.

Lemma SampleInv_step (legs0 : ElevationLegList) (n j : nat)
      (coord : GeoDataCoordinates) (st : SampleState) :
  SampleInv legs0 j st -> SampleInv legs0 (S j) (sampleStep n j coord st).
Proof.
  intros [Hrmo Hlegs Hlen Hst Hhd Hlast Hmax Hnn].
  unfold sampleStep.
  destruct (dropSample st n j (samplePos coord)) eqn:Hdrop.
  - constructor; try assumption.
    intros _. apply Hst. destruct j as [|j]; [|lia].
    rewrite dropSample_first in Hdrop. discriminate.
  - constructor; simpl; try assumption.
    + rewrite !length_app. simpl. lia.
    + intros _ Habs. apply app_eq_nil in Habs. destruct Habs; discriminate.
    + destruct (distances (stLeg st)) as [|d ds] eqn:Ed.
      * destruct j as [|j]; simpl.
        -- simpl in Hlast. congruence.
        -- exfalso. apply Hst; [lia | reflexivity].
      * simpl. exact Hhd.
    + apply last_last.
    + unfold Num.fmax in *. float_cases; lra.
    + float_cases; lra.
Qed.

Lemma SampleInv_fold (legs0 : ElevationLegList) (n : nat)
      (elev : list GeoDataCoordinates) :
  forall j st,
    SampleInv legs0 j st ->
    SampleInv legs0 (j + length elev) (sampleFold n j elev st).
Proof.
  induction elev as [|coord rest IH]; intros j st Hinv; simpl.
  - rewrite Nat.add_0_r. exact Hinv.
  - replace (j + S (length rest))%nat with (S j + length rest)%nat by lia.
    apply IH, SampleInv_step, Hinv.
Qed.

(** The loop only appends to the leg. *)
Lemma sampleStep_extends (n j : nat) (coord : GeoDataCoordinates) (st : SampleState) :
  exists kept, elevation (stLeg (sampleStep n j coord st)) = elevation (stLeg st) ++ kept.
Proof.
  unfold sampleStep. destruct (dropSample _ _ _ _).
  - exists []. rewrite app_nil_r. reflexivity.
  - exists [samplePos coord]. reflexivity.
Qed.

Lemma sampleFold_extends (n : nat) (elev : list GeoDataCoordinates) :
  forall j st,
  exists kept, elevation (stLeg (sampleFold n j elev st)) = elevation (stLeg st) ++ kept.
Proof.
  induction elev as [|coord rest IH]; intros j st; simpl.
  - exists []. rewrite app_nil_r. reflexivity.
  - destruct (IH (S j) (sampleStep n j coord st)) as [k2 H2].
    destruct (sampleStep_extends n j coord st) as [k1 H1].
    exists (k1 ++ k2). rewrite H2, H1, app_assoc. reflexivity.
Qed.

Lemma sampleFold_first (n : nat) (coord : GeoDataCoordinates)
      (rest : list GeoDataCoordinates) (st : SampleState) :
  elevation (stLeg st) = [] ->
  hd_error (elevation (stLeg (sampleFold n 0 (coord :: rest) st)))
  = Some (samplePos coord).
Proof.
  intro Hempty. simpl.
  destruct (sampleFold_extends n rest 1 (sampleStep n 0 coord st)) as [kept ->].
  unfold sampleStep. rewrite dropSample_first. simpl.
  rewrite Hempty. reflexivity.
Qed.

Lemma sampleFold_last (n : nat) (elev : list GeoDataCoordinates) :
  forall j st,
    elev <> [] ->
    (j + length elev = n)%nat ->
    lastError (elevation (stLeg (sampleFold n j elev st)))
    = lastError (map samplePos elev).
Proof.
  induction elev as [|coord rest IH]; intros j st Hne Hn; [congruence|].
  destruct rest as [|coord' rest'].
  - simpl. unfold sampleStep.
    rewrite dropSample_last by (simpl in Hn; lia).
    simpl. rewrite lastError_snoc. reflexivity.
  - change (sampleFold n j (coord :: coord' :: rest') st)
      with (sampleFold n (S j) (coord' :: rest') (sampleStep n j coord st)).
    rewrite IH; [| discriminate | simpl in *; lia].
    change (map samplePos (coord :: coord' :: rest'))
      with ([samplePos coord] ++ map samplePos (coord' :: rest')).
    rewrite lastError_app by discriminate. reflexivity.
Qed.

Lemma sampleFold_ends (elev : list GeoDataCoordinates) (st : SampleState) :
  elev <> [] ->
  elevation (stLeg st) = [] ->
  hd_error (elevation (stLeg (sampleFold (length elev) 0 elev st)))
  = hd_error (map samplePos elev)
  /\ lastError (elevation (stLeg (sampleFold (length elev) 0 elev st)))
     = lastError (map samplePos elev).
Proof.
  intros Hne Hempty. split.
  - destruct elev as [|coord rest]; [congruence|].
    rewrite sampleFold_first by exact Hempty. reflexivity.
  - apply sampleFold_last; [exact Hne | reflexivity].
Qed.

Lemma sumDeltas_snoc (legs : list ElevationLeg) (leg : ElevationLeg) :
  sumDeltas (legs ++ [leg]) = sumDeltas legs + legDelta leg.
Proof.
  unfold sumDeltas. rewrite map_app, fold_left_app. reflexivity.
Qed.

Lemma maxOverLegs_snoc (legs : list ElevationLeg) (leg : ElevationLeg) :
  maxOverLegs (legs ++ [leg]) = Num.fmax (maxOverLegs legs) (maxElevation leg).
Proof.
  unfold maxOverLegs. rewrite map_app, fold_left_app. reflexivity.
Qed.

Lemma buildLeg_spec (legs : ElevationLegList) (a b : RouteMapObject) :
  RouteInv legs ->
  RouteInv (buildLeg legs a b)
  /\ routeMapObjects (buildLeg legs a b) = routeMapObjects legs
  /\ exists leg,
       elevationLegs (buildLeg legs a b) = elevationLegs legs ++ [leg]
       /\ LegOf a b leg.
Proof.
  intros [Hchain Hsum Hmax Hnn].
  unfold buildLeg.
  pose proof (segmentSamples_nonempty a b) as Hne.
  set (elev := segmentSamples a b) in *.
  set (st0 := mkSampleState newLeg legs defaultPos).
  pose proof (SampleInv_fold legs (length elev) elev 0 st0 (SampleInv_start legs Hnn)) as Hinv.
  fold st0 in Hinv. simpl in Hinv.
  set (st := sampleFold (length elev) 0 elev st0) in *.
  destruct Hinv as [Irmo Ilegs Ilen Ist Ihd Ilast Imax Inn].
  assert (Hpos : (0 < length elev)%nat).
  { destruct elev; [congruence | simpl; lia]. }
  specialize (Ist Hpos).
  assert (Hfirst : hd_error (distances (stLeg st)) = Some (totalDistance legs)).
  { destruct (distances (stLeg st)); [congruence|]. simpl in *. congruence. }
  assert (Hdelta : legDelta (stLeg st) = totalDistance (stLegs st) - totalDistance legs).
  { unfold legDelta. rewrite <- Ilast.
    destruct (distances (stLeg st)) as [|d ds]; [congruence|].
    simpl in Ihd. subst d. simpl hd. f_equal.
    apply last_default. discriminate. }
  split; [|split].
  - constructor; simpl.
    + rewrite Ilegs, <- Ilast.
      apply Chained_snoc; assumption.
    + rewrite Ilegs, sumDeltas_snoc, Hdelta, <- Hsum. ring.
    + rewrite Ilegs, maxOverLegs_snoc, Imax.
      apply NumFacts.fmax_compat_l, Hmax.
    + rewrite Imax. eapply Qle_trans; [exact Hnn | apply NumFacts.fmax_ge_l].
  - simpl. exact Irmo.
  - exists (stLeg st). simpl. split; [rewrite Ilegs; reflexivity|].
    unfold LegOf. split; [exact Ilen|].
    split; [|split; [|split; [|split]]].
    + apply sampleFold_ends; [exact Hne | reflexivity].
    + apply sampleFold_ends; [exact Hne | reflexivity].
    + intro Habs. rewrite Habs in Ilen. simpl in Ilen.
      destruct (distances (stLeg st)); [congruence | discriminate].
    + exact Inn.
    + exists legs. reflexivity.
Qed.

Lemma legFold_spec (rest : list RouteMapObject) :
  forall lastRmo legs,
    RouteInv legs ->
    RouteInv (legFold lastRmo rest legs)
    /\ routeMapObjects (legFold lastRmo rest legs) = routeMapObjects legs
    /\ exists news,
         elevationLegs (legFold lastRmo rest legs) = elevationLegs legs ++ news
         /\ Forall2 (fun p leg => LegOf (fst p) (snd p) leg)
                    (combine (lastRmo :: rest) rest) news.
Proof.
  induction rest as [|rmo rest IH]; intros lastRmo legs Hinv; simpl.
  - split; [exact Hinv|]. split; [reflexivity|].
    exists []. rewrite app_nil_r. split; [reflexivity | constructor].
  - destruct (buildLeg_spec legs lastRmo rmo Hinv) as [Hinv' [Hrmo' [leg [Hlegs' Hleg]]]].
    destruct (IH rmo _ Hinv') as [Hinv'' [Hrmo'' [news [Hlegs'' Hnews]]]].
    split; [exact Hinv''|]. split; [congruence|].
    exists (leg :: news). split.
    + rewrite Hlegs'', Hlegs', <- app_assoc. reflexivity.
    + constructor; assumption.
Qed.

(** Distances never decrease when the distance between two positions is
    never negative. *)
Section Sorted.

Hypothesis distance_nonneg : forall p q : Pos, 0 <= meterToNm (distanceMeterTo p q).

Lemma sampleStep_sorted (n j : nat) (coord : GeoDataCoordinates) (st : SampleState) (d : Q) :
  last (distances (stLeg st)) d = totalDistance (stLegs st) ->
  NonDecreasing (distances (stLeg st)) ->
  NonDecreasing (distances (stLeg (sampleStep n j coord st))).
Proof.
  intros Hlast Hnd. unfold sampleStep.
  destruct (dropSample _ _ _ _); [exact Hnd|].
  simpl. apply ND_snoc with (d := d); [exact Hnd|].
  right. rewrite Hlast.
  destruct (0 <? j)%nat.
  - pose proof (distance_nonneg (stLastPos st) (samplePos coord)). lra.
  - apply Qle_refl.
Qed.

Lemma sampleFold_sorted (legs0 : ElevationLegList) (n : nat)
      (elev : list GeoDataCoordinates) :
  forall j st,
    SampleInv legs0 j st ->
    NonDecreasing (distances (stLeg st)) ->
    NonDecreasing (distances (stLeg (sampleFold n j elev st))).
Proof.
  induction elev as [|coord rest IH]; intros j st Hinv Hnd; simpl.
  - exact Hnd.
  - apply IH with (j := S j).
    + apply SampleInv_step, Hinv.
    + eapply sampleStep_sorted; [apply (si_last _ _ _ Hinv) | exact Hnd].
Qed.

Lemma legFold_sorted (rest : list RouteMapObject) :
  forall lastRmo legs,
    RouteInv legs ->
    Forall (fun leg => NonDecreasing (distances leg)) (elevationLegs legs) ->
    Forall (fun leg => NonDecreasing (distances leg))
           (elevationLegs (legFold lastRmo rest legs)).
Proof.
  induction rest as [|rmo rest IH]; intros lastRmo legs Hinv Hall; simpl.
  - exact Hall.
  - apply IH.
    + apply (buildLeg_spec legs lastRmo rmo Hinv).
    + unfold buildLeg. simpl.
      pose proof (SampleInv_fold legs (length (segmentSamples lastRmo rmo))
                    (segmentSamples lastRmo rmo) 0 _
                    (SampleInv_start legs (ri_nonneg _ Hinv))) as Hs.
      rewrite (si_legs _ _ _ Hs).
      apply Forall_app. split; [exact Hall|].
      constructor; [|constructor].
      eapply sampleFold_sorted.
      * apply SampleInv_start, (ri_nonneg _ Hinv).
      * constructor.
Qed.

End Sorted.

Lemma RouteInv_start (route : list RouteMapObject) :
  RouteInv {| routeMapObjects := route; elevationLegs := [];
              maxRouteElevation := 0; totalDistance := 0; totalNumPoints := 0 |}.
Proof.
  constructor; simpl.
  - constructor.
  - reflexivity.
  - reflexivity.
  - apply Qle_refl.
Qed.

End FetchFacts.

(** ** The assembled profile *)

Lemma Forall2_nth_error {A B : Type} (P : A -> B -> Prop) (l1 : list A) (l2 : list B) :
  Forall2 P l1 l2 ->
  forall i y, nth_error l2 i = Some y -> exists x, nth_error l1 i = Some x /\ P x y.
Proof.
  induction 1 as [|x y l1 l2 Hxy Hrest IH]; intros i z Hz.
  - destruct i; discriminate.
  - destruct i as [|i]; simpl in Hz.
    + injection Hz as <-. exists x. split; [reflexivity | exact Hxy].
    + apply IH, Hz.
Qed.

Lemma adjacent_nth (route : list RouteMapObject) :
  forall i p,
    nth_error (adjacent route) i = Some p ->
    nth_error route i = Some (fst p) /\ nth_error route (S i) = Some (snd p).
Proof.
  unfold adjacent.
  induction route as [|a route IH]; intros i p Hp.
  - destruct i; discriminate.
  - destruct route as [|b route]; [destruct i; discriminate|].
    destruct i as [|i].
    + simpl in Hp. injection Hp as <-. split; reflexivity.
    + apply (IH i p Hp).
Qed.

Lemma adjacent_length (route : list RouteMapObject) :
  length (adjacent route) = (length route - 1)%nat.
Proof.
  unfold adjacent. rewrite length_combine.
  destruct route as [|a route]; [reflexivity|]. cbn [tl length]. lia.
Qed.

Section MaxFacts.

Local Open Scope Q_scope.

Lemma fold_fmax_ge (l : list Q) :
  forall a, a <= fold_left Num.fmax l a
            /\ forall x, In x l -> x <= fold_left Num.fmax l a.
Proof.
  induction l as [|y l IH]; intro a; simpl.
  - split; [apply Qle_refl | intros x []].
  - destruct (IH (Num.fmax a y)) as [H1 H2]. split.
    + eapply Qle_trans; [apply NumFacts.fmax_ge_l | exact H1].
    + intros x [<- | Hx].
      * eapply Qle_trans; [apply NumFacts.fmax_ge_r | exact H1].
      * apply H2, Hx.
Qed.

Lemma fold_fmax_in (l : list Q) :
  forall a, fold_left Num.fmax l a = a \/ In (fold_left Num.fmax l a) l.
Proof.
  induction l as [|y l IH]; intro a; simpl.
  - left. reflexivity.
  - destruct (IH (Num.fmax a y)) as [H | H].
    + rewrite H. destruct (NumFacts.fmax_cases a y) as [E | E]; rewrite E; auto.
    + right. right. exact H.
Qed.

(** [maxOverLegs] is the greatest [maxElevation] of a list of legs whose
    maxima are not negative. *)
Lemma maxOverLegs_greatest (legs : list ElevationLeg) :
  Forall (fun leg => 0 <= maxElevation leg) legs ->
  (forall leg, In leg legs -> maxElevation leg <= maxOverLegs legs)
  /\ (legs <> [] -> exists leg, In leg legs /\ maxElevation leg == maxOverLegs legs).
Proof.
  intro Hnn. unfold maxOverLegs.
  destruct (fold_fmax_ge (map maxElevation legs) 0) as [H0 Hall].
  split.
  - intros leg Hin. apply Hall, in_map, Hin.
  - intro Hne.
    destruct (fold_fmax_in (map maxElevation legs) 0) as [E | E].
    + destruct legs as [|leg legs]; [congruence|].
      exists leg. split; [left; reflexivity|].
      apply Qle_antisym.
      * apply Hall. left. reflexivity.
      * rewrite E. inversion Hnn; assumption.
    + apply in_map_iff in E. destruct E as [leg [E Hin]].
      exists leg. split; [exact Hin|]. rewrite E. reflexivity.
Qed.

End MaxFacts.

Section Assembled.

Context {C : Collaborators}.

Local Open Scope Q_scope.

(** The result of a run that is not cancelled. *)
Lemma fetch_spec (terminate : Token) (route : list RouteMapObject) :
  neverSet terminate ->
  RouteInv (fetchRouteElevationsThread terminate route)
  /\ routeMapObjects (fetchRouteElevationsThread terminate route) = route
  /\ Forall2 (fun p leg => LegOf (fst p) (snd p) leg)
             (adjacent route)
             (elevationLegs (fetchRouteElevationsThread terminate route)).
Proof.
  intro Hrun. unfold fetchRouteElevationsThread.
  destruct route as [|a rest].
  - split; [apply RouteInv_start|]. split; [reflexivity | constructor].
  - rewrite legLoop_neverSet by exact Hrun.
    destruct (legFold_spec rest a _ (RouteInv_start (a :: rest)))
      as [Hinv [Hrmo [news [Hlegs Hnews]]]].
    split; [exact Hinv|]. split; [exact Hrmo|].
    rewrite Hlegs. exact Hnews.
Qed.

Lemma fetch_leg (terminate : Token) (route : list RouteMapObject) (i : nat)
      (leg : ElevationLeg) :
  neverSet terminate ->
  nth_error (elevationLegs (fetchRouteElevationsThread terminate route)) i = Some leg ->
  exists a b,
    nth_error route i = Some a /\ nth_error route (S i) = Some b /\ LegOf a b leg.
Proof.
  intros Hrun Hleg.
  destruct (fetch_spec terminate route Hrun) as [_ [_ Hall]].
  destruct (Forall2_nth_error _ _ _ Hall i leg Hleg) as [[a b] [Hp Hof]].
  apply adjacent_nth in Hp. simpl in *.
  exists a, b. tauto.
Qed.

Lemma fetch_sorted (terminate : Token) (route : list RouteMapObject) :
  (forall p q : Pos, 0 <= meterToNm (distanceMeterTo p q)) ->
  neverSet terminate ->
  Forall (fun leg => NonDecreasing (distances leg))
         (elevationLegs (fetchRouteElevationsThread terminate route)).
Proof.
  intros Hdist Hrun. unfold fetchRouteElevationsThread.
  destruct route as [|a rest]; [constructor|].
  rewrite legLoop_neverSet by exact Hrun.
  apply legFold_sorted; [exact Hdist | apply RouteInv_start | constructor].
Qed.

End Assembled.

Lemma Forall2_nth_error_l {A B : Type} (P : A -> B -> Prop) (l1 : list A) (l2 : list B) :
  Forall2 P l1 l2 ->
  forall i x, nth_error l1 i = Some x -> exists y, nth_error l2 i = Some y /\ P x y.
Proof.
  induction 1 as [|x y l1 l2 Hxy Hrest IH]; intros i z Hz.
  - destruct i; discriminate.
  - destruct i as [|i]; simpl in Hz.
    + injection Hz as <-. exists y. split; [reflexivity | exact Hxy].
    + apply IH, Hz.
Qed.

Lemma nth_adjacent (route : list RouteMapObject) :
  forall i a b,
    nth_error route i = Some a -> nth_error route (S i) = Some b ->
    nth_error (adjacent route) i = Some (a, b).
Proof.
  unfold adjacent.
  induction route as [|x route IH]; intros i a b Ha Hb.
  - destruct i; discriminate.
  - destruct route as [|y route]; [destruct i; discriminate|].
    destruct i as [|i].
    + simpl in *. congruence.
    + apply (IH i a b Ha Hb).
Qed.

Lemma distance_nonneg_demo (p q : Pos) :
  (0 <= Demo.gridDistanceMeter p q / 1852)%Q.
Proof.
  unfold Demo.gridDistanceMeter.
  pose proof (Qabs_nonneg (lonX p - lonX q)).
  pose proof (Qabs_nonneg (latY p - latY q)).
  apply Qle_shift_div_l; [reflexivity|]. nra.
Qed.

Lemma running_neverSet : neverSet Demo.running.
Proof. intro k. reflexivity. Qed.

(** ** Properties of the leg builder and of the assembler *)

Section FetchTheorems.

Context {C : Collaborators}.

Local Open Scope Q_scope.

(** C7.  In the list of a run that is not cancelled every leg has as many
    distances as samples, its distances never decrease, and the first and
    the last terrain sample of its segment are the first and the last sample
    of the leg, whatever the thinning drops in between.  Distances between
    positions are taken to be non-negative, as great-circle distances are. *)
Theorem fetch_leg_invariants (terminate : Token) (route : list RouteMapObject)
        (i : nat) (leg : ElevationLeg) :
  (forall p q : Pos, 0 <= meterToNm (distanceMeterTo p q)) ->
  neverSet terminate ->
  nth_error (elevationLegs (fetchRouteElevationsThread terminate route)) i = Some leg ->
  length (elevation leg) = length (distances leg)
  /\ NonDecreasing (distances leg)
  /\ exists a b cFirst cLast,
       nth_error route i = Some a
       /\ nth_error route (S i) = Some b
       /\ hd_error (segmentSamples a b) = Some cFirst
       /\ lastError (segmentSamples a b) = Some cLast
       /\ hd_error (elevation leg) = Some (samplePos cFirst)
       /\ lastError (elevation leg) = Some (samplePos cLast).
Proof.
  intros Hdist Hrun Hleg.
  destruct (fetch_leg terminate route i leg Hrun Hleg)
    as [a [b [Ha [Hb [Hlen [Hhd [Hlast _]]]]]]].
  split; [exact Hlen|]. split.
  - pose proof (fetch_sorted terminate route Hdist Hrun) as Hall.
    rewrite Forall_forall in Hall. apply Hall.
    eapply nth_error_In, Hleg.
  - pose proof (segmentSamples_nonempty a b) as Hne.
    destruct (exists_last Hne) as [front [cLast Hsplit]].
    destruct (segmentSamples a b) as [|cFirst others] eqn:Eseg; [congruence|].
    exists a, b, cFirst, cLast. rewrite Eseg.
    split; [exact Ha|]. split; [exact Hb|]. split; [reflexivity|].
    assert (HlastSeg : lastError (cFirst :: others) = Some cLast).
    { rewrite Hsplit. apply lastError_snoc. }
    split; [exact HlastSeg|]. split; [exact Hhd|].
    rewrite Hlast, lastError_map, HlastSeg. reflexivity.
Qed.

(** C8.  The list of a run that is not cancelled has one leg per pair of
    consecutive waypoints, that is [length route - 1] legs (as integers for a
    route that is not empty; none for the empty route, which the claim counts
    among the degenerate ones); it keeps the snapshot of the route; its total distance is the sum of the distance deltas of its legs;
    its maximum elevation is the greatest [maxElevation] of its legs; and a
    route of no or one waypoint yields the empty list with zero totals. *)
Theorem fetch_totals (terminate : Token) (route : list RouteMapObject) :
  neverSet terminate ->
  let legs := fetchRouteElevationsThread terminate route in
  length (elevationLegs legs) = (length route - 1)%nat
  /\ (route <> [] ->
      Z.of_nat (length (elevationLegs legs)) = (Z.of_nat (length route) - 1)%Z)
  /\ routeMapObjects legs = route
  /\ totalDistance legs == sumDeltas (elevationLegs legs)
  /\ maxRouteElevation legs == maxOverLegs (elevationLegs legs)
  /\ (forall leg, In leg (elevationLegs legs) ->
                  maxElevation leg <= maxRouteElevation legs)
  /\ (elevationLegs legs <> [] ->
      exists leg, In leg (elevationLegs legs)
                  /\ maxElevation leg == maxRouteElevation legs)
  /\ ((length route <= 1)%nat ->
      elevationLegs legs = [] /\ totalDistance legs = 0
      /\ maxRouteElevation legs = 0 /\ totalNumPoints legs = 0%Z).
Proof.
  intros Hrun legs.
  destruct (fetch_spec terminate route Hrun) as [[Hchain Hsum Hmax Hnn] [Hrmo Hall]].
  fold legs in Hchain, Hsum, Hmax, Hnn, Hrmo, Hall.
  assert (Hnonneg : Forall (fun leg => 0 <= maxElevation leg) (elevationLegs legs)).
  { apply Forall_forall. intros leg Hin.
    destruct (In_nth_error _ _ Hin) as [i Hi].
    destruct (Forall2_nth_error _ _ _ Hall i leg Hi) as [p [_ Hof]].
    apply Hof. }
  destruct (maxOverLegs_greatest _ Hnonneg) as [Hub Hattained].
  assert (Hcount : length (elevationLegs legs) = (length route - 1)%nat).
  { rewrite <- (Forall2_length Hall). apply adjacent_length. }
  split; [exact Hcount|].
  split; [|split; [|split; [|split; [|split; [|split]]]]].
  - intro Hne. rewrite Hcount.
    destruct route as [|a rest]; [congruence | simpl length; lia].
  - exact Hrmo.
  - exact Hsum.
  - exact Hmax.
  - intros leg Hin. rewrite Hmax. apply Hub, Hin.
  - intro Hne. destruct (Hattained Hne) as [leg [Hin Heq]].
    exists leg. split; [exact Hin|]. rewrite Hmax. exact Heq.
  - intro Hshort. subst legs. unfold fetchRouteElevationsThread.
    destruct route as [|a [|b rest]]; simpl in *; try lia; repeat split.
Qed.

(** C9.  When the elevation model answers with no sample for a segment, the
    samples of the segment are the two end points of the leg at altitude
    zero, and the run builds the leg from exactly these two points. *)
Theorem fetch_empty_profile_fallback (terminate : Token) (route : list RouteMapObject)
        (i : nat) (a b : RouteMapObject) :
  neverSet terminate ->
  nth_error route i = Some a ->
  nth_error route (S i) = Some b ->
  heightProfile (lonX (position a)) (latY (position a))
                (lonX (position b)) (latY (position b)) = [] ->
  segmentSamples a b
  = [ mkCoord (lonX (position a)) (latY (position a)) 0;
      mkCoord (lonX (position b)) (latY (position b)) 0 ]
  /\ exists leg,
       nth_error (elevationLegs (fetchRouteElevationsThread terminate route)) i
       = Some leg
       /\ elevation leg
          = [ mkPos (lonX (position a)) (latY (position a)) (meterToFeet 0);
              mkPos (lonX (position b)) (latY (position b)) (meterToFeet 0) ]
       /\ length (distances leg) = 2%nat.
Proof.
  intros Hrun Ha Hb Hempty.
  assert (Hseg : segmentSamples a b
                 = [ mkCoord (lonX (position a)) (latY (position a)) 0;
                     mkCoord (lonX (position b)) (latY (position b)) 0 ]).
  { unfold segmentSamples. rewrite Hempty. reflexivity. }
  split; [exact Hseg|].
  destruct (fetch_spec terminate route Hrun) as [_ [_ Hall]].
  destruct (Forall2_nth_error_l _ _ _ Hall i (a, b) (nth_adjacent route i a b Ha Hb))
    as [leg [Hleg Hof]].
  exists leg. split; [exact Hleg|].
  destruct Hof as [Hlen [_ [_ [_ [_ [legs0 Hbuilt]]]]]].
  simpl in Hbuilt. rewrite Hseg in Hbuilt. simpl in Hbuilt.
  unfold sampleStep in Hbuilt.
  rewrite dropSample_first in Hbuilt.
  rewrite dropSample_last in Hbuilt by reflexivity.
  assert (Helev : elevation leg
                  = [ mkPos (lonX (position a)) (latY (position a)) (meterToFeet 0);
                      mkPos (lonX (position b)) (latY (position b)) (meterToFeet 0) ]).
  { rewrite Hbuilt. reflexivity. }
  split; [exact Helev|].
  rewrite <- Hlen, Helev. reflexivity.
Qed.

(** C10.  In the list of a run that is not cancelled the cumulative
    distances continue across the legs: the first leg starts at distance
    zero and every other leg starts at the last distance of the leg before
    it. *)
Theorem fetch_distances_continuous (terminate : Token) (route : list RouteMapObject) :
  neverSet terminate ->
  let legs := elevationLegs (fetchRouteElevationsThread terminate route) in
  (forall leg, nth_error legs 0 = Some leg -> hd_error (distances leg) = Some 0)
  /\ (forall i a b,
        nth_error legs i = Some a ->
        nth_error legs (S i) = Some b ->
        exists d, lastError (distances a) = Some d
                  /\ hd_error (distances b) = Some d).
Proof.
  intros Hrun legs.
  destruct (fetch_spec terminate route Hrun) as [[Hchain _ _ _] _].
  fold legs in Hchain.
  split.
  - intros leg Hleg. destruct legs as [|l rest]; [discriminate|].
    simpl in Hleg. injection Hleg as <-.
    inversion Hchain; assumption.
  - intros i a b Ha Hb.
    destruct (Chained_nth _ _ _ Hchain i a b Ha Hb) as [Hne Heq].
    destruct (exists_last Hne) as [front [d Hsplit]].
    exists d. rewrite Heq, Hsplit. split; apply lastError_snoc.
Qed.

End FetchTheorems.

Lemma fetch_leg_invariants_witness :
  neverSet Demo.running
  /\ length (elevation (nth 3 (elevationLegs (@fetchRouteElevationsThread
                                   Demo.hill Demo.running Demo.route5)) newLeg))
     = length (distances (nth 3 (elevationLegs (@fetchRouteElevationsThread
                                   Demo.hill Demo.running Demo.route5)) newLeg))
  /\ NonDecreasing
       (distances (nth 3 (elevationLegs (@fetchRouteElevationsThread
                                   Demo.hill Demo.running Demo.route5)) newLeg)).
Proof.
  assert (Hleg : nth_error (elevationLegs (@fetchRouteElevationsThread
                                   Demo.hill Demo.running Demo.route5)) 3
                 = Some (nth 3 (elevationLegs (@fetchRouteElevationsThread
                                   Demo.hill Demo.running Demo.route5)) newLeg))
    by (vm_compute; reflexivity).
  destruct (@fetch_leg_invariants Demo.hill Demo.running Demo.route5 3 _
              distance_nonneg_demo running_neverSet Hleg) as [Hlen [Hnd _]].
  split; [exact running_neverSet|]. split; [exact Hlen | exact Hnd].
Defined.

Lemma fetch_totals_witness :
  length (elevationLegs (@fetchRouteElevationsThread Demo.hill Demo.running Demo.route5))
  = 4%nat
  /\ (totalDistance (@fetchRouteElevationsThread Demo.hill Demo.running Demo.route5)
      == sumDeltas (elevationLegs (@fetchRouteElevationsThread
                                     Demo.hill Demo.running Demo.route5)))%Q
  /\ (maxRouteElevation (@fetchRouteElevationsThread Demo.hill Demo.running Demo.route5)
      == maxOverLegs (elevationLegs (@fetchRouteElevationsThread
                                       Demo.hill Demo.running Demo.route5)))%Q.
Proof.
  destruct (@fetch_totals Demo.hill Demo.running Demo.route5 running_neverSet)
    as [Hlen [_ [_ [Hsum [Hmax _]]]]].
  split; [exact Hlen|]. split; [exact Hsum | exact Hmax].
Defined.

Lemma fetch_empty_profile_fallback_witness :
  exists leg,
    nth_error (elevationLegs (@fetchRouteElevationsThread Demo.noTerrain Demo.running
                                                          Demo.route3)) 1
    = Some leg
    /\ elevation leg = [ mkPos 1 0 (0 * (3281 # 1000)); mkPos 2 0 (0 * (3281 # 1000)) ]
    /\ length (distances leg) = 2%nat.
Proof.
  apply (@fetch_empty_profile_fallback Demo.noTerrain Demo.running Demo.route3 1
           (Demo.wp "B" 1 0) (Demo.wp "C" 2 0) running_neverSet);
    reflexivity.
Defined.

Lemma fetch_distances_continuous_witness :
  exists d,
    lastError (distances (nth 2 (elevationLegs (@fetchRouteElevationsThread
                                   Demo.hill Demo.running Demo.route5)) newLeg))
    = Some d
    /\ hd_error (distances (nth 3 (elevationLegs (@fetchRouteElevationsThread
                                   Demo.hill Demo.running Demo.route5)) newLeg))
       = Some d.
Proof.
  destruct (@fetch_distances_continuous Demo.hill Demo.running Demo.route5
              running_neverSet) as [_ Hnext].
  apply (Hnext 2%nat); vm_compute; reflexivity.
Defined.

(** ** The thinning rule of the leg builder *)

(** C1 fails as stated.  With two legs accumulated, the sample halfway of
    the third leg meets the stated condition (not first, not last, two legs,
    6.562 ft above the last retained sample) and is retained; the run over
    the four waypoints keeps all three samples of the third leg. *)
Lemma thinning_two_legs_counterexample :
  @statedDropCondition Demo.hill 3 1 (mkCoord (5 # 2) 0 102) Demo.thirdLegHalfway
  /\ ~ @dropped Demo.hill 3 1 (mkCoord (5 # 2) 0 102) Demo.thirdLegHalfway
  /\ length (elevationLegs (stLegs Demo.thirdLegHalfway)) = 2%nat
  /\ option_map (fun leg => map altitude (elevation leg))
       (nth_error (elevationLegs
                     (@fetchRouteElevationsThread Demo.hill Demo.running Demo.route4)) 2)
     = Some [328.100; 334.662; 328.100]%Q.
Proof.
  split; [|split; [|split]].
  - unfold statedDropCondition.
    split; [discriminate|]. split; [discriminate|].
    split; [vm_compute; lia|]. vm_compute. reflexivity.
  - unfold dropped. intro H.
    assert (Hlen : length (elevation (stLeg (@sampleStep Demo.hill 3 1
                                     (mkCoord (5 # 2) 0 102) Demo.thirdLegHalfway)))
                   = length (elevation (stLeg Demo.thirdLegHalfway)))
      by (rewrite H; reflexivity).
    vm_compute in Hlen. discriminate Hlen.
  - vm_compute. reflexivity.
  - vm_compute. reflexivity.
Qed.

(** ** Cancellation *)

Section Cancellation.

Context {C : Collaborators}.

(** A poll of the sample loop that reads the flag as set ends the run with
    the empty list. *)
Lemma sampleLoop_cancelled (terminate : Token) (n : nat) (elev : list GeoDataCoordinates) :
  forall j st k,
    (exists m, (m < length elev)%nat /\ terminate (k + m)%nat = true) ->
    fst (sampleLoop terminate n j elev st k) = None.
Proof.
  induction elev as [|coord rest IH]; intros j st k [m [Hm Hset]]; simpl in *.
  - lia.
  - destruct (terminate k) eqn:Hk; [reflexivity|].
    apply IH. destruct m as [|m].
    + rewrite Nat.add_0_r in Hset. congruence.
    + exists m. split; [lia|]. rewrite <- Hset. f_equal. lia.
Qed.

Lemma legLoop_cancelled_in_samples (terminate : Token) (lastRmo rmo : RouteMapObject)
      (rest : list RouteMapObject) (legs : ElevationLegList) (k : nat) :
  terminate k = false ->
  (exists m, (m < length (segmentSamples lastRmo rmo))%nat
             /\ terminate (S k + m)%nat = true) ->
  legLoop terminate lastRmo (rmo :: rest) legs k = noResult.
Proof.
  intros Hk Hset. simpl. rewrite Hk.
  pose proof (sampleLoop_cancelled terminate
                (length (segmentSamples lastRmo rmo)) (segmentSamples lastRmo rmo)
                0 (mkSampleState newLeg legs defaultPos) (S k) Hset) as Hnone.
  destruct (sampleLoop _ _ _ _ _ _) as [[st|] k']; simpl in Hnone;
    [discriminate | reflexivity].
Qed.

(** A poll of the leg loop that reads the flag as set ends the run with the
    list as it stands, the legs built so far included. *)
Lemma legLoop_cancelled_before_leg (terminate : Token) (lastRmo rmo : RouteMapObject)
      (rest : list RouteMapObject) (legs : ElevationLegList) (k : nat) :
  terminate k = true ->
  legLoop terminate lastRmo (rmo :: rest) legs k = legs.
Proof.
  intro Hk. simpl. rewrite Hk. reflexivity.
Qed.

End Cancellation.

(** C2 at a failing input.  Three waypoints, no terrain data, the flag read
    as set by the fourth poll, the one before the second leg: the run
    returns the snapshot of the route with the first leg and its totals, not
    the empty list.  Read as set one poll earlier, inside the sample loop of
    the first leg, the flag does end the run with the empty list. *)
Theorem fetch_cancelled_between_legs_keeps_legs :
  let legs := @fetchRouteElevationsThread Demo.noTerrain (Demo.cancelledFrom 3)
                                          Demo.route3 in
  length (elevationLegs legs) = 1%nat
  /\ routeMapObjects legs = Demo.route3
  /\ totalNumPoints legs = 2%Z
  /\ (totalDistance legs == 60)%Q
  /\ legs <> noResult
  /\ @fetchRouteElevationsThread Demo.noTerrain (Demo.cancelledFrom 2) Demo.route3
     = noResult.
Proof.
  split; [|split; [|split; [|split; [|split]]]]; try (vm_compute; reflexivity).
  intro H. apply (f_equal (fun l => length (elevationLegs l))) in H.
  vm_compute in H. discriminate H.
Qed.

(** ** Facts on the screen projector *)

Lemma bind_Ok {A B : Type} (m : Outcome A) (f : A -> Outcome B) (b : B) :
  bind m f = Ok b -> exists a, m = Ok a /\ f a = Ok b.
Proof.
  destruct m as [a|]; simpl; intro H; [|discriminate].
  exists a. split; [reflexivity | exact H].
Qed.

Lemma at_Ok {A : Type} (l : list A) (i : nat) (a : A) :
  at_ l i = Ok a <-> nth_error l i = Some a.
Proof.
  unfold at_. destruct (nth_error l i); split; intro H;
    try discriminate; congruence.
Qed.

Lemma at_in_range {A : Type} (l : list A) (i : nat) :
  (i < length l)%nat -> exists a, at_ l i = Ok a.
Proof.
  intro Hi. unfold at_.
  destruct (nth_error l i) as [a|] eqn:E; [exists a; reflexivity|].
  apply nth_error_None in E. lia.
Qed.

Section ProjectorFacts.

Context {C : Collaborators}.

Variables (h : Z) (hScale vScale : Q).

Lemma polyLoop_app (leg : ElevationLeg) (pre post : list Pos) :
  forall i st,
    polyLoop h hScale vScale leg i (pre ++ post) st
    = bind (polyLoop h hScale vScale leg i pre st)
           (polyLoop h hScale vScale leg (i + length pre) post).
Proof.
  induction pre as [|pos pre IH]; intros i st; simpl.
  - rewrite Nat.add_0_r. reflexivity.
  - destruct (at_ (distances leg) i) as [dist|]; simpl; [|reflexivity].
    rewrite IH. replace (S i + length pre)%nat with (i + S (length pre))%nat by lia.
    reflexivity.
Qed.

Lemma polyLoop_in_range (leg : ElevationLeg) (elev : list Pos) :
  forall i st,
    (i + length elev <= length (distances leg))%nat ->
    exists st', polyLoop h hScale vScale leg i elev st = Ok st'.
Proof.
  induction elev as [|pos elev IH]; intros i st Hlen; simpl in *.
  - exists st. reflexivity.
  - destruct (at_in_range (distances leg) i) as [dist Hd]; [lia|].
    rewrite Hd. simpl. apply IH. lia.
Qed.

Lemma projectLegs_app (pre post : list ElevationLeg) :
  forall st,
    projectLegs h hScale vScale (pre ++ post) st
    = bind (projectLegs h hScale vScale pre st) (projectLegs h hScale vScale post).
Proof.
  induction pre as [|leg pre IH]; intro st; simpl.
  - reflexivity.
  - destruct (first (distances leg)) as [d0|]; simpl; [|reflexivity].
    destruct (polyLoop h hScale vScale leg 0 (elevation leg) (snd st, nullPoint))
      as [r|]; simpl; [|reflexivity].
    apply IH.
Qed.

Lemma projectLegs_in_range (legs : list ElevationLeg) :
  Forall SoundLeg legs ->
  forall st,
  exists r, projectLegs h hScale vScale legs st = Ok r
            /\ length (fst r) = (length (fst st) + length legs)%nat.
Proof.
  induction 1 as [|leg legs [Hlen Hne] Hall IH]; intro st; simpl.
  - exists st. split; [reflexivity | lia].
  - destruct (at_in_range (distances leg) 0) as [d0 Hd0].
    { rewrite <- Hlen. destruct (elevation leg); [congruence | simpl; lia]. }
    unfold first. rewrite Hd0. simpl.
    destruct (polyLoop_in_range leg (elevation leg) 0 (snd st, nullPoint)) as [r1 Hr1].
    { simpl. lia. }
    rewrite Hr1. simpl.
    destruct (IH (fst st ++ [(X0 + Num.toInt (d0 * hScale))%Z], fst r1)) as [r [Hr Hlenr]].
    exists r. split; [exact Hr|].
    rewrite Hlenr. simpl. rewrite length_app. simpl. lia.
Qed.

End ProjectorFacts.

(** ** Properties of the screen projector *)

Section ProjectorTheorems.

Context {C : Collaborators}.

Local Open Scope Q_scope.

Lemma fmax_greatest (a b : Q) : greatestOf [a; b] (Num.fmax a b).
Proof.
  split.
  - destruct (NumFacts.fmax_cases a b) as [E | E]; rewrite E; simpl; auto.
  - intros x [<- | [<- | []]];
      [apply NumFacts.fmax_ge_l | apply NumFacts.fmax_ge_r].
Qed.

Lemma fmax3_greatest (a b c : Q) :
  greatestOf [a; b; c] (Num.fmax (Num.fmax a b) c).
Proof.
  split.
  - destruct (NumFacts.fmax_cases (Num.fmax a b) c) as [E | E]; rewrite E.
    + destruct (NumFacts.fmax_cases a b) as [E' | E']; rewrite E'; simpl; auto.
    + simpl; auto.
  - pose proof (NumFacts.fmax_ge_l (Num.fmax a b) c).
    pose proof (NumFacts.fmax_ge_r (Num.fmax a b) c).
    pose proof (NumFacts.fmax_ge_l a b).
    pose proof (NumFacts.fmax_ge_r a b).
    intros x [<- | [<- | [<- | []]]]; lra.
Qed.

Lemma bufferedAltitude_bounds (elev : Q) :
  elev + 1000 <= bufferedAltitude elev /\ bufferedAltitude elev < elev + 1500.
Proof.
  unfold bufferedAltitude, Num.ceil.
  pose proof (Qle_ceiling ((elev + 1000) / 500)) as Hle.
  pose proof (Qceiling_lt ((elev + 1000) / 500)) as Hlt.
  unfold Z.sub in Hlt. rewrite inject_Z_plus in Hlt.
  change (inject_Z (- (1))) with (- (1))%Q in Hlt.
  set (c := inject_Z (Qceiling ((elev + 1000) / 500))) in *.
  assert (E : (elev + 1000) / 500 * 500 == elev + 1000) by (field).
  split.
  - rewrite <- E. apply Qmult_le_compat_r; [exact Hle | discriminate].
  - assert (H : (c + - (1)) * 500 < (elev + 1000) / 500 * 500).
    { apply Qmult_lt_compat_r; [reflexivity | exact Hlt]. }
    rewrite E in H. lra.
Qed.

End ProjectorTheorems.

Section AxisTheorem.

Context {C : Collaborators}.

Local Open Scope Q_scope.

(** C5, as the code has it.  The reference altitude is
    [ceil((maxRouteElevation + 1000) / 500) * 500].  The top of the altitude
    axis, by which the vertical scale divides the height, is the greatest of
    the reference, the cruise altitude of the flight plan and the altitude of
    the aircraft when the aircraft position is valid, the aircraft is shown
    and the flight plan is not empty; it is the greater of the reference and
    the cruise altitude otherwise.  With terrain at 0 ft, a cruise altitude
    of 10000 ft and no aircraft to account for, the reference is 1000 and
    the top is 10000. *)
Theorem axis_top_rule (wd : Widget) (legList : ElevationLegList) (ps : ProjectionState) :
  updateScreenCoords wd legList = Ok ps ->
  maxRouteElevationFt ps
  = Num.ceil ((maxRouteElevation legList + 1000) / 500) * 500
  /\ (maxRouteElevation legList + 1000 <= maxRouteElevationFt ps
      /\ maxRouteElevationFt ps < maxRouteElevation legList + 1500)
  /\ flightplanAltFt ps = Num.ofInt (cruisingAlt wd)
  /\ (if isValid (simPosition wd) && aircraftShown wd && negb (flightplanEmpty wd)
      then greatestOf [maxRouteElevationFt ps; Num.ofInt (cruisingAlt wd);
                       altitude (simPosition wd)] (maxHeight ps)
      else greatestOf [maxRouteElevationFt ps; Num.ofInt (cruisingAlt wd)]
                      (maxHeight ps))
  /\ vertScale ps = Num.ofInt (rectHeight wd - Y0) / maxHeight ps
  /\ (maxRouteElevation legList == 0 ->
      cruisingAlt wd = 10000%Z ->
      isValid (simPosition wd) && aircraftShown wd && negb (flightplanEmpty wd) = false ->
      maxRouteElevationFt ps == 1000 /\ maxHeight ps == 10000).
Proof.
  intro Hupd. unfold updateScreenCoords in Hupd.
  apply bind_Ok in Hupd. destruct Hupd as [r [_ Hps]].
  injection Hps as <-. simpl.
  split; [reflexivity|]. split; [apply bufferedAltitude_bounds|].
  split; [reflexivity|]. split; [|split; [reflexivity|]].
  - unfold axisTop.
    destruct (isValid (simPosition wd) && aircraftShown wd && negb (flightplanEmpty wd)).
    + apply fmax3_greatest.
    + apply fmax_greatest.
  - intros Hflat Hcruise Hno.
    assert (Href : bufferedAltitude (maxRouteElevation legList) == 1000).
    { unfold bufferedAltitude, Num.ceil.
      assert (E : (maxRouteElevation legList + 1000) / 500 == 2)
        by (rewrite Hflat; reflexivity).
      rewrite E. reflexivity. }
    split; [exact Href|].
    unfold axisTop. rewrite Hno, Hcruise.
    unfold Num.fmax, Num.ofInt. float_cases.
    + reflexivity.
    + rewrite Href in *. exfalso.
      apply (Qlt_not_le 1000 (inject_Z 10000)); [reflexivity | assumption].
Qed.

End AxisTheorem.

Lemma axis_top_rule_witness :
  exists ps,
    @updateScreenCoords Demo.noTerrain Demo.widget Demo.flatProfile = Ok ps
    /\ (maxRouteElevation Demo.flatProfile == 0)%Q
    /\ (maxRouteElevationFt ps == 1000)%Q
    /\ (maxHeight ps == 10000)%Q.
Proof.
  destruct (@updateScreenCoords Demo.noTerrain Demo.widget Demo.flatProfile)
    as [ps|] eqn:Hupd; [|vm_compute in Hupd; discriminate Hupd].
  exists ps. split; [reflexivity|].
  assert (Hflat : (maxRouteElevation Demo.flatProfile == 0)%Q) by reflexivity.
  split; [exact Hflat|].
  destruct (@axis_top_rule Demo.noTerrain Demo.widget Demo.flatProfile ps Hupd)
    as [_ [_ [_ [_ [_ Hexample]]]]].
  apply Hexample; [exact Hflat | reflexivity | reflexivity].
Defined.

(** C5 fails as stated.  The aircraft position is valid and the aircraft is
    shown at 20000 ft, but the flight plan is empty: the top of the axis is
    10000, the greater of the reference 1000 and the cruise altitude, and
    not the 20000 of the aircraft. *)
Lemma axis_top_empty_plan_counterexample :
  exists ps,
    @updateScreenCoords Demo.noTerrain Demo.widgetNoPlan
       (@fetchRouteElevationsThread Demo.noTerrain Demo.running []) = Ok ps
    /\ @isValid Demo.noTerrain (simPosition Demo.widgetNoPlan) = true
    /\ aircraftShown Demo.widgetNoPlan = true
    /\ (maxRouteElevationFt ps == 1000)%Q
    /\ (maxHeight ps == 10000)%Q
    /\ ~ (maxHeight ps
          == Num.fmax (Num.fmax (maxRouteElevationFt ps)
                                (Num.ofInt (cruisingAlt Demo.widgetNoPlan)))
                      (altitude (simPosition Demo.widgetNoPlan)))%Q.
Proof.
  eexists. split; [vm_compute; reflexivity|].
  split; [reflexivity|]. split; [reflexivity|].
  split; [reflexivity|]. split; [reflexivity|].
  vm_compute. discriminate.
Qed.

(** C3 fails as stated.  On the hill profile of three waypoints the first
    sample of the second leg falls on the pixel (365, 400), where the last
    sample of the first leg was appended just before.  It is not the first
    point overall, not the last of its three samples and zero pixels away
    from the last appended point, and it is appended: [lastPt] starts as the
    null point in every leg. *)
Lemma silhouette_second_leg_counterexample :
  exists ps polyStart d0 p0,
    @updateScreenCoords Demo.hill Demo.widget Demo.hillProfile = Ok ps
    /\ elevationLegs Demo.hillProfile = [Demo.hillLeg1; Demo.hillLeg2]
    /\ length (elevation Demo.hillLeg2) = 3%nat
    /\ nth_error (distances Demo.hillLeg2) 0 = Some d0
    /\ nth_error (elevation Demo.hillLeg2) 0 = Some p0
    /\ @projectLegs 400 (horizScale ps) (vertScale ps) [Demo.hillLeg1]
         ([], [mkPoint 65 414])
       = Ok ([65%Z], polyStart)
    /\ polyStart = [mkPoint 65 414; mkPoint 65 400; mkPoint 215 400; mkPoint 365 400]
    /\ projectPoint 400 (horizScale ps) (vertScale ps) d0 p0 = mkPoint 365 400
    /\ polyStep 3 0 (mkPoint 365 400) (polyStart, nullPoint)
       = (polyStart ++ [mkPoint 365 400], mkPoint 365 400)
    /\ ~ statedAppendCondition 1 0 3 polyStart (mkPoint 365 400)
    /\ poly ps
       = [mkPoint 65 414; mkPoint 65 400; mkPoint 215 400; mkPoint 365 400;
          mkPoint 365 400; mkPoint 515 400; mkPoint 665 400; mkPoint 665 414].
Proof.
  eexists. eexists. eexists. eexists.
  split; [vm_compute; reflexivity|].
  split; [vm_compute; reflexivity|].
  split; [vm_compute; reflexivity|].
  split; [vm_compute; reflexivity|].
  split; [vm_compute; reflexivity|].
  split; [vm_compute; reflexivity|].
  split; [reflexivity|].
  split; [vm_compute; reflexivity|].
  split; [vm_compute; reflexivity|].
  split; [|vm_compute; reflexivity].
  unfold statedAppendCondition. simpl.
  intros [[H _] | [H | H]]; try discriminate H.
Qed.

(** ** Facts on the interactive query *)

Lemma lower_bound_le {A : Type} (lt : A -> A -> bool) (l : list A) (v : A) :
  (lower_bound lt l v <= length l)%nat.
Proof.
  induction l as [|x l IH]; simpl; [lia|]. destruct (lt x v); simpl; lia.
Qed.

Lemma upper_bound_le {A : Type} (lt : A -> A -> bool) (l : list A) (v : A) :
  (upper_bound lt l v <= length l)%nat.
Proof.
  induction l as [|x l IH]; simpl; [lia|]. destruct (lt v x); simpl; lia.
Qed.

(** Every element before the lower bound is less than the value and the
    element at the lower bound is not. *)
Lemma lower_bound_spec {A : Type} (lt : A -> A -> bool) (l : list A) (v : A) :
  Forall (fun e => lt e v = true) (firstn (lower_bound lt l v) l)
  /\ forall e, nth_error l (lower_bound lt l v) = Some e -> lt e v = false.
Proof.
  induction l as [|x l [IH1 IH2]]; simpl.
  - split; [constructor | intros e H; discriminate].
  - destruct (lt x v) eqn:E; simpl.
    + split; [constructor; assumption | exact IH2].
    + split; [constructor | intros e H; congruence].
Qed.

(** No element before the upper bound is greater than the value and the
    element at the upper bound is. *)
Lemma upper_bound_spec {A : Type} (lt : A -> A -> bool) (l : list A) (v : A) :
  Forall (fun e => lt v e = false) (firstn (upper_bound lt l v) l)
  /\ forall e, nth_error l (upper_bound lt l v) = Some e -> lt v e = true.
Proof.
  induction l as [|x l [IH1 IH2]]; simpl.
  - split; [constructor | intros e H; discriminate].
  - destruct (lt v x) eqn:E; simpl.
    + split; [constructor | intros e H; congruence].
    + split; [constructor; assumption | exact IH2].
Qed.

Lemma clampX_idempotent (wd : Widget) (x : Z) :
  clampX wd (clampX wd x) = clampX wd x.
Proof. unfold clampX. lia. Qed.

Lemma legIndex_lt (wpx : list Z) (x : Z) (legs : nat) :
  length wpx = S legs -> (0 < legs)%nat -> (legIndex wpx x < legs)%nat.
Proof.
  intros Hlen Hpos. unfold legIndex.
  destruct (lower_bound Z.ltb wpx x <? length wpx)%nat eqn:E; [|exact Hpos].
  apply Nat.ltb_lt in E. lia.
Qed.

Lemma boundIndex_lt (it : nat) (dists : list Q) :
  dists <> [] -> (boundIndex it dists < length dists)%nat.
Proof.
  intro Hne. unfold boundIndex.
  destruct (it <? length dists)%nat eqn:E.
  - apply Nat.ltb_lt, E.
  - destruct dists; [congruence | simpl; lia].
Qed.

Section QueryFacts.

Context {C : Collaborators}.

Lemma fetch_sound (terminate : Token) (route : list RouteMapObject) :
  neverSet terminate ->
  Forall SoundLeg (elevationLegs (fetchRouteElevationsThread terminate route))
  /\ (elevationLegs (fetchRouteElevationsThread terminate route) <> [] ->
      length (routeMapObjects (fetchRouteElevationsThread terminate route))
      = S (length (elevationLegs (fetchRouteElevationsThread terminate route)))).
Proof.
  intro Hrun.
  destruct (fetch_spec terminate route Hrun) as [_ [Hrmo Hall]].
  split.
  - apply Forall_forall. intros leg Hin.
    destruct (In_nth_error _ _ Hin) as [i Hi].
    destruct (Forall2_nth_error _ _ _ Hall i leg Hi) as [p [_ Hof]].
    destruct Hof as [Hlen [_ [_ [Hne _]]]]. split; assumption.
  - intro Hne. rewrite Hrmo.
    pose proof (Forall2_length Hall) as Hlen.
    rewrite adjacent_length in Hlen.
    destruct (elevationLegs (fetchRouteElevationsThread terminate route));
      [congruence | simpl in *; lia].
Qed.

(** The projector walks an assembled profile without leaving a container. *)
Lemma updateScreenCoords_assembled (terminate : Token) (route : list RouteMapObject)
      (wd : Widget) :
  neverSet terminate ->
  exists ps,
    updateScreenCoords wd (fetchRouteElevationsThread terminate route) = Ok ps
    /\ Consistent (fetchRouteElevationsThread terminate route) ps.
Proof.
  intro Hrun.
  destruct (fetch_sound terminate route Hrun) as [Hsound Hroute].
  unfold updateScreenCoords.
  match goal with
  | |- context [projectLegs ?h ?hs ?vs ?legs ?st] =>
      destruct (projectLegs_in_range h hs vs legs Hsound st) as [r [Hr Hlen]]
  end.
  rewrite Hr. simpl. eexists. split; [reflexivity|].
  constructor; simpl; [exact Hsound | exact Hroute |].
  rewrite length_app, Hlen. simpl. lia.
Qed.

(** On a consistent profile with legs the query answers every pixel. *)
Lemma mouseMoveEvent_answers (wd : Widget) (legList : ElevationLegList)
      (ps : ProjectionState) (mouseX : Z) :
  Consistent legList ps ->
  elevationLegs legList <> [] ->
  exists info, mouseMoveEvent wd legList ps mouseX = Ok (Some info).
Proof.
  intros [Hsound Hroute Hwpx] Hne.
  specialize (Hroute Hne).
  unfold mouseMoveEvent.
  destruct (elevationLegs legList) as [|leg0 legs0] eqn:Elegs; [congruence|].
  rewrite <- Elegs in *. cbv zeta.
  set (index := legIndex (waypointX ps) (clampX wd mouseX)).
  assert (Hindex : (index < length (elevationLegs legList))%nat).
  { apply legIndex_lt; [exact Hwpx|]. rewrite Elegs. simpl. lia. }
  destruct (at_in_range (elevationLegs legList) index Hindex) as [leg Hleg].
  rewrite Hleg. cbn [bind].
  destruct (at_in_range (routeMapObjects legList) index) as [from Hfrom]; [lia|].
  rewrite Hfrom. cbn [bind].
  destruct (at_in_range (routeMapObjects legList) (index + 1)) as [to Hto]; [lia|].
  rewrite Hto. cbn [bind].
  assert (Hin : In leg (elevationLegs legList)).
  { apply at_Ok in Hleg. eapply nth_error_In, Hleg. }
  rewrite Forall_forall in Hsound. destruct (Hsound leg Hin) as [Hlen Hel].
  assert (Hd : distances leg <> []).
  { intro Habs. rewrite Habs in Hlen. destruct (elevation leg); [congruence | discriminate]. }
  match goal with
  | |- context [at_ (elevation leg) (boundIndex ?it (distances leg))] =>
      destruct (at_in_range (elevation leg) (boundIndex it (distances leg)))
        as [p1 Hp1]; [rewrite Hlen; apply boundIndex_lt, Hd|]; rewrite Hp1; cbn [bind]
  end.
  match goal with
  | |- context [at_ (elevation leg) (boundIndex ?it (distances leg))] =>
      destruct (at_in_range (elevation leg) (boundIndex it (distances leg)))
        as [p2 Hp2]; [rewrite Hlen; apply boundIndex_lt, Hd|]; rewrite Hp2; cbn [bind]
  end.
  assert (Hposd : (0 < length (distances leg))%nat).
  { destruct (distances leg); [congruence | simpl; lia]. }
  unfold first, last_.
  destruct (at_in_range (distances leg) 0) as [d0 Hd0]; [lia|].
  rewrite Hd0. cbn [bind].
  destruct (at_in_range (distances leg) (length (distances leg) - 1)) as [d1 Hd1]; [lia|].
  rewrite Hd1. cbn [bind].
  destruct (at_in_range (elevation leg) 0) as [e0 He0]; [lia|].
  rewrite He0. cbn [bind].
  destruct (at_in_range (elevation leg) (length (elevation leg) - 1)) as [e1 He1]; [lia|].
  rewrite He1. cbn [bind].
  eexists. reflexivity.
Qed.

End QueryFacts.

(** ** Properties of the interactive query *)

Section QueryTheorems.

Context {C : Collaborators}.

Local Open Scope Q_scope.

(** C6, as the code has it.  A query against a profile without legs is not
    answered.  A pixel outside the drawable area is not refused: it is
    clamped to the range from [X0] to [width - X0] and answered like the
    clamped pixel.  On the profile of a run that is not cancelled, projected
    for the widget, the projector and the query index no container out of
    range, and the query answers every pixel when the profile has legs. *)
Theorem query_refusal_and_bounds (terminate : Token) (route : list RouteMapObject)
        (wd : Widget) (mouseX : Z) :
  neverSet terminate ->
  (forall legList ps x,
      elevationLegs legList = [] -> mouseMoveEvent wd legList ps x = Ok None)
  /\ (forall legList ps x,
         mouseMoveEvent wd legList ps x = mouseMoveEvent wd legList ps (clampX wd x))
  /\ exists ps,
       updateScreenCoords wd (fetchRouteElevationsThread terminate route) = Ok ps
       /\ mouseMoveEvent wd (fetchRouteElevationsThread terminate route) ps mouseX
          <> OutOfRange
       /\ (elevationLegs (fetchRouteElevationsThread terminate route) <> [] ->
           exists info,
             mouseMoveEvent wd (fetchRouteElevationsThread terminate route) ps mouseX
             = Ok (Some info)).
Proof.
  intro Hrun. split; [|split].
  - intros legList ps x Hempty. unfold mouseMoveEvent. rewrite Hempty. reflexivity.
  - intros legList ps x. unfold mouseMoveEvent.
    rewrite clampX_idempotent. reflexivity.
  - destruct (updateScreenCoords_assembled terminate route wd Hrun) as [ps [Hps Hcons]].
    exists ps. split; [exact Hps|].
    assert (Hans : elevationLegs (fetchRouteElevationsThread terminate route) <> [] ->
                   exists info,
                     mouseMoveEvent wd (fetchRouteElevationsThread terminate route)
                                    ps mouseX = Ok (Some info)).
    { intro Hne. apply mouseMoveEvent_answers; assumption. }
    split; [|exact Hans].
    destruct (elevationLegs (fetchRouteElevationsThread terminate route)) eqn:Elegs.
    + unfold mouseMoveEvent. rewrite Elegs. discriminate.
    + destruct Hans as [info Hinfo]; [discriminate|]. rewrite Hinfo. discriminate.
Qed.

End QueryTheorems.

(** C4 at a failing input.  On the slope profile the pixel 665, the right
    edge of the drawable area, asks for the distance 120 nm in the second
    leg, whose samples lie at 328.1, 492.15 and 656.2 ft.  The lower bound is
    the last sample, at 120 nm and 656.2 ft; the upper bound is the end of the
    distances, index 3, where the leg has no sample.  The index of the upper
    sample is left at 0 and the code reports 492.15 ft, the average of the
    last sample with the first sample of the leg, 60 nm away. *)
Theorem ground_altitude_at_right_edge :
  exists ps info leg pFirst pLast,
    @projectionOf Demo.slope Demo.widget Demo.slopeProfile = Some ps
    /\ @mouseMoveEvent Demo.slope Demo.widget Demo.slopeProfile ps 665 = Ok (Some info)
    /\ nth_error (elevationLegs Demo.slopeProfile) 1 = Some leg
    /\ legIndex (waypointX ps) (clampX Demo.widget 665) = 1%nat
    /\ (infoDistance info == 120)%Q
    /\ lower_bound Num.ltb (distances leg) (infoDistance info) = 2%nat
    /\ upper_bound Num.ltb (distances leg) (infoDistance info) = 3%nat
    /\ nth_error (elevation leg) 3 = None
    /\ nth_error (elevation leg) 0 = Some pFirst
    /\ nth_error (elevation leg) 2 = Some pLast
    /\ (altitude pFirst == 3281 # 10)%Q
    /\ (altitude pLast == 3281 # 5)%Q
    /\ (infoGroundAlt info == 9843 # 20)%Q
    /\ (infoGroundAlt info == (altitude pLast + altitude pFirst) / 2)%Q
    /\ ~ statedGroundAltitude leg (infoDistance info) (infoGroundAlt info).
Proof.
  eexists. eexists. eexists. eexists. eexists.
  split; [vm_compute; reflexivity|].
  split; [vm_compute; reflexivity|].
  split; [vm_compute; reflexivity|].
  split; [vm_compute; reflexivity|].
  split; [vm_compute; reflexivity|].
  split; [vm_compute; reflexivity|].
  split; [vm_compute; reflexivity|].
  split; [vm_compute; reflexivity|].
  split; [vm_compute; reflexivity|].
  split; [vm_compute; reflexivity|].
  split; [vm_compute; reflexivity|].
  split; [vm_compute; reflexivity|].
  split; [vm_compute; reflexivity|].
  split; [vm_compute; reflexivity|].
  intros [p1 [p2 [_ [Hup _]]]].
  vm_compute in Hup. discriminate Hup.
Qed.

(** C6 fails as stated.  The pixel 0 lies left of the drawable area, which
    starts at [X0]; on the slope profile the query does not refuse it but
    answers for the clamped pixel, the start of the leg from A to B. *)
Lemma query_outside_area_counterexample :
  (0 < X0)%Z
  /\ clampX Demo.widget 0 = X0
  /\ exists ps info,
       @projectionOf Demo.slope Demo.widget Demo.slopeProfile = Some ps
       /\ @mouseMoveEvent Demo.slope Demo.widget Demo.slopeProfile ps 0 = Ok (Some info)
       /\ infoFrom info = "A"%string
       /\ infoTo info = "B"%string
       /\ (infoDistance info == 0)%Q.
Proof.
  split; [reflexivity|]. split; [reflexivity|].
  eexists. eexists.
  split; [vm_compute; reflexivity|].
  split; [vm_compute; reflexivity|].
  split; [reflexivity|]. split; reflexivity.
Qed.

Lemma query_refusal_and_bounds_witness :
  exists ps,
    @updateScreenCoords Demo.slope Demo.widget
       (@fetchRouteElevationsThread Demo.slope Demo.running Demo.route3) = Ok ps
    /\ @mouseMoveEvent Demo.slope Demo.widget
         (@fetchRouteElevationsThread Demo.slope Demo.running Demo.route3) ps 0
       <> OutOfRange.
Proof.
  destruct (@query_refusal_and_bounds Demo.slope Demo.running Demo.route3 Demo.widget 0
              running_neverSet) as [_ [_ [ps [Hps [Hq _]]]]].
  exists ps. split; [exact Hps | exact Hq].
Defined.

(** * Further properties *)

(** ** Lists *)

Lemma AdjacentPairs_snoc {A : Type} (R : A -> A -> Prop) (l : list A) (x : A) :
  AdjacentPairs R l ->
  (l = [] \/ exists p, lastError l = Some p /\ R p x) ->
  AdjacentPairs R (l ++ [x]).
Proof.
  induction 1 as [| y | y z l Hyz Hrest IH]; intro Hlast; simpl.
  - constructor.
  - destruct Hlast as [Habs | [p [Hp Hr]]]; [discriminate|].
    unfold lastError in Hp. simpl in Hp. injection Hp as <-.
    constructor; [exact Hr | constructor].
  - constructor; [exact Hyz|]. apply IH. right.
    destruct Hlast as [Habs | [p [Hp Hr]]]; [discriminate|].
    exists p. split; [|exact Hr].
    change (y :: z :: l) with ([y] ++ z :: l) in Hp.
    rewrite lastError_app in Hp by discriminate. exact Hp.
Qed.

Lemma AdjacentPairs_nth {A : Type} (R : A -> A -> Prop) (l : list A) :
  AdjacentPairs R l ->
  forall k p q, nth_error l k = Some p -> nth_error l (S k) = Some q -> R p q.
Proof.
  induction 1 as [| y | y z l Hyz Hrest IH]; intros k p q Hp Hq.
  - destruct k; discriminate.
  - destruct k as [|k]; simpl in Hq; [discriminate | destruct k; discriminate].
  - destruct k as [|k]; simpl in Hp, Hq.
    + congruence.
    + eapply IH; eassumption.
Qed.

Lemma AdjacentPairs_app_l {A : Type} (R : A -> A -> Prop) (l k : list A) :
  AdjacentPairs R (l ++ k) -> AdjacentPairs R l.
Proof.
  induction l as [|x l IH]; intro H; [constructor|].
  destruct l as [|y l]; [constructor|].
  simpl in H. inversion H; subst. constructor; [assumption|].
  apply IH. assumption.
Qed.

Lemma NonDecreasing_AdjacentPairs (l : list Q) :
  NonDecreasing l <-> AdjacentPairs Qle l.
Proof.
  split; induction 1; constructor; assumption.
Qed.

Lemma Subsequence_refl {A : Type} (l : list A) : Subsequence l l.
Proof. induction l; constructor; assumption. Qed.

Lemma Subsequence_app {A : Type} (k1 l1 k2 l2 : list A) :
  Subsequence k1 l1 -> Subsequence k2 l2 -> Subsequence (k1 ++ k2) (l1 ++ l2).
Proof.
  induction 1; intro H2; simpl; [exact H2 | constructor; auto | constructor; auto].
Qed.

Lemma Subsequence_length {A : Type} (kept l : list A) :
  Subsequence kept l -> (length kept <= length l)%nat.
Proof. induction 1; simpl; lia. Qed.

Lemma Subsequence_In {A : Type} (kept l : list A) :
  Subsequence kept l -> forall x, In x kept -> In x l.
Proof.
  induction 1; intros y Hy; simpl in *; [contradiction | | right; auto].
  destruct Hy as [<- | Hy]; [left; reflexivity | right; auto].
Qed.

Lemma countPoints_snoc (legs : list ElevationLeg) (leg : ElevationLeg) :
  countPoints (legs ++ [leg])
  = (countPoints legs + Z.of_nat (length (elevation leg)))%Z.
Proof. unfold countPoints. rewrite fold_left_app. reflexivity. Qed.

(** ** More on the loops of the leg builder *)

Section FetchMore.

Context {C : Collaborators}.

Local Open Scope Q_scope.

Lemma sampleFold_app (n : nat) (l1 l2 : list GeoDataCoordinates) :
  forall j st,
    sampleFold n j (l1 ++ l2) st
    = sampleFold n (j + length l1) l2 (sampleFold n j l1 st).
Proof.
  induction l1 as [|c l1 IH]; intros j st; simpl.
  - rewrite Nat.add_0_r. reflexivity.
  - rewrite IH. f_equal. lia.
Qed.

Lemma sampleStep_legs (n j : nat) (coord : GeoDataCoordinates) (st : SampleState) :
  elevationLegs (stLegs (sampleStep n j coord st)) = elevationLegs (stLegs st)
  /\ routeMapObjects (stLegs (sampleStep n j coord st)) = routeMapObjects (stLegs st).
Proof.
  unfold sampleStep. destruct (dropSample _ _ _ _); split; reflexivity.
Qed.

Lemma sampleFold_legs (n : nat) (elev : list GeoDataCoordinates) :
  forall j st,
    elevationLegs (stLegs (sampleFold n j elev st)) = elevationLegs (stLegs st)
    /\ routeMapObjects (stLegs (sampleFold n j elev st)) = routeMapObjects (stLegs st).
Proof.
  induction elev as [|c elev IH]; intros j st; simpl; [split; reflexivity|].
  destruct (IH (S j) (sampleStep n j c st)) as [H1 H2].
  destruct (sampleStep_legs n j c st) as [H3 H4].
  split; congruence.
Qed.

Lemma buildLeg_legs (legs : ElevationLegList) (a b : RouteMapObject) :
  elevationLegs (buildLeg legs a b)
  = elevationLegs legs
    ++ [stLeg (sampleFold (length (segmentSamples a b)) 0 (segmentSamples a b)
                          (mkSampleState newLeg legs defaultPos))]
  /\ routeMapObjects (buildLeg legs a b) = routeMapObjects legs.
Proof.
  unfold buildLeg. simpl.
  destruct (sampleFold_legs (length (segmentSamples a b)) (segmentSamples a b) 0
              (mkSampleState newLeg legs defaultPos)) as [H1 H2].
  simpl in H1, H2. rewrite H1, H2. split; reflexivity.
Qed.

Lemma legFold_extends (rest : list RouteMapObject) :
  forall a legs,
    routeMapObjects (legFold a rest legs) = routeMapObjects legs
    /\ exists news,
         elevationLegs (legFold a rest legs) = elevationLegs legs ++ news
         /\ length news = length rest.
Proof.
  induction rest as [|rmo rest IH]; intros a legs; simpl.
  - split; [reflexivity|]. exists []. rewrite app_nil_r. split; reflexivity.
  - destruct (IH rmo (buildLeg legs a rmo)) as [Hr [news [Hn Hlen]]].
    destruct (buildLeg_legs legs a rmo) as [Hb Hbr].
    split; [congruence|].
    eexists. rewrite Hn, Hb, <- app_assoc. split; [reflexivity|].
    simpl. rewrite Hlen. reflexivity.
Qed.

(** A property of the list that building a leg keeps is kept by the run. *)
Lemma legFold_invariant (P : ElevationLegList -> Prop) :
  (forall legs a b, P legs -> P (buildLeg legs a b)) ->
  forall rest a legs, P legs -> P (legFold a rest legs).
Proof.
  intros Hstep. induction rest as [|rmo rest IH]; intros a legs Hlegs; simpl.
  - exact Hlegs.
  - apply IH, Hstep, Hlegs.
Qed.

(** How the leg at a given place of the list was built. *)
Lemma legFold_built (rest : list RouteMapObject) :
  forall a legs i leg,
    nth_error (elevationLegs (legFold a rest legs)) (length (elevationLegs legs) + i)
    = Some leg ->
    exists lastRmo rmo legs0,
      nth_error (a :: rest) i = Some lastRmo
      /\ nth_error rest i = Some rmo
      /\ length (elevationLegs legs0) = (length (elevationLegs legs) + i)%nat
      /\ leg = stLeg (sampleFold (length (segmentSamples lastRmo rmo)) 0
                                 (segmentSamples lastRmo rmo)
                                 (mkSampleState newLeg legs0 defaultPos)).
Proof.
  induction rest as [|rmo rest IH]; intros a legs i leg Hleg.
  - simpl in Hleg.
    assert (Hnone : nth_error (elevationLegs legs) (length (elevationLegs legs) + i)
                    = None) by (apply nth_error_None; lia).
    congruence.
  - simpl in Hleg.
    destruct (buildLeg_legs legs a rmo) as [Hb _].
    destruct (legFold_extends rest rmo (buildLeg legs a rmo)) as [_ [news [Hn _]]].
    destruct i as [|i].
    + rewrite Hn, Hb, Nat.add_0_r in Hleg.
      rewrite <- app_assoc in Hleg.
      rewrite nth_error_app2 in Hleg by lia.
      rewrite Nat.sub_diag in Hleg. simpl in Hleg. injection Hleg as <-.
      exists a, rmo, legs. rewrite Nat.add_0_r. repeat split; reflexivity.
    + assert (Hidx : (length (elevationLegs legs) + S i
                      = length (elevationLegs (buildLeg legs a rmo)) + i)%nat).
      { rewrite Hb, length_app. simpl. lia. }
      rewrite Hidx in Hleg.
      destruct (IH rmo _ i leg Hleg) as [lastRmo [rmo' [legs0 [H1 [H2 [H3 H4]]]]]].
      exists lastRmo, rmo', legs0.
      split; [exact H1|]. split; [exact H2|]. split; [lia | exact H4].
Qed.

Lemma fetch_leg_built (terminate : Token) (route : list RouteMapObject) (i : nat)
      (leg : ElevationLeg) :
  neverSet terminate ->
  nth_error (elevationLegs (fetchRouteElevationsThread terminate route)) i = Some leg ->
  exists a b legs0,
    nth_error route i = Some a
    /\ nth_error route (S i) = Some b
    /\ length (elevationLegs legs0) = i
    /\ leg = stLeg (sampleFold (length (segmentSamples a b)) 0 (segmentSamples a b)
                               (mkSampleState newLeg legs0 defaultPos)).
Proof.
  intros Hrun Hleg. unfold fetchRouteElevationsThread in Hleg.
  destruct route as [|first rest]; [destruct i; discriminate|].
  rewrite legLoop_neverSet in Hleg by exact Hrun.
  destruct (legFold_built rest first _ i leg Hleg) as [a [b [legs0 [H1 [H2 [H3 H4]]]]]].
  exists a, b, legs0. simpl in H3. repeat split; assumption.
Qed.

(** The sample loop, when it runs to its end, is the loop without polls. *)
Lemma sampleLoop_Some (terminate : Token) (n : nat) (elev : list GeoDataCoordinates) :
  forall j st k st' k',
    sampleLoop terminate n j elev st k = (Some st', k') ->
    st' = sampleFold n j elev st.
Proof.
  induction elev as [|c elev IH]; intros j st k st' k' Hrun; simpl in *.
  - congruence.
  - destruct (terminate k); [discriminate|]. eapply IH, Hrun.
Qed.

(** Whatever the polls read, the leg loop ends with the empty list or with
    the list of a run without polls over some first waypoints. *)
Lemma legLoop_any (terminate : Token) (rest : list RouteMapObject) :
  forall lastRmo legs k,
    legLoop terminate lastRmo rest legs k = noResult
    \/ exists m, (m <= length rest)%nat
                 /\ legLoop terminate lastRmo rest legs k
                    = legFold lastRmo (firstn m rest) legs.
Proof.
  induction rest as [|rmo rest IH]; intros lastRmo legs k; simpl.
  - right. exists 0%nat. split; [lia | reflexivity].
  - destruct (terminate k).
    + right. exists 0%nat. split; [lia | reflexivity].
    + destruct (sampleLoop terminate _ 0 _ _ (S k)) as [[st|] k'] eqn:Hloop.
      * apply sampleLoop_Some in Hloop. subst st.
        change (appendLeg _ _) with (buildLeg legs lastRmo rmo).
        destruct (IH rmo (buildLeg legs lastRmo rmo) k') as [Hno | [m [Hm Heq]]].
        -- left. exact Hno.
        -- right. exists (S m). split; [lia|]. simpl. exact Heq.
      * left. reflexivity.
Qed.

Lemma sampleStep_same (n j : nat) (coord : GeoDataCoordinates) (st1 st2 : SampleState) :
  stLeg st1 = stLeg st2 ->
  stLastPos st1 = stLastPos st2 ->
  sameProfile (stLegs st1) (stLegs st2) ->
  stLeg (sampleStep n j coord st1) = stLeg (sampleStep n j coord st2)
  /\ stLastPos (sampleStep n j coord st1) = stLastPos (sampleStep n j coord st2)
  /\ sameProfile (stLegs (sampleStep n j coord st1)) (stLegs (sampleStep n j coord st2)).
Proof.
  intros Hleg Hpos [Hlegs [Hmax [Htot Hpts]]].
  unfold sampleStep, dropSample. rewrite Hpos, Hlegs.
  destruct (_ && _ && _ && _ && _).
  - repeat split; assumption.
  - unfold retainSample, sameProfile. simpl.
    rewrite Hleg, Hpos, Hlegs, Hmax, Htot, Hpts. repeat split.
Qed.

Lemma sampleFold_same (n : nat) (elev : list GeoDataCoordinates) :
  forall j st1 st2,
    stLeg st1 = stLeg st2 ->
    stLastPos st1 = stLastPos st2 ->
    sameProfile (stLegs st1) (stLegs st2) ->
    stLeg (sampleFold n j elev st1) = stLeg (sampleFold n j elev st2)
    /\ sameProfile (stLegs (sampleFold n j elev st1)) (stLegs (sampleFold n j elev st2)).
Proof.
  induction elev as [|c elev IH]; intros j st1 st2 Hleg Hpos Hsame; simpl.
  - split; assumption.
  - destruct (sampleStep_same n j c st1 st2 Hleg Hpos Hsame) as [H1 [H2 H3]].
    apply IH; assumption.
Qed.

Lemma legFold_same (rest : list RouteMapObject) :
  forall a legs1 legs2,
    sameProfile legs1 legs2 ->
    sameProfile (legFold a rest legs1) (legFold a rest legs2).
Proof.
  induction rest as [|rmo rest IH]; intros a legs1 legs2 Hsame; simpl.
  - exact Hsame.
  - apply IH. unfold buildLeg.
    destruct (sampleFold_same (length (segmentSamples a rmo)) (segmentSamples a rmo) 0
                (mkSampleState newLeg legs1 defaultPos)
                (mkSampleState newLeg legs2 defaultPos)
                eq_refl eq_refl Hsame) as [Hleg [H1 [H2 [H3 H4]]]].
    unfold sameProfile. simpl. rewrite Hleg, H1, H2, H3, H4. repeat split.
Qed.

End FetchMore.

(** ** Runs that are cancelled, and the count of points *)

Lemma sameProfile_withRoute (a b : ElevationLegList) (route : list RouteMapObject) :
  sameProfile a b -> routeMapObjects a = route -> a = withRoute route b.
Proof.
  intros [H1 [H2 [H3 H4]]] Hr. destruct a, b. unfold withRoute. simpl in *.
  congruence.
Qed.

Section FetchAnyToken.

Context {C : Collaborators}.

Local Open Scope Q_scope.

(** X1.  Whatever the polls of the cancellation flag read, the run returns
    either the empty list or, with the snapshot of the whole route, the legs
    and the totals that a run without cancellation builds for the first
    [m + 1] waypoints of the route, for some [m] below the number of
    waypoints. *)
Theorem fetch_result_of_any_run (terminate : Token) (route : list RouteMapObject) :
  fetchRouteElevationsThread terminate route = noResult
  \/ exists m,
       (m <= length route - 1)%nat
       /\ fetchRouteElevationsThread terminate route
          = withRoute route
              (fetchRouteElevationsThread (fun _ => false) (firstn (S m) route)).
Proof.
  destruct route as [|first rest].
  - right. exists 0%nat. split; [simpl; lia | reflexivity].
  - unfold fetchRouteElevationsThread at 1 2.
    destruct (legLoop_any terminate rest first (startList (first :: rest)) 0)
      as [Hno | [m [Hm Heq]]].
    + left. exact Hno.
    + right. exists m. split; [simpl; lia|].
      change (legLoop terminate first rest (startList (first :: rest)) 0
              = withRoute (first :: rest)
                  (fetchRouteElevationsThread (fun _ => false)
                                              (first :: firstn m rest))).
      rewrite Heq. unfold fetchRouteElevationsThread.
      rewrite legLoop_neverSet by (intro k; reflexivity).
      apply sameProfile_withRoute.
      * apply legFold_same. unfold sameProfile. simpl. repeat split.
      * apply legFold_extends.
Qed.

Lemma sampleFold_points (n : nat) (elev : list GeoDataCoordinates) :
  forall j st,
    (totalNumPoints (stLegs (sampleFold n j elev st))
     - Z.of_nat (length (elevation (stLeg (sampleFold n j elev st))))
     = totalNumPoints (stLegs st) - Z.of_nat (length (elevation (stLeg st))))%Z.
Proof.
  induction elev as [|c elev IH]; intros j st; simpl; [reflexivity|].
  rewrite IH. unfold sampleStep.
  destruct (dropSample _ _ _ _); [reflexivity|].
  simpl. rewrite length_app. simpl. lia.
Qed.

(** X2.  In the list of a run that is not cancelled, [totalNumPoints] is the
    number of samples that the legs hold. *)
Theorem fetch_counts_points (terminate : Token) (route : list RouteMapObject) :
  neverSet terminate ->
  totalNumPoints (fetchRouteElevationsThread terminate route)
  = countPoints (elevationLegs (fetchRouteElevationsThread terminate route)).
Proof.
  intro Hrun. unfold fetchRouteElevationsThread.
  destruct route as [|first rest]; [reflexivity|].
  rewrite legLoop_neverSet by exact Hrun.
  apply (legFold_invariant
           (fun legs => totalNumPoints legs = countPoints (elevationLegs legs)));
    [|reflexivity].
  intros legs a b Hlegs.
  destruct (buildLeg_legs legs a b) as [Hb _]. rewrite Hb, countPoints_snoc.
  unfold buildLeg. simpl.
  pose proof (sampleFold_points (length (segmentSamples a b)) (segmentSamples a b) 0
                (mkSampleState newLeg legs defaultPos)) as Hp.
  simpl in Hp. lia.
Qed.

End FetchAnyToken.

Lemma fetch_counts_points_witness :
  totalNumPoints (@fetchRouteElevationsThread Demo.hill Demo.running Demo.route5) = 11%Z
  /\ countPoints (elevationLegs
                    (@fetchRouteElevationsThread Demo.hill Demo.running Demo.route5))
     = 11%Z.
Proof.
  pose proof (@fetch_counts_points Demo.hill Demo.running Demo.route5 running_neverSet)
    as H.
  split; [vm_compute; reflexivity|]. rewrite <- H. vm_compute. reflexivity.
Defined.

(** ** What the thinning keeps *)

Section Kept.

Context {C : Collaborators}.

Local Open Scope Q_scope.

Lemma sampleFold_unthinned (n : nat) (elev : list GeoDataCoordinates) :
  forall j st,
    (length (elevationLegs (stLegs st)) <= 2)%nat ->
    elevation (stLeg (sampleFold n j elev st))
    = elevation (stLeg st) ++ map samplePos elev.
Proof.
  induction elev as [|c elev IH]; intros j st Hfew; simpl.
  - rewrite app_nil_r. reflexivity.
  - assert (Hkeep : sampleStep n j c st = retainSample st j (samplePos c)).
    { unfold sampleStep, dropSample.
      replace (2 <? length (elevationLegs (stLegs st)))%nat with false
        by (symmetry; apply Nat.ltb_ge; exact Hfew).
      rewrite andb_false_r. reflexivity. }
    rewrite IH by (rewrite Hkeep; exact Hfew).
    rewrite Hkeep. simpl. rewrite <- app_assoc. reflexivity.
Qed.

(** X3.  The thinning leaves the first three legs of a route alone: in the
    list of a run that is not cancelled each of them holds every terrain
    sample of its segment. *)
Theorem fetch_first_legs_unthinned (terminate : Token) (route : list RouteMapObject)
        (i : nat) (leg : ElevationLeg) :
  neverSet terminate ->
  (i <= 2)%nat ->
  nth_error (elevationLegs (fetchRouteElevationsThread terminate route)) i = Some leg ->
  exists a b,
    nth_error route i = Some a
    /\ nth_error route (S i) = Some b
    /\ elevation leg = map samplePos (segmentSamples a b).
Proof.
  intros Hrun Hi Hleg.
  destruct (fetch_leg_built terminate route i leg Hrun Hleg)
    as [a [b [legs0 [Ha [Hb [Hlen Hbuilt]]]]]].
  exists a, b. split; [exact Ha|]. split; [exact Hb|].
  rewrite Hbuilt. rewrite sampleFold_unthinned; [reflexivity|].
  simpl. lia.
Qed.

Lemma sampleFold_subsequence (n : nat) (elev : list GeoDataCoordinates) :
  forall j st,
  exists kept,
    elevation (stLeg (sampleFold n j elev st)) = elevation (stLeg st) ++ kept
    /\ Subsequence kept (map samplePos elev).
Proof.
  induction elev as [|c elev IH]; intros j st; simpl.
  - exists []. rewrite app_nil_r. split; [reflexivity | constructor].
  - destruct (IH (S j) (sampleStep n j c st)) as [kept [Hk Hsub]].
    unfold sampleStep in *. destruct (dropSample st n j (samplePos c)).
    + exists kept. split; [exact Hk | constructor; exact Hsub].
    + exists (samplePos c :: kept). split.
      * rewrite Hk. simpl. rewrite <- app_assoc. reflexivity.
      * constructor. exact Hsub.
Qed.

(** X4.  The samples of a leg are terrain samples of its segment in their
    original order: the thinning leaves samples out, it neither adds nor
    reorders them. *)
Theorem fetch_keeps_order (terminate : Token) (route : list RouteMapObject)
        (i : nat) (leg : ElevationLeg) :
  neverSet terminate ->
  nth_error (elevationLegs (fetchRouteElevationsThread terminate route)) i = Some leg ->
  exists a b,
    nth_error route i = Some a
    /\ nth_error route (S i) = Some b
    /\ Subsequence (elevation leg) (map samplePos (segmentSamples a b))
    /\ (length (elevation leg) <= length (segmentSamples a b))%nat.
Proof.
  intros Hrun Hleg.
  destruct (fetch_leg_built terminate route i leg Hrun Hleg)
    as [a [b [legs0 [Ha [Hb [_ Hbuilt]]]]]].
  exists a, b. split; [exact Ha|]. split; [exact Hb|].
  destruct (sampleFold_subsequence (length (segmentSamples a b)) (segmentSamples a b) 0
              (mkSampleState newLeg legs0 defaultPos)) as [kept [Hk Hsub]].
  simpl in Hk. rewrite <- Hbuilt in Hk. subst kept.
  split; [exact Hsub|].
  apply Subsequence_length in Hsub. rewrite length_map in Hsub. exact Hsub.
Qed.

End Kept.

Lemma fetch_first_legs_unthinned_witness :
  option_map (fun leg => length (elevation leg))
             (nth_error (elevationLegs (@fetchRouteElevationsThread
                                          Demo.hill Demo.running Demo.route5)) 2)
  = Some 3%nat.
Proof.
  destruct (nth_error (elevationLegs (@fetchRouteElevationsThread
                                        Demo.hill Demo.running Demo.route5)) 2)
    as [leg|] eqn:Hleg; [|vm_compute in Hleg; discriminate Hleg].
  destruct (@fetch_first_legs_unthinned Demo.hill Demo.running Demo.route5 2 leg
              running_neverSet (le_n 2) Hleg) as [a [b [Ha [Hb Hel]]]].
  simpl. rewrite Hel, length_map.
  vm_compute in Ha. injection Ha as <-. vm_compute in Hb. injection Hb as <-.
  reflexivity.
Defined.

Lemma fetch_keeps_order_witness :
  option_map (fun leg => (length (elevation leg) <=? 3)%nat)
             (nth_error (elevationLegs (@fetchRouteElevationsThread
                                          Demo.hill Demo.running Demo.route5)) 3)
  = Some true.
Proof.
  destruct (nth_error (elevationLegs (@fetchRouteElevationsThread
                                        Demo.hill Demo.running Demo.route5)) 3)
    as [leg|] eqn:Hleg; [|vm_compute in Hleg; discriminate Hleg].
  destruct (@fetch_keeps_order Demo.hill Demo.running Demo.route5 3 leg
              running_neverSet Hleg) as [a [b [Ha [Hb [_ Hlen]]]]].
  simpl. f_equal. apply Nat.leb_le.
  vm_compute in Ha. injection Ha as <-. vm_compute in Hb. injection Hb as <-.
  exact Hlen.
Defined.

(** ** What the thinning guarantees, and the bookkeeping of a leg *)

Lemma nth_error_lastError {A : Type} (l : list A) (k : nat) (x : A) :
  nth_error l k = Some x -> S k = length l -> lastError l = Some x.
Proof.
  intros Hx Hk. unfold lastError. rewrite <- Hk. simpl.
  rewrite Nat.sub_0_r. exact Hx.
Qed.

Lemma nth_error_snoc_old {A : Type} (l : list A) (x : A) (k : nat) :
  (k < length l)%nat -> nth_error (l ++ [x]) k = nth_error l k.
Proof. intro Hk. apply nth_error_app1. exact Hk. Qed.

Lemma nth_error_snoc_new {A : Type} (l : list A) (x y : A) (k : nat) :
  nth_error (l ++ [x]) k = Some y -> (length l <= k)%nat -> y = x /\ k = length l.
Proof.
  intros Hy Hk. rewrite nth_error_app2 in Hy by exact Hk.
  destruct (k - length l)%nat as [|d] eqn:E; simpl in Hy.
  - injection Hy as <-. split; [reflexivity | lia].
  - destruct d; discriminate.
Qed.

Section Bookkeeping.

Context {C : Collaborators}.

Local Open Scope Q_scope.

Lemma retainSample_elevation (st : SampleState) (j : nat) (pos : Pos) :
  elevation (stLeg (retainSample st j pos)) = elevation (stLeg st) ++ [pos].
Proof. reflexivity. Qed.

Lemma retainSample_distances (st : SampleState) (j : nat) (pos : Pos) :
  distances (stLeg (retainSample st j pos))
  = distances (stLeg st) ++ [totalDistance (stLegs (retainSample st j pos))].
Proof. reflexivity. Qed.

Lemma retainSample_total (st : SampleState) (j : nat) (pos : Pos) :
  totalDistance (stLegs (retainSample st j pos))
  = if (0 <? j)%nat
    then totalDistance (stLegs st) + meterToNm (distanceMeterTo (stLastPos st) pos)
    else totalDistance (stLegs st).
Proof. reflexivity. Qed.

Lemma retainSample_lastPos (st : SampleState) (j : nat) (pos : Pos) :
  stLastPos (retainSample st j pos) = pos.
Proof. reflexivity. Qed.

Lemma retainSample_legs (st : SampleState) (j : nat) (pos : Pos) :
  elevationLegs (stLegs (retainSample st j pos)) = elevationLegs (stLegs st).
Proof. reflexivity. Qed.

Lemma sampleFold_invariant (P : nat -> SampleState -> Prop) (n : nat)
      (elev : list GeoDataCoordinates) :
  forall j st,
    (forall i c st', nth_error elev i = Some c ->
                     P (j + i)%nat st' -> P (S (j + i)) (sampleStep n (j + i) c st')) ->
    P j st ->
    P (j + length elev)%nat (sampleFold n j elev st).
Proof.
  induction elev as [|c elev IH]; intros j st Hstep Hst; simpl.
  - rewrite Nat.add_0_r. exact Hst.
  - replace (j + S (length elev))%nat with (S j + length elev)%nat by lia.
    apply IH.
    + intros i c' st' Hc' Hp.
      replace (S j + i)%nat with (j + S i)%nat in * by lia.
      apply (Hstep (S i) c' st' Hc' Hp).
    + specialize (Hstep 0%nat c st eq_refl). rewrite Nat.add_0_r in Hstep.
      apply Hstep, Hst.
Qed.

(** Consecutive samples of a leg and their cumulative distances. *)
Lemma sampleFold_cumulative (n : nat) (elev : list GeoDataCoordinates)
      (legs0 : ElevationLegList) :
  let leg := stLeg (sampleFold n 0 elev (mkSampleState newLeg legs0 defaultPos)) in
  forall k p q x y,
    nth_error (elevation leg) k = Some p ->
    nth_error (elevation leg) (S k) = Some q ->
    nth_error (distances leg) k = Some x ->
    nth_error (distances leg) (S k) = Some y ->
    y = x + meterToNm (distanceMeterTo p q).
Proof.
  set (P := fun (j : nat) (st : SampleState) =>
              length (elevation (stLeg st)) = length (distances (stLeg st))
              /\ (j = 0%nat -> elevation (stLeg st) = [])
              /\ ((0 < j)%nat ->
                  lastError (elevation (stLeg st)) = Some (stLastPos st)
                  /\ lastError (distances (stLeg st)) = Some (totalDistance (stLegs st)))
              /\ forall k p q x y,
                  nth_error (elevation (stLeg st)) k = Some p ->
                  nth_error (elevation (stLeg st)) (S k) = Some q ->
                  nth_error (distances (stLeg st)) k = Some x ->
                  nth_error (distances (stLeg st)) (S k) = Some y ->
                  y = x + meterToNm (distanceMeterTo p q)).
  assert (Hfinal : P (0 + length elev)%nat
                     (sampleFold n 0 elev (mkSampleState newLeg legs0 defaultPos))).
  { apply sampleFold_invariant.
    - intros i c st _ [Hlen [Hzero [Hpos Hcum]]].
      change (0 + i)%nat with i in *.
      unfold sampleStep.
      destruct (dropSample st n i (samplePos c)) eqn:Hdrop.
      + split; [exact Hlen|]. split; [discriminate|]. split; [|exact Hcum].
        intros _. apply Hpos. destruct i; [|lia].
        rewrite dropSample_first in Hdrop. discriminate.
      + unfold P.
        rewrite retainSample_elevation, retainSample_distances, retainSample_lastPos.
        split; [rewrite !length_app; simpl; lia|].
        split; [intro Hj; discriminate Hj|].
        split; [intros _; split; apply lastError_snoc|].
        intros k p q x y Hp Hq Hx Hy.
        destruct (Nat.lt_ge_cases (S k) (length (elevation (stLeg st)))) as [Hin | Hout].
        * rewrite nth_error_snoc_old in Hp by lia.
          rewrite nth_error_snoc_old in Hq by lia.
          rewrite nth_error_snoc_old in Hx by lia.
          rewrite nth_error_snoc_old in Hy by lia.
          eapply Hcum; eassumption.
        * destruct (nth_error_snoc_new _ _ _ _ Hq Hout) as [-> Hk].
          assert (Hout' : (length (distances (stLeg st)) <= S k)%nat) by lia.
          destruct (nth_error_snoc_new _ _ _ _ Hy Hout') as [-> _].
          rewrite nth_error_snoc_old in Hp by lia.
          rewrite nth_error_snoc_old in Hx by lia.
          destruct i as [|i].
          -- rewrite (Hzero eq_refl) in Hk. discriminate.
          -- destruct Hpos as [Hlp Hlt]; [lia|].
             rewrite (nth_error_lastError _ _ _ Hp Hk) in Hlp.
             rewrite (nth_error_lastError _ _ _ Hx) in Hlt by lia.
             injection Hlp as Hlp. injection Hlt as Hlt.
             rewrite retainSample_total, <- Hlp, <- Hlt. reflexivity.
    - split; [reflexivity|]. split; [reflexivity|]. split; [intro H; inversion H|].
      intros k p q x y Hp. destruct k; discriminate. }
  intro leg. apply Hfinal.
Qed.

(** Consecutive samples of a thinned leg, the last one apart, are at least
    ten feet apart in altitude. *)
Lemma sampleFold_spaced (front : list GeoDataCoordinates) (last : GeoDataCoordinates)
      (legs0 : ElevationLegList) :
  (2 < length (elevationLegs legs0))%nat ->
  (forall c, In c front -> isValid (samplePos c) = true) ->
  let n := S (length front) in
  let leg := stLeg (sampleFold n 0 (front ++ [last])
                               (mkSampleState newLeg legs0 defaultPos)) in
  forall k p q,
    nth_error (elevation leg) k = Some p ->
    nth_error (elevation leg) (S k) = Some q ->
    (S k < length (elevation leg) - 1)%nat ->
    10 <= Qabs (altitude q - altitude p).
Proof.
  intros Hmany Hvalid n leg.
  set (R := fun p q : Pos => 10 <= Qabs (altitude q - altitude p)).
  set (P := fun (j : nat) (st : SampleState) =>
              (j = 0%nat -> elevation (stLeg st) = [])
              /\ ((0 < j)%nat ->
                  lastError (elevation (stLeg st)) = Some (stLastPos st)
                  /\ isValid (stLastPos st) = true)
              /\ AdjacentPairs R (elevation (stLeg st))
              /\ (2 < length (elevationLegs (stLegs st)))%nat).
  assert (Hfront : P (0 + length front)%nat
                     (sampleFold n 0 front (mkSampleState newLeg legs0 defaultPos))).
  { apply sampleFold_invariant.
    - intros i c st Hc [Hzero [Hpos [Hap Hlegs]]].
      change (0 + i)%nat with i in *.
      assert (Hi : (i < length front)%nat) by (apply nth_error_Some; congruence).
      assert (Hcvalid : isValid (samplePos c) = true)
        by (apply Hvalid; eapply nth_error_In, Hc).
      unfold sampleStep.
      destruct (dropSample st n i (samplePos c)) eqn:Hdrop.
      + split; [discriminate|]. split; [|split; assumption].
        intros _. apply Hpos. destruct i; [|lia].
        rewrite dropSample_first in Hdrop. discriminate.
      + unfold P.
        rewrite retainSample_elevation, retainSample_lastPos, retainSample_legs.
        split; [intro Hj; discriminate Hj|].
        split; [intros _; split; [apply lastError_snoc | exact Hcvalid]|].
        split; [|exact Hlegs].
        apply AdjacentPairs_snoc; [exact Hap|].
        destruct i as [|i]; [left; apply Hzero; reflexivity|].
        right. destruct Hpos as [Hlp Hlv]; [lia|].
        exists (stLastPos st). split; [exact Hlp|].
        unfold R. unfold dropSample in Hdrop. rewrite Hlv in Hdrop.
        replace (S i =? 0)%nat with false in Hdrop by reflexivity.
        replace (S i =? n - 1)%nat with false in Hdrop
          by (symmetry; apply Nat.eqb_neq; subst n; simpl; lia).
        replace (2 <? length (elevationLegs (stLegs st)))%nat with true in Hdrop
          by (symmetry; apply Nat.ltb_lt; exact Hlegs).
        simpl in Hdrop. unfold Num.almostEqual in Hdrop.
        apply NumFacts.ltb_ge in Hdrop. exact Hdrop.
    - split; [reflexivity|]. split; [intro H; inversion H|].
      split; [constructor | exact Hmany]. }
  destruct Hfront as [_ [_ [Hap _]]].
  subst leg. rewrite sampleFold_app. cbn [sampleFold Nat.add].
  set (stF := sampleFold n 0 front (mkSampleState newLeg legs0 defaultPos)) in *.
  unfold sampleStep. rewrite dropSample_last by (subst n; simpl; lia).
  rewrite retainSample_elevation. intros k p q Hp Hq Hk.
  rewrite length_app in Hk. simpl in Hk.
  rewrite nth_error_snoc_old in Hp by lia.
  rewrite nth_error_snoc_old in Hq by lia.
  exact (AdjacentPairs_nth R _ Hap k p q Hp Hq).
Qed.

(** The maximum of a leg bounds the altitudes of its samples and is zero or
    one of them. *)
Lemma sampleFold_max (n : nat) (elev : list GeoDataCoordinates) :
  forall j st,
    (0 <= maxElevation (stLeg st)
     /\ Forall (fun p => altitude p <= maxElevation (stLeg st)) (elevation (stLeg st))
     /\ (maxElevation (stLeg st) = 0
         \/ exists p, In p (elevation (stLeg st))
                      /\ maxElevation (stLeg st) = altitude p)) ->
    let leg := stLeg (sampleFold n j elev st) in
    0 <= maxElevation leg
    /\ Forall (fun p => altitude p <= maxElevation leg) (elevation leg)
    /\ (maxElevation leg = 0
        \/ exists p, In p (elevation leg) /\ maxElevation leg = altitude p).
Proof.
  induction elev as [|c elev IH]; intros j st Hst; simpl; [exact Hst|].
  apply IH. unfold sampleStep.
  destruct (dropSample _ _ _ _); [exact Hst|].
  destruct Hst as [Hnn [Hall Hatt]]. simpl.
  split; [float_cases; lra|]. split.
  - apply Forall_app. split.
    + eapply Forall_impl; [|exact Hall]. intros p Hp. simpl in Hp.
      float_cases; lra.
    + constructor; [|constructor]. float_cases; [apply Qle_refl | assumption].
  - float_cases.
    + right. exists (samplePos c). split; [apply in_or_app; right; left|]; reflexivity.
    + destruct Hatt as [H0 | [p [Hin Hp]]]; [left; exact H0|].
      right. exists p. split; [apply in_or_app; left; exact Hin | exact Hp].
Qed.

End Bookkeeping.



Section LegTheorems.

Context {C : Collaborators}.

Local Open Scope Q_scope.

(** X5.  From the fourth leg of a route on, consecutive samples of a leg,
    the last sample of the leg apart, differ by at least ten feet in
    altitude when the positions of the terrain samples of the segment are
    valid. *)
Theorem fetch_thinned_spacing (terminate : Token) (route : list RouteMapObject)
        (i : nat) (a b : RouteMapObject) (leg : ElevationLeg) :
  neverSet terminate ->
  (3 <= i)%nat ->
  nth_error (elevationLegs (fetchRouteElevationsThread terminate route)) i = Some leg ->
  nth_error route i = Some a ->
  nth_error route (S i) = Some b ->
  (forall c, In c (segmentSamples a b) -> isValid (samplePos c) = true) ->
  forall k p q,
    nth_error (elevation leg) k = Some p ->
    nth_error (elevation leg) (S k) = Some q ->
    (S k < length (elevation leg) - 1)%nat ->
    10 <= Qabs (altitude q - altitude p).
Proof.
  intros Hrun Hi Hleg Ha Hb Hvalid.
  destruct (fetch_leg_built terminate route i leg Hrun Hleg)
    as [a' [b' [legs0 [Ha' [Hb' [Hlen Hbuilt]]]]]].
  assert (a' = a) by congruence. assert (b' = b) by congruence. subst a' b'.
  destruct (exists_last (segmentSamples_nonempty a b)) as [front [last Hsplit]].
  rewrite Hsplit in Hbuilt, Hvalid.
  replace (length (front ++ [last])) with (S (length front)) in Hbuilt
    by (rewrite length_app; simpl; lia).
  rewrite Hbuilt.
  apply sampleFold_spaced.
  - lia.
  - intros c Hc. apply Hvalid, in_or_app. left. exact Hc.
Qed.

(** X6.  Inside a leg the distances are cumulative: every sample but the
    first has a distance, and it is the distance of the sample before it plus
    the distance, in nautical miles, between the two samples. *)
Theorem fetch_distances_cumulative (terminate : Token) (route : list RouteMapObject)
        (i : nat) (leg : ElevationLeg) :
  neverSet terminate ->
  nth_error (elevationLegs (fetchRouteElevationsThread terminate route)) i = Some leg ->
  forall k,
    (S k < length (elevation leg))%nat ->
    exists p q x y,
      nth_error (elevation leg) k = Some p
      /\ nth_error (elevation leg) (S k) = Some q
      /\ nth_error (distances leg) k = Some x
      /\ nth_error (distances leg) (S k) = Some y
      /\ y = x + meterToNm (distanceMeterTo p q).
Proof.
  intros Hrun Hleg k Hk.
  destruct (fetch_leg terminate route i leg Hrun Hleg) as [a0 [b0 [_ [_ Hof]]]].
  destruct Hof as [Hlen _].
  destruct (fetch_leg_built terminate route i leg Hrun Hleg)
    as [a [b [legs0 [_ [_ [_ Hbuilt]]]]]].
  destruct (nth_error (elevation leg) k) as [p|] eqn:Hp;
    [|apply nth_error_None in Hp; lia].
  destruct (nth_error (elevation leg) (S k)) as [q|] eqn:Hq;
    [|apply nth_error_None in Hq; lia].
  destruct (nth_error (distances leg) k) as [x|] eqn:Hx;
    [|apply nth_error_None in Hx; lia].
  destruct (nth_error (distances leg) (S k)) as [y|] eqn:Hy;
    [|apply nth_error_None in Hy; lia].
  exists p, q, x, y. repeat (split; [reflexivity|]).
  rewrite Hbuilt in Hp, Hq, Hx, Hy.
  exact (sampleFold_cumulative _ _ _ k p q x y Hp Hq Hx Hy).
Qed.

Lemma fetch_leg_max_le_route (terminate : Token) (route : list RouteMapObject)
      (leg : ElevationLeg) :
  neverSet terminate ->
  In leg (elevationLegs (fetchRouteElevationsThread terminate route)) ->
  maxElevation leg <= maxRouteElevation (fetchRouteElevationsThread terminate route).
Proof.
  intros Hrun Hin.
  destruct (fetch_spec terminate route Hrun) as [[_ _ Hmax _] [_ Hall]].
  rewrite Hmax. apply maxOverLegs_greatest; [|exact Hin].
  apply Forall_forall. intros l Hl.
  destruct (In_nth_error _ _ Hl) as [i Hi].
  destruct (Forall2_nth_error _ _ _ Hall i l Hi) as [p [_ Hof]].
  apply Hof.
Qed.

(** X7.  The maximum elevation of a leg is not negative, bounds the altitude
    of every sample of the leg and is zero or the altitude of one of them;
    the maximum elevation of the route bounds every sample as well. *)
Theorem fetch_leg_maximum (terminate : Token) (route : list RouteMapObject)
        (i : nat) (leg : ElevationLeg) :
  neverSet terminate ->
  nth_error (elevationLegs (fetchRouteElevationsThread terminate route)) i = Some leg ->
  0 <= maxElevation leg
  /\ (forall p, In p (elevation leg) -> altitude p <= maxElevation leg)
  /\ (maxElevation leg = 0
      \/ exists p, In p (elevation leg) /\ maxElevation leg = altitude p)
  /\ (forall p, In p (elevation leg) ->
                altitude p
                <= maxRouteElevation (fetchRouteElevationsThread terminate route)).
Proof.
  intros Hrun Hleg.
  destruct (fetch_leg_built terminate route i leg Hrun Hleg)
    as [a [b [legs0 [_ [_ [_ Hbuilt]]]]]].
  assert (Hmax : 0 <= maxElevation leg
                 /\ Forall (fun p => altitude p <= maxElevation leg) (elevation leg)
                 /\ (maxElevation leg = 0
                     \/ exists p, In p (elevation leg)
                                  /\ maxElevation leg = altitude p)).
  { rewrite Hbuilt. apply sampleFold_max. simpl.
    split; [apply Qle_refl|]. split; [constructor | left; reflexivity]. }
  destruct Hmax as [Hnn [Hall Hatt]]. rewrite Forall_forall in Hall.
  split; [exact Hnn|]. split; [exact Hall|]. split; [exact Hatt|].
  intros p Hp. eapply Qle_trans; [apply Hall, Hp|].
  apply fetch_leg_max_le_route; [exact Hrun|]. eapply nth_error_In, Hleg.
Qed.

Lemma sampleFold_bounds (n : nat) (elev : list GeoDataCoordinates) (t0 : Q) :
  (forall p q : Pos, 0 <= meterToNm (distanceMeterTo p q)) ->
  0 <= t0 ->
  forall j st,
    (t0 <= totalDistance (stLegs st)
     /\ Forall (fun d => 0 <= d /\ d <= totalDistance (stLegs st))
               (distances (stLeg st))) ->
    t0 <= totalDistance (stLegs (sampleFold n j elev st))
    /\ Forall (fun d => 0 <= d /\ d <= totalDistance (stLegs (sampleFold n j elev st)))
              (distances (stLeg (sampleFold n j elev st))).
Proof.
  intros Hdist Ht0.
  induction elev as [|c elev IH]; intros j st Hst; simpl; [exact Hst|].
  apply IH. unfold sampleStep.
  destruct (dropSample _ _ _ _); [exact Hst|].
  destruct Hst as [Hle Hall].
  rewrite retainSample_distances.
  assert (Hgrow : totalDistance (stLegs st)
                  <= totalDistance (stLegs (retainSample st j (samplePos c)))).
  { rewrite retainSample_total. destruct (0 <? j)%nat; [|apply Qle_refl].
    pose proof (Hdist (stLastPos st) (samplePos c)). lra. }
  split; [lra|].
  apply Forall_app. split.
  - eapply Forall_impl; [|exact Hall]. intros d [Hd0 Hd1]. cbv beta. split; lra.
  - constructor; [|constructor]. split; [lra | apply Qle_refl].
Qed.

Lemma fetch_bounds (terminate : Token) (route : list RouteMapObject) :
  (forall p q : Pos, 0 <= meterToNm (distanceMeterTo p q)) ->
  neverSet terminate ->
  0 <= totalDistance (fetchRouteElevationsThread terminate route)
  /\ Forall (fun leg =>
               Forall (fun d => 0 <= d
                                /\ d <= totalDistance
                                          (fetchRouteElevationsThread terminate route))
                      (distances leg))
            (elevationLegs (fetchRouteElevationsThread terminate route)).
Proof.
  intros Hdist Hrun. unfold fetchRouteElevationsThread.
  destruct route as [|first rest]; [split; [apply Qle_refl | constructor]|].
  rewrite legLoop_neverSet by exact Hrun.
  apply (legFold_invariant
           (fun legs =>
              0 <= totalDistance legs
              /\ Forall (fun leg =>
                           Forall (fun d => 0 <= d /\ d <= totalDistance legs)
                                  (distances leg))
                        (elevationLegs legs)));
    [|split; [apply Qle_refl | constructor]].
  intros legs a b [H0 Hall].
  destruct (buildLeg_legs legs a b) as [Hb _]. rewrite Hb.
  destruct (sampleFold_bounds (length (segmentSamples a b)) (segmentSamples a b)
              (totalDistance legs) Hdist H0 0
              (mkSampleState newLeg legs defaultPos)) as [Hle Hnew].
  { split; [apply Qle_refl | constructor]. }
  unfold buildLeg. simpl. split; [lra|].
  apply Forall_app. split.
  - eapply Forall_impl; [|exact Hall]. intros leg Hleg.
    eapply Forall_impl; [|exact Hleg]. intros d [Hd0 Hd1]. simpl. split; lra.
  - constructor; [exact Hnew | constructor].
Qed.




End LegTheorems.

Lemma slopeLeg4_built :
  nth_error (elevationLegs (@fetchRouteElevationsThread Demo.slope Demo.running
                                                        Demo.route5)) 3
  = Some Demo.slopeLeg4.
Proof. vm_compute. reflexivity. Qed.

Lemma hillLeg4_built :
  nth_error (elevationLegs (@fetchRouteElevationsThread Demo.hill Demo.running
                                                        Demo.route5)) 3
  = Some Demo.hillLeg4.
Proof. vm_compute. reflexivity. Qed.

Lemma fetch_thinned_spacing_witness :
  length (elevation Demo.slopeLeg4) = 3%nat
  /\ (10 <= Qabs (altitude (nth 1 (elevation Demo.slopeLeg4) (mkPos 0 0 0))
                  - altitude (nth 0 (elevation Demo.slopeLeg4) (mkPos 0 0 0))))%Q.
Proof.
  split; [vm_compute; reflexivity|].
  apply (@fetch_thinned_spacing Demo.slope Demo.running Demo.route5 3
           (Demo.wp "D" 3 0) (Demo.wp "E" 4 0) Demo.slopeLeg4
           running_neverSet (le_n 3) slopeLeg4_built eq_refl eq_refl) with (k := 0%nat).
  - intros c Hc. vm_compute in Hc.
    destruct Hc as [<- | [<- | [<- | []]]]; vm_compute; reflexivity.
  - vm_compute. reflexivity.
  - vm_compute. reflexivity.
  - vm_compute. lia.
Defined.

Lemma fetch_distances_cumulative_witness :
  exists p q x y,
    nth_error (elevation Demo.slopeLeg4) 0 = Some p
    /\ nth_error (elevation Demo.slopeLeg4) 1 = Some q
    /\ nth_error (distances Demo.slopeLeg4) 0 = Some x
    /\ nth_error (distances Demo.slopeLeg4) 1 = Some y
    /\ (y = x + Demo.gridDistanceMeter p q / 1852)%Q
    /\ (x == 180)%Q
    /\ (y == 210)%Q.
Proof.
  destruct (@fetch_distances_cumulative Demo.slope Demo.running Demo.route5 3
              Demo.slopeLeg4 running_neverSet slopeLeg4_built 0%nat)
    as [p [q [x [y [Hp [Hq [Hx [Hy Hsum]]]]]]]]; [vm_compute; lia|].
  exists p, q, x, y.
  split; [exact Hp|]. split; [exact Hq|]. split; [exact Hx|]. split; [exact Hy|].
  split; [exact Hsum|].
  vm_compute in Hx, Hy. injection Hx as <-. injection Hy as <-.
  split; reflexivity.
Defined.

Lemma fetch_leg_maximum_witness :
  (0 <= maxElevation Demo.hillLeg4)%Q
  /\ (maxElevation Demo.hillLeg4 = 0%Q
      \/ exists p, In p (elevation Demo.hillLeg4)
                   /\ maxElevation Demo.hillLeg4 = altitude p).
Proof.
  destruct (@fetch_leg_maximum Demo.hill Demo.running Demo.route5 3 Demo.hillLeg4
              running_neverSet hillLeg4_built) as [H0 [_ [Hatt _]]].
  split; [exact H0 | exact Hatt].
Defined.


(** ** More on the screen projector *)

Lemma countPoints_cons (leg : ElevationLeg) (legs : list ElevationLeg) :
  countPoints (leg :: legs)
  = (Z.of_nat (length (elevation leg)) + countPoints legs)%Z.
Proof.
  unfold countPoints. simpl.
  assert (H : forall l a,
             fold_left (fun acc x => (acc + Z.of_nat (length (elevation x)))%Z) l a
             = (a + fold_left (fun acc x => (acc + Z.of_nat (length (elevation x)))%Z)
                              l 0)%Z).
  { induction l as [|x l IH]; intro a; simpl; [lia|].
    rewrite IH. rewrite (IH (Z.of_nat (length (elevation x)))). lia. }
  apply H.
Qed.

Section PolygonFacts.

Context {C : Collaborators}.

Variables (h : Z) (hScale vScale : Q).

Lemma polyStep_extends (n i : nat) (pt : QPoint) (st : list QPoint * QPoint) :
  exists added,
    fst (polyStep n i pt st) = fst st ++ added /\ (length added <= 1)%nat.
Proof.
  unfold polyStep. destruct (appendPoint _ _ _ _).
  - exists [pt]. split; [reflexivity | simpl; lia].
  - exists []. rewrite app_nil_r. split; [reflexivity | simpl; lia].
Qed.

Lemma polyLoop_extends (leg : ElevationLeg) (elev : list Pos) :
  forall i st st',
    polyLoop h hScale vScale leg i elev st = Ok st' ->
    exists added,
      fst st' = fst st ++ added /\ (length added <= length elev)%nat.
Proof.
  induction elev as [|pos elev IH]; intros i st st' Hrun; simpl in Hrun.
  - injection Hrun as <-. exists []. rewrite app_nil_r. split; [reflexivity | simpl; lia].
  - apply bind_Ok in Hrun. destruct Hrun as [dist [_ Hrun]].
    destruct (IH _ _ _ Hrun) as [added2 [H2 Hlen2]].
    destruct (polyStep_extends (length (elevation leg)) i
                (projectPoint h hScale vScale dist pos) st) as [added1 [H1 Hlen1]].
    exists (added1 ++ added2). rewrite H2, H1, app_assoc.
    split; [reflexivity|]. rewrite length_app. simpl. lia.
Qed.

(** What the loop over the legs adds to the waypoint pixels and to the
    polygon. *)
Lemma projectLegs_result (legs : list ElevationLeg) :
  forall st r,
    projectLegs h hScale vScale legs st = Ok r ->
    fst r = fst st ++ map (fun leg => (X0 + Num.toInt (hd 0%Q (distances leg) * hScale))%Z)
                          legs
    /\ exists added,
         snd r = snd st ++ added
         /\ (Z.of_nat (length added) <= countPoints legs)%Z.
Proof.
  induction legs as [|leg legs IH]; intros st r Hrun; simpl in Hrun.
  - injection Hrun as <-. split; [rewrite app_nil_r; reflexivity|].
    exists []. rewrite app_nil_r. split; [reflexivity | simpl; reflexivity].
  - apply bind_Ok in Hrun. destruct Hrun as [d0 [Hd0 Hrun]].
    apply bind_Ok in Hrun. destruct Hrun as [r1 [Hleg Hrun]].
    destruct (IH _ _ Hrun) as [Hw [added2 [Hp Hlen2]]]. simpl in Hw, Hp.
    destruct (polyLoop_extends leg (elevation leg) 0 _ _ Hleg) as [added1 [H1 Hlen1]].
    simpl in H1.
    apply at_Ok in Hd0.
    assert (Hhd : hd 0%Q (distances leg) = d0).
    { destruct (distances leg); simpl in *; congruence. }
    split.
    + rewrite Hw, <- app_assoc. simpl. rewrite Hhd. reflexivity.
    + exists (added1 ++ added2). rewrite Hp, H1, app_assoc.
      split; [reflexivity|].
      rewrite countPoints_cons, length_app. lia.
Qed.

(** The first sample of a leg is always appended. *)
Lemma polyLoop_first (leg : ElevationLeg) (pos : Pos) (rest : list Pos) (dist : Q)
      (poly0 : list QPoint) (i : nat) (st' : list QPoint * QPoint) :
  polyLoop h hScale vScale leg i (pos :: rest) (poly0, nullPoint) = Ok st' ->
  nth_error (distances leg) i = Some dist ->
  In (projectPoint h hScale vScale dist pos) (fst st').
Proof.
  intros Hrun Hdist. simpl in Hrun.
  apply at_Ok in Hdist. rewrite Hdist in Hrun. simpl in Hrun.
  destruct (polyLoop_extends leg rest _ _ _ Hrun) as [added [Hadd _]].
  rewrite Hadd. apply in_or_app. left.
  unfold polyStep. simpl. apply in_or_app. right. left. reflexivity.
Qed.

(** The last sample of a leg is always appended. *)
Lemma polyLoop_last (leg : ElevationLeg) (elev : list Pos) :
  forall i st st' pos dist,
    polyLoop h hScale vScale leg i elev st = Ok st' ->
    (i + length elev = length (elevation leg))%nat ->
    lastError elev = Some pos ->
    nth_error (distances leg) (length (elevation leg) - 1) = Some dist ->
    In (projectPoint h hScale vScale dist pos) (fst st').
Proof.
  induction elev as [|p elev IH]; intros i st st' pos dist Hrun Hlen Hlast Hdist.
  - discriminate.
  - simpl in Hrun. apply bind_Ok in Hrun. destruct Hrun as [d [Hd Hrun]].
    destruct elev as [|p' elev].
    + simpl in Hrun. injection Hrun as <-.
      unfold lastError in Hlast. simpl in Hlast. injection Hlast as <-.
      simpl in Hlen.
      assert (Hi : i = (length (elevation leg) - 1)%nat) by lia.
      apply at_Ok in Hd. rewrite <- Hi in Hdist.
      assert (d = dist) by congruence. subst d.
      unfold polyStep, appendPoint. rewrite Hi at 1.
      rewrite Nat.eqb_refl, orb_true_r. simpl.
      apply in_or_app. right. left. reflexivity.
    + eapply IH; [exact Hrun | simpl in *; lia | | exact Hdist].
      change (p :: p' :: elev) with ([p] ++ p' :: elev) in Hlast.
      rewrite lastError_app in Hlast by discriminate. exact Hlast.
Qed.

Lemma projectLegs_keeps (legs : list ElevationLeg) :
  forall st r pt,
    projectLegs h hScale vScale legs st = Ok r ->
    In pt (snd st) -> In pt (snd r).
Proof.
  intros st r pt Hrun Hin.
  destruct (projectLegs_result legs st r Hrun) as [_ [added [Hp _]]].
  rewrite Hp. apply in_or_app. left. exact Hin.
Qed.

End PolygonFacts.

Section PolygonTheorems.

Context {C : Collaborators}.

(** X9.  When the projector succeeds, the polygon starts in the lower left
    corner of the drawing area and ends in its lower right corner, and it
    has at most two vertices more than the legs hold samples; the waypoint
    pixels are one per leg followed by the right edge of the area. *)
Theorem polygon_shape (wd : Widget) (legList : ElevationLegList) (ps : ProjectionState) :
  updateScreenCoords wd legList = Ok ps ->
  let w := (rectWidth wd - X0 * 2)%Z in
  let h := (rectHeight wd - Y0)%Z in
  hd_error (poly ps) = Some (mkPoint X0 (h + Y0))
  /\ lastError (poly ps) = Some (mkPoint (X0 + w) (h + Y0))
  /\ (2 <= Z.of_nat (length (poly ps)) <= countPoints (elevationLegs legList) + 2)%Z
  /\ length (waypointX ps) = S (length (elevationLegs legList))
  /\ lastError (waypointX ps) = Some (X0 + w)%Z.
Proof.
  intros Hupd w h. unfold updateScreenCoords in Hupd. fold w h in Hupd.
  apply bind_Ok in Hupd. destruct Hupd as [r [Hproj Hps]].
  injection Hps as <-. simpl.
  destruct (projectLegs_result _ _ _ _ _ _ Hproj) as [Hw [added [Hp Hlen]]].
  simpl in Hw, Hp. rewrite Hw, Hp.
  split; [reflexivity|]. split; [apply lastError_snoc|].
  split; [|split].
  - simpl. rewrite length_app. simpl. lia.
  - rewrite length_app, length_map. simpl. lia.
  - apply lastError_snoc.
Qed.

(** X10.  When the projector succeeds, the pixel of the first sample and
    the pixel of the last sample of every leg are vertices of the polygon,
    whatever the pixel thinning leaves out in between. *)
Theorem polygon_keeps_leg_ends (wd : Widget) (legList : ElevationLegList)
        (ps : ProjectionState) (leg : ElevationLeg)
        (pFirst pLast : Pos) (dFirst dLast : Q) :
  updateScreenCoords wd legList = Ok ps ->
  In leg (elevationLegs legList) ->
  hd_error (elevation leg) = Some pFirst ->
  lastError (elevation leg) = Some pLast ->
  nth_error (distances leg) 0 = Some dFirst ->
  nth_error (distances leg) (length (elevation leg) - 1) = Some dLast ->
  let h := (rectHeight wd - Y0)%Z in
  In (projectPoint h (horizScale ps) (vertScale ps) dFirst pFirst) (poly ps)
  /\ In (projectPoint h (horizScale ps) (vertScale ps) dLast pLast) (poly ps).
Proof.
  intros Hupd Hin Hfirst Hlast HdF HdL h.
  unfold updateScreenCoords in Hupd. fold h in Hupd.
  apply bind_Ok in Hupd. destruct Hupd as [r [Hproj Hps]].
  injection Hps as <-. cbn [horizScale vertScale poly].
  match goal with
  | |- In (projectPoint h ?hs ?vs dFirst pFirst) _ /\ _ =>
      set (hS := hs) in *; set (vS := vs) in *
  end.
  destruct (in_split _ _ Hin) as [pre [post Hsplit]].
  rewrite Hsplit, projectLegs_app in Hproj.
  apply bind_Ok in Hproj. destruct Hproj as [stPre [_ Hrest]].
  cbn [projectLegs] in Hrest.
  apply bind_Ok in Hrest. destruct Hrest as [d0 [_ Hrest]].
  apply bind_Ok in Hrest. destruct Hrest as [r1 [Hleg Hpost]].
  assert (Hboth : In (projectPoint h hS vS dFirst pFirst) (fst r1)
                  /\ In (projectPoint h hS vS dLast pLast) (fst r1)).
  { split.
    - destruct (elevation leg) as [|p0 rest] eqn:Eel; [discriminate|].
      simpl in Hfirst. injection Hfirst as <-.
      rewrite <- Eel in HdL.
      eapply polyLoop_first; [|exact HdF]. rewrite <- Eel at 1.
      rewrite Eel. exact Hleg.
    - eapply polyLoop_last; [exact Hleg | reflexivity | exact Hlast | exact HdL]. }
  destruct Hboth as [H1 H2].
  split; apply in_or_app; left;
    (eapply projectLegs_keeps; [exact Hpost | simpl; assumption]).
Qed.

End PolygonTheorems.

Lemma polygon_shape_witness :
  exists ps,
    @updateScreenCoords Demo.hill Demo.widget Demo.hillProfile = Ok ps
    /\ hd_error (poly ps) = Some (mkPoint 65 414)
    /\ lastError (poly ps) = Some (mkPoint 665 414)
    /\ length (waypointX ps) = 3%nat.
Proof.
  destruct (@updateScreenCoords Demo.hill Demo.widget Demo.hillProfile)
    as [ps|] eqn:Hupd; [|vm_compute in Hupd; discriminate Hupd].
  destruct (@polygon_shape Demo.hill Demo.widget Demo.hillProfile ps Hupd)
    as [H1 [H2 [_ [H4 _]]]].
  exists ps. split; [reflexivity|]. split; [exact H1|]. split; [exact H2 | exact H4].
Defined.

Lemma polygon_keeps_leg_ends_witness :
  exists ps,
    @updateScreenCoords Demo.hill Demo.widget Demo.hillProfile = Ok ps
    /\ In (mkPoint 365 400) (poly ps)
    /\ In (mkPoint 665 400) (poly ps).
Proof.
  destruct (@updateScreenCoords Demo.hill Demo.widget Demo.hillProfile)
    as [ps|] eqn:Hupd; [|vm_compute in Hupd; discriminate Hupd].
  destruct (@polygon_keeps_leg_ends Demo.hill Demo.widget Demo.hillProfile ps
              Demo.hillLeg2
              (nth 0 (elevation Demo.hillLeg2) (mkPos 0 0 0))
              (nth 2 (elevation Demo.hillLeg2) (mkPos 0 0 0))
              (nth 0 (distances Demo.hillLeg2) 0%Q)
              (nth 2 (distances Demo.hillLeg2) 0%Q) Hupd) as [H1 H2];
    try (vm_compute; reflexivity).
  { vm_compute. right. left. reflexivity. }
  exists ps. split; [reflexivity|].
  vm_compute in Hupd. injection Hupd as <-.
  split; [exact H1 | exact H2].
Defined.

(** ** Waypoint pixels *)

Module ToInt.

Local Open Scope Q_scope.

Lemma floor (q : Q) : 0 <= q -> Num.toInt q = Qfloor q.
Proof.
  intro Hq. destruct q as [n d]. unfold Num.toInt, Qfloor. simpl.
  apply Z.quot_div_nonneg; [|reflexivity].
  unfold Qle in Hq. simpl in Hq. lia.
Qed.

Lemma nonneg (q : Q) : 0 <= q -> (0 <= Num.toInt q)%Z.
Proof.
  intro Hq. rewrite floor by exact Hq.
  change 0%Z with (Qfloor 0). apply Qfloor_resp_le, Hq.
Qed.

Lemma mono (p q : Q) : 0 <= p -> p <= q -> (Num.toInt p <= Num.toInt q)%Z.
Proof.
  intros Hp Hpq. rewrite !floor; [apply Qfloor_resp_le, Hpq | | exact Hp].
  eapply Qle_trans; eassumption.
Qed.

Lemma below (q : Q) (z : Z) : 0 <= q -> q <= inject_Z z -> (Num.toInt q <= z)%Z.
Proof.
  intros Hq Hz. rewrite floor by exact Hq.
  rewrite <- (Qfloor_Z z). apply Qfloor_resp_le, Hz.
Qed.

End ToInt.

Lemma lastError_In {A : Type} (l : list A) (x : A) : lastError l = Some x -> In x l.
Proof. unfold lastError. apply nth_error_In. Qed.

Lemma AdjacentPairs_head_le (x y : Q) (l : list Q) :
  (x <= y)%Q -> AdjacentPairs Qle (y :: l) -> AdjacentPairs Qle (x :: l).
Proof.
  intros Hxy H. inversion H; subst; constructor; [|assumption].
  eapply Qle_trans; eassumption.
Qed.

Lemma NonDecreasing_hd_le_last (l : list Q) (d : Q) :
  NonDecreasing l -> (hd d l <= last l d)%Q.
Proof.
  induction 1 as [| x | x y l Hxy Hnd IH]; simpl; try apply Qle_refl.
  simpl in IH. eapply Qle_trans; [exact Hxy | exact IH].
Qed.

(** The first distances of chained legs never decrease. *)
Lemma Chained_firsts (d e : Q) (legs : list ElevationLeg) :
  Chained d legs e ->
  Forall (fun leg => NonDecreasing (distances leg)) legs ->
  AdjacentPairs Qle (d :: map (fun leg => hd 0%Q (distances leg)) legs).
Proof.
  induction 1 as [d | d leg rest e Hhd Hch IH]; intro Hall; simpl.
  - constructor.
  - inversion Hall as [|? ? Hleg Hrest]; subst.
    assert (Hd : hd 0%Q (distances leg) = d).
    { destruct (distances leg); simpl in *; congruence. }
    rewrite Hd. constructor; [apply Qle_refl|].
    apply AdjacentPairs_head_le with (y := last (distances leg) d); [|apply IH, Hrest].
    pose proof (NonDecreasing_hd_le_last (distances leg) d Hleg) as Hle.
    destruct (distances leg); simpl in *; [discriminate|].
    injection Hhd as ->. exact Hle.
Qed.

Lemma AdjacentPairs_map_pixels (hScale : Q) (l : list Q) :
  (0 <= hScale)%Q ->
  Forall (fun q => 0 <= q)%Q l ->
  AdjacentPairs Qle l ->
  AdjacentPairs Z.le (map (fun q => (X0 + Num.toInt (q * hScale))%Z) l).
Proof.
  intros Hs Hnn Hap. induction Hap as [| x | x y l Hxy Hrest IH]; cbn [map].
  - constructor.
  - constructor.
  - inversion Hnn as [|? ? Hx Hnn']; subst.
    constructor; [|apply IH, Hnn'].
    apply Z.add_le_mono_l. apply ToInt.mono.
    + apply Qmult_le_0_compat; assumption.
    + apply Qmult_le_compat_r; assumption.
Qed.

Lemma AdjacentPairs_tail {A : Type} (R : A -> A -> Prop) (x : A) (l : list A) :
  AdjacentPairs R (x :: l) -> AdjacentPairs R l.
Proof. intro H. inversion H; subst; [constructor | assumption]. Qed.

Section WaypointPixels.

Context {C : Collaborators}.

Local Open Scope Q_scope.

(** The first distance of every leg of an assembled profile lies between
    zero and the total distance, and these first distances never decrease. *)
Lemma fetch_first_distances (terminate : Token) (route : list RouteMapObject) :
  (forall p q : Pos, 0 <= meterToNm (distanceMeterTo p q)) ->
  neverSet terminate ->
  let legs := fetchRouteElevationsThread terminate route in
  let firsts := map (fun leg => hd 0 (distances leg)) (elevationLegs legs) in
  AdjacentPairs Qle firsts
  /\ Forall (fun q => 0 <= q /\ q <= totalDistance legs) firsts.
Proof.
  intros Hdist Hrun legs firsts.
  destruct (fetch_spec terminate route Hrun) as [[Hchain _ _ _] _].
  pose proof (fetch_sorted terminate route Hdist Hrun) as Hsorted.
  destruct (fetch_bounds terminate route Hdist Hrun) as [_ Hbounds].
  destruct (fetch_sound terminate route Hrun) as [Hsound _].
  fold legs in Hchain, Hsorted, Hbounds, Hsound.
  split.
  - apply AdjacentPairs_tail with (x := 0).
    eapply Chained_firsts; eassumption.
  - subst firsts. apply Forall_forall. intros q Hq.
    apply in_map_iff in Hq. destruct Hq as [leg [<- Hleg]].
    rewrite Forall_forall in Hbounds, Hsound.
    specialize (Hbounds leg Hleg). rewrite Forall_forall in Hbounds.
    destruct (Hsound leg Hleg) as [Hlen Hne].
    apply Hbounds. destruct (distances leg) as [|d ds]; [|left; reflexivity].
    destruct (elevation leg); [congruence | discriminate].
Qed.

(** X11.  For the profile of a run that is not cancelled, with distances
    that are never negative, a route of positive length and a widget at
    least as wide as its two margins, the waypoint pixels never decrease and
    all lie in the drawing area, from [X0] to [width - X0]: the range that
    the query searches is ordered. *)
Theorem waypoints_in_area (terminate : Token) (route : list RouteMapObject)
        (wd : Widget) (ps : ProjectionState) :
  (forall p q : Pos, 0 <= meterToNm (distanceMeterTo p q)) ->
  neverSet terminate ->
  (X0 * 2 <= rectWidth wd)%Z ->
  0 < totalDistance (fetchRouteElevationsThread terminate route) ->
  updateScreenCoords wd (fetchRouteElevationsThread terminate route) = Ok ps ->
  AdjacentPairs Z.le (waypointX ps)
  /\ forall x, In x (waypointX ps) -> (X0 <= x <= rectWidth wd - X0)%Z.
Proof.
  intros Hdist Hrun Hwide Htot Hupd.
  destruct (fetch_first_distances terminate route Hdist Hrun) as [Hap Hbounds].
  unfold updateScreenCoords in Hupd.
  set (legs := fetchRouteElevationsThread terminate route) in *.
  set (w := (rectWidth wd - X0 * 2)%Z) in *.
  set (hS := Num.ofInt w / totalDistance legs) in *.
  apply bind_Ok in Hupd. destruct Hupd as [r [Hproj Hps]].
  assert (Hwp : waypointX ps = fst r ++ [(X0 + w)%Z])
    by (injection Hps as <-; reflexivity).
  clear Hps. rewrite Hwp.
  destruct (projectLegs_result _ _ _ _ _ _ Hproj) as [Hw _].
  change (fst ([] : list Z, [mkPoint X0 (rectHeight wd - Y0 + Y0)]) ++ ?l) with l in Hw.
  rewrite Hw.
  rewrite <- (map_map (fun leg => hd 0 (distances leg))
                      (fun q => (X0 + Num.toInt (q * hS))%Z)).
  set (firsts := map (fun leg => hd 0 (distances leg)) (elevationLegs legs)) in *.
  assert (Hw0 : 0 <= Num.ofInt w).
  { unfold Num.ofInt, Qle. simpl. lia. }
  assert (Hs : 0 <= hS).
  { apply Qle_shift_div_l; [exact Htot|]. lra. }
  assert (Hfull : totalDistance legs * hS == Num.ofInt w).
  { apply Qmult_div_r. intro H0. rewrite H0 in Htot. discriminate Htot. }
  assert (Hpix : forall q, In q firsts ->
                           (0 <= Num.toInt (q * hS) <= w)%Z).
  { intros q Hq. rewrite Forall_forall in Hbounds.
    destruct (Hbounds q Hq) as [Hq0 Hq1].
    assert (Hq2 : 0 <= q * hS) by (apply Qmult_le_0_compat; assumption).
    split; [apply ToInt.nonneg, Hq2|].
    apply ToInt.below; [exact Hq2|].
    rewrite <- Hfull. apply Qmult_le_compat_r; assumption. }
  split.
  - apply AdjacentPairs_snoc.
    + apply AdjacentPairs_map_pixels; [exact Hs | | exact Hap].
      eapply Forall_impl; [|exact Hbounds]. intros q [Hq _]. exact Hq.
    + destruct (map _ firsts) as [|x0 l0] eqn:Emap; [left; reflexivity|].
      right. rewrite <- Emap.
      destruct (lastError (map (fun q => (X0 + Num.toInt (q * hS))%Z) firsts))
        as [p|] eqn:Elast.
      * exists p. split; [reflexivity|].
        apply lastError_In, in_map_iff in Elast.
        destruct Elast as [q [<- Hq]]. destruct (Hpix q Hq) as [_ Hle].
        apply Zplus_le_compat_l. exact Hle.
      * unfold lastError in Elast. apply nth_error_None in Elast.
        rewrite Emap in Elast. simpl in Elast. lia.
  - intros x Hx. apply in_app_or in Hx. destruct Hx as [Hx | [<- | []]].
    + apply in_map_iff in Hx. destruct Hx as [q [<- Hq]].
      specialize (Hpix q Hq). subst w. lia.
    + subst w. lia.
Qed.

End WaypointPixels.

Lemma waypoints_in_area_witness :
  exists ps,
    @updateScreenCoords Demo.hill Demo.widget Demo.hillProfile = Ok ps
    /\ AdjacentPairs Z.le (waypointX ps)
    /\ waypointX ps = [65; 365; 665]%Z.
Proof.
  destruct (@updateScreenCoords Demo.hill Demo.widget Demo.hillProfile)
    as [ps|] eqn:Hupd; [|vm_compute in Hupd; discriminate Hupd].
  destruct (@waypoints_in_area Demo.hill Demo.running Demo.route3 Demo.widget ps
              distance_nonneg_demo running_neverSet) as [Hap _];
    [vm_compute; discriminate | vm_compute; reflexivity | exact Hupd |].
  exists ps. split; [reflexivity|]. split; [exact Hap|].
  vm_compute in Hupd. injection Hupd as <-. reflexivity.
Defined.

(** ** More on the interactive query *)

Lemma lower_bound_at {A : Type} (lt : A -> A -> bool) (l : list A) (v : A) :
  forall m,
    (forall i e, (i < m)%nat -> nth_error l i = Some e -> lt e v = true) ->
    (forall e, nth_error l m = Some e -> lt e v = false) ->
    (m <= length l)%nat ->
    lower_bound lt l v = m.
Proof.
  induction l as [|x l IH]; intros m Hbefore Hat Hlen; simpl in *.
  - lia.
  - destruct m as [|m].
    + rewrite (Hat x eq_refl). reflexivity.
    + rewrite (Hbefore 0%nat x (Nat.lt_0_succ m) eq_refl).
      f_equal. apply IH.
      * intros i e Hi He. apply (Hbefore (S i) e); [lia | exact He].
      * intros e He. apply Hat. exact He.
      * lia.
Qed.

Lemma sorted_head_least (x : Z) (l : list Z) :
  AdjacentPairs Z.le (x :: l) -> forall y, In y l -> (x <= y)%Z.
Proof.
  revert x. induction l as [|z l IH]; intros x Hap y Hy; [contradiction|].
  inversion Hap; subst. destruct Hy as [<- | Hy]; [assumption|].
  specialize (IH z H3 y Hy). lia.
Qed.

Lemma sorted_nth_le (l : list Z) :
  AdjacentPairs Z.le l ->
  forall i k e a,
    (i <= k)%nat -> nth_error l i = Some e -> nth_error l k = Some a -> (e <= a)%Z.
Proof.
  induction l as [|x l IH]; intros Hap i k e a Hik He Ha.
  - destruct i; discriminate.
  - destruct i as [|i]; simpl in He.
    + injection He as <-. destruct k as [|k]; simpl in Ha.
      * injection Ha as <-. lia.
      * eapply sorted_head_least; [exact Hap | eapply nth_error_In, Ha].
    + destruct k as [|k]; [lia|]. simpl in Ha.
      eapply (IH (AdjacentPairs_tail _ _ _ Hap) i k); [lia | eassumption | eassumption].
Qed.

Section QueryMore.

Context {C : Collaborators}.

Local Open Scope Q_scope.

(** What an answer of the query is made of. *)
Lemma mouseMoveEvent_inv (wd : Widget) (legList : ElevationLegList)
      (ps : ProjectionState) (mouseX : Z) (info : ProfileInfo) :
  mouseMoveEvent wd legList ps mouseX = Ok (Some info) ->
  exists leg from to p1 p2,
    nth_error (elevationLegs legList) (legIndex (waypointX ps) (clampX wd mouseX))
    = Some leg
    /\ nth_error (routeMapObjects legList) (legIndex (waypointX ps) (clampX wd mouseX))
       = Some from
    /\ nth_error (routeMapObjects legList)
                 (legIndex (waypointX ps) (clampX wd mouseX) + 1) = Some to
    /\ In p1 (elevation leg)
    /\ In p2 (elevation leg)
    /\ infoFrom info = ident from
    /\ infoTo info = ident to
    /\ infoDistance info = Num.ofInt (clampX wd mouseX - X0) / horizScale ps
    /\ infoGroundAlt info = Qabs (altitude p1 + altitude p2) / 2
    /\ infoAboveGround info = flightplanAltFt ps - infoGroundAlt info
    /\ infoLegSafeAlt info = bufferedAltitude (maxElevation leg).
Proof.
  intro Hq. unfold mouseMoveEvent in Hq.
  destruct (elevationLegs legList) as [|leg0 legs0] eqn:Elegs; [discriminate|].
  rewrite <- Elegs in *. cbv zeta in Hq.
  apply bind_Ok in Hq. destruct Hq as [leg [Hleg Hq]].
  apply bind_Ok in Hq. destruct Hq as [from [Hfrom Hq]].
  apply bind_Ok in Hq. destruct Hq as [to [Hto Hq]].
  apply bind_Ok in Hq. destruct Hq as [p1 [Hp1 Hq]].
  apply bind_Ok in Hq. destruct Hq as [p2 [Hp2 Hq]].
  apply bind_Ok in Hq. destruct Hq as [d0 [_ Hq]].
  apply bind_Ok in Hq. destruct Hq as [d1 [_ Hq]].
  apply bind_Ok in Hq. destruct Hq as [e0 [_ Hq]].
  apply bind_Ok in Hq. destruct Hq as [e1 [_ Hq]].
  injection Hq as <-.
  apply at_Ok in Hleg, Hfrom, Hto, Hp1, Hp2.
  exists leg, from, to, p1, p2.
  split; [exact Hleg|]. split; [exact Hfrom|]. split; [exact Hto|].
  split; [eapply nth_error_In, Hp1|]. split; [eapply nth_error_In, Hp2|].
  repeat split.
Qed.

Lemma legIndex_between (wpx : list Z) (x : Z) (k : nat) (a b : Z) :
  AdjacentPairs Z.le wpx ->
  nth_error wpx k = Some a ->
  nth_error wpx (S k) = Some b ->
  (a < x <= b)%Z ->
  legIndex wpx x = k.
Proof.
  intros Hap Ha Hb Hx. unfold legIndex.
  assert (Hlen : (S k < length wpx)%nat) by (apply nth_error_Some; congruence).
  assert (Hlb : lower_bound Z.ltb wpx x = S k).
  { apply lower_bound_at.
    - intros i e Hi He. apply Z.ltb_lt.
      assert (e <= a)%Z by (eapply (sorted_nth_le wpx Hap i k); [lia | eassumption..]).
      lia.
    - intros e He. apply Z.ltb_ge. assert (e = b) by congruence. lia.
    - lia. }
  rewrite Hlb. replace (S k <? length wpx)%nat with true
    by (symmetry; apply Nat.ltb_lt; exact Hlen).
  lia.
Qed.

(** X12.  On the profile of a run that is not cancelled, with waypoint
    pixels that never decrease, a pixel right of the pixel of waypoint [k]
    and not right of the pixel of waypoint [k + 1] is answered with the leg
    from waypoint [k] to waypoint [k + 1]; the pixel of a waypoint itself
    belongs to the leg that ends there. *)
Theorem query_leg_between_waypoints (terminate : Token) (route : list RouteMapObject)
        (wd : Widget) (ps : ProjectionState) (mouseX : Z) (k : nat) (a b : Z) :
  neverSet terminate ->
  updateScreenCoords wd (fetchRouteElevationsThread terminate route) = Ok ps ->
  AdjacentPairs Z.le (waypointX ps) ->
  nth_error (waypointX ps) k = Some a ->
  nth_error (waypointX ps) (S k) = Some b ->
  (a < clampX wd mouseX <= b)%Z ->
  exists info from to,
    mouseMoveEvent wd (fetchRouteElevationsThread terminate route) ps mouseX
    = Ok (Some info)
    /\ nth_error route k = Some from
    /\ nth_error route (S k) = Some to
    /\ infoFrom info = ident from
    /\ infoTo info = ident to.
Proof.
  intros Hrun Hupd Hap Ha Hb Hx.
  destruct (updateScreenCoords_assembled terminate route wd Hrun) as [ps' [Hps' Hcons]].
  assert (ps' = ps) by congruence. subst ps'.
  pose proof (legIndex_between _ _ _ _ _ Hap Ha Hb Hx) as Hidx.
  assert (Hne : elevationLegs (fetchRouteElevationsThread terminate route) <> []).
  { intro Hempty. pose proof (cs_wpx _ _ Hcons) as Hlen. rewrite Hempty in Hlen.
    assert (S k < length (waypointX ps))%nat by (apply nth_error_Some; congruence).
    simpl in Hlen. lia. }
  destruct (mouseMoveEvent_answers wd _ ps mouseX Hcons Hne) as [info Hinfo].
  destruct (mouseMoveEvent_inv _ _ _ _ _ Hinfo)
    as [leg [from [to [p1 [p2 [_ [Hfrom [Hto [_ [_ [Hf [Ht _]]]]]]]]]]]].
  rewrite Hidx in Hfrom, Hto.
  destruct (fetch_spec terminate route Hrun) as [_ [Hrmo _]].
  rewrite Hrmo in Hfrom, Hto. replace (k + 1)%nat with (S k) in Hto by lia.
  exists info, from, to. repeat split; assumption.
Qed.

End QueryMore.

Lemma query_leg_between_waypoints_witness :
  exists ps info,
    @updateScreenCoords Demo.hill Demo.widget Demo.hillProfile = Ok ps
    /\ @mouseMoveEvent Demo.hill Demo.widget Demo.hillProfile ps 365 = Ok (Some info)
    /\ infoFrom info = "A"%string
    /\ infoTo info = "B"%string.
Proof.
  destruct (@updateScreenCoords Demo.hill Demo.widget Demo.hillProfile)
    as [ps|] eqn:Hupd; [|vm_compute in Hupd; discriminate Hupd].
  assert (Hwpx : waypointX ps = [65; 365; 665]%Z)
    by (vm_compute in Hupd; injection Hupd as <-; reflexivity).
  destruct (@query_leg_between_waypoints Demo.hill Demo.running Demo.route3
              Demo.widget ps 365 0 65 365 running_neverSet Hupd)
    as [info [from [to [Hq [Hf [Ht [Hif Hit]]]]]]].
  - rewrite Hwpx. repeat constructor; lia.
  - rewrite Hwpx. reflexivity.
  - rewrite Hwpx. reflexivity.
  - vm_compute. split; [reflexivity | discriminate].
  - exists ps, info. split; [reflexivity|]. split; [exact Hq|].
    simpl in Hf, Ht. injection Hf as <-. injection Ht as <-.
    split; [exact Hif | exact Hit].
Defined.

(** ** The thinning rule on the run *)

Section ThinningRule.

Context {C : Collaborators}.

Local Open Scope Q_scope.

Lemma dropSample_DropCondition (st : SampleState) (n j : nat) (pos : Pos) :
  dropSample st n j pos = true
  <-> DropCondition (length (elevationLegs (stLegs st))) n j (stLastPos st) pos.
Proof.
  unfold dropSample, DropCondition.
  rewrite !andb_true_iff, !negb_true_iff, !Nat.eqb_neq, Nat.ltb_lt,
    NumFacts.almostEqual_spec.
  tauto.
Qed.

(** From any state, the sample loop retains what the rule retains. *)
Lemma sampleFold_thinned (n : nat) (elev : list GeoDataCoordinates) :
  forall j st,
    exists kept,
      elevation (stLeg (sampleFold n j elev st)) = elevation (stLeg st) ++ kept
      /\ Thinned (length (elevationLegs (stLegs st))) n j (stLastPos st)
                 (map samplePos elev) kept.
Proof.
  induction elev as [|coord elev IH]; intros j st; cbn [sampleFold map].
  - exists []. rewrite app_nil_r. split; [reflexivity | constructor].
  - unfold sampleStep.
    destruct (dropSample st n j (samplePos coord)) eqn:Hdrop.
    + destruct (IH (S j) st) as [kept [Hel Hth]].
      exists kept. split; [exact Hel|].
      apply Thinned_drop; [apply dropSample_DropCondition, Hdrop | exact Hth].
    + destruct (IH (S j) (retainSample st j (samplePos coord))) as [kept [Hel Hth]].
      exists (samplePos coord :: kept).
      rewrite Hel, retainSample_elevation, <- app_assoc. split; [reflexivity|].
      rewrite retainSample_legs, retainSample_lastPos in Hth.
      apply Thinned_retain; [|exact Hth].
      intro Hcond. apply dropSample_DropCondition in Hcond. congruence.
Qed.

(** C1, as the code has it.  In a run that is not cancelled, leg [i] of the
    list belongs to the waypoints [i] and [i + 1] of the route and holds what
    the thinning retains of the terrain samples of their segment, taken from
    the first sample on with [i] legs accumulated and no position retained
    yet: a sample is dropped if and only if the last retained position is
    valid, the sample is neither the first nor the last of the segment, more
    than two legs (at least three) are accumulated, and its altitude is
    within ten feet of the altitude of the last retained sample; every other
    sample is retained and becomes the last retained sample. *)
Theorem thinning_rule (terminate : Token) (route : list RouteMapObject) (i : nat)
        (leg : ElevationLeg) :
  neverSet terminate ->
  nth_error (elevationLegs (fetchRouteElevationsThread terminate route)) i = Some leg ->
  exists a b,
    nth_error route i = Some a
    /\ nth_error route (S i) = Some b
    /\ Thinned i (length (segmentSamples a b)) 0 defaultPos
               (map samplePos (segmentSamples a b)) (elevation leg).
Proof.
  intros Hrun Hleg.
  destruct (fetch_leg_built terminate route i leg Hrun Hleg)
    as [a [b [legs0 [Ha [Hb [Hlen Hbuilt]]]]]].
  exists a, b. split; [exact Ha|]. split; [exact Hb|].
  destruct (sampleFold_thinned (length (segmentSamples a b)) (segmentSamples a b) 0
              (mkSampleState newLeg legs0 defaultPos)) as [kept [Hel Hth]].
  cbn [stLeg stLegs stLastPos elevation newLeg app] in Hel, Hth.
  rewrite Hbuilt, Hel. rewrite Hlen in Hth. exact Hth.
Qed.

End ThinningRule.

(** On the hill the fourth leg of the five-waypoint route loses its sample
    halfway, 6.562 ft above the first one: three legs are accumulated. *)
Lemma thinning_rule_witness :
  exists a b,
    nth_error Demo.route5 3 = Some a
    /\ nth_error Demo.route5 4 = Some b
    /\ length (@segmentSamples Demo.hill a b) = 3%nat
    /\ @Thinned Demo.hill 3 3 0 (@defaultPos Demo.hill)
                (map (@samplePos Demo.hill) (@segmentSamples Demo.hill a b))
                (elevation Demo.hillLeg4)
    /\ map altitude (elevation Demo.hillLeg4) = [328.100; 328.100]%Q.
Proof.
  destruct (@thinning_rule Demo.hill Demo.running Demo.route5 3 Demo.hillLeg4
              running_neverSet hillLeg4_built) as [a [b [Ha [Hb Hth]]]].
  exists a, b. split; [exact Ha|]. split; [exact Hb|].
  assert (Hlen : length (@segmentSamples Demo.hill a b) = 3%nat).
  { vm_compute in Ha, Hb. injection Ha as <-. injection Hb as <-. reflexivity. }
  split; [exact Hlen|]. rewrite Hlen in Hth. split; [exact Hth|].
  vm_compute. reflexivity.
Defined.

(** ** The pixel thinning on the polygon *)

Lemma skipn_nth_error {A : Type} (l : list A) :
  forall i x, nth_error l i = Some x -> skipn i l = x :: skipn (S i) l.
Proof.
  induction l as [|y l IH]; intros i x Hx.
  - destruct i; discriminate.
  - destruct i as [|i]; cbn in Hx.
    + injection Hx as <-. reflexivity.
    + cbn [skipn]. apply IH, Hx.
Qed.

Section PixelThinning.

Context {C : Collaborators}.

Variables (h : Z) (hScale vScale : Q).

(** From any index on, the loop over the samples of a leg appends what the
    rule appends, as long as [lastPt] is null exactly before the first
    sample. *)
Lemma polyLoop_kept (leg : ElevationLeg) (elev : list Pos) :
  forall i st r,
    polyLoop h hScale vScale leg i elev st = Ok r ->
    (i = 0%nat <-> isNull (snd st) = true) ->
    forallb (fun pt => negb (isNull pt))
            (map (fun dp => projectPoint h hScale vScale (fst dp) (snd dp))
                 (combine (skipn i (distances leg)) elev)) = true ->
    exists kept,
      fst r = fst st ++ kept
      /\ PixelsKept (length (elevation leg)) i (lastAppended (snd st))
                    (map (fun dp => projectPoint h hScale vScale (fst dp) (snd dp))
                         (combine (skipn i (distances leg)) elev))
                    kept.
Proof.
  induction elev as [|pos elev IH]; intros i st r Hrun Hfirst Hnn.
  - cbn [polyLoop] in Hrun. injection Hrun as <-.
    exists []. rewrite app_nil_r. split; [reflexivity|].
    destruct (skipn i (distances leg)); constructor.
  - cbn [polyLoop] in Hrun.
    apply bind_Ok in Hrun. destruct Hrun as [dist [Hdist Hrun]].
    apply at_Ok in Hdist.
    pose proof (skipn_nth_error _ _ _ Hdist) as Hskip.
    rewrite Hskip in *. cbn [combine map forallb fst snd] in *.
    apply andb_true_iff in Hnn. destruct Hnn as [Hpt Hnn].
    apply negb_true_iff in Hpt.
    set (pt := projectPoint h hScale vScale dist pos) in *.
    unfold polyStep in Hrun.
    destruct (appendPoint (snd st) (length (elevation leg)) i pt) eqn:Happ.
    + destruct (IH (S i) _ r Hrun) as [kept [Hr Hk]].
      { cbn [snd]. split; [discriminate | congruence]. }
      { exact Hnn. }
      exists (pt :: kept). cbn [fst snd] in Hr, Hk.
      rewrite Hr, <- app_assoc. split; [reflexivity|].
      unfold lastAppended in Hk at 1. rewrite Hpt in Hk.
      apply PixelsKept_append; [|exact Hk].
      unfold appendPoint in Happ. rewrite !orb_true_iff in Happ.
      destruct Happ as [[Hnull | Hlast] | Hfar].
      * left. apply Hfirst, Hnull.
      * right. left. apply Nat.eqb_eq, Hlast.
      * destruct (isNull (snd st)) eqn:Hnull.
        -- left. apply Hfirst. reflexivity.
        -- right. right. exists (snd st). unfold lastAppended. rewrite Hnull.
           split; [reflexivity | apply Z.ltb_lt, Hfar].
    + unfold appendPoint in Happ. rewrite !orb_false_iff in Happ.
      destruct Happ as [[Hnull Hlast] Hfar].
      destruct (IH (S i) st r Hrun) as [kept [Hr Hk]].
      { split; [discriminate | congruence]. }
      { exact Hnn. }
      exists kept. split; [exact Hr|].
      apply PixelsKept_skip; [|exact Hk].
      intros [H0 | [Hl | [l [Hsome Hl]]]].
      * apply Hfirst in H0. congruence.
      * apply Nat.eqb_neq in Hlast. contradiction.
      * unfold lastAppended in Hsome. rewrite Hnull in Hsome.
        injection Hsome as <-. apply Z.ltb_ge in Hfar. lia.
Qed.

(** The loop over the legs appends, leg by leg, what the rule appends. *)
Lemma projectLegs_kept (legs : list ElevationLeg) :
  forall st r,
    projectLegs h hScale vScale legs st = Ok r ->
    noNullPixel h hScale vScale legs = true ->
    exists keptPerLeg,
      snd r = snd st ++ concat keptPerLeg
      /\ Forall2 (fun leg kept =>
                    PixelsKept (length (elevation leg)) 0 None
                               (legPixels h hScale vScale leg) kept)
                 legs keptPerLeg.
Proof.
  induction legs as [|leg legs IH]; intros st r Hrun Hnn.
  - cbn [projectLegs] in Hrun. injection Hrun as <-.
    exists []. cbn [concat]. rewrite app_nil_r. split; [reflexivity | constructor].
  - cbn [projectLegs] in Hrun.
    apply bind_Ok in Hrun. destruct Hrun as [d0 [_ Hrun]].
    apply bind_Ok in Hrun. destruct Hrun as [r1 [Hleg Hrun]].
    unfold noNullPixel in Hnn. cbn [forallb] in Hnn.
    apply andb_true_iff in Hnn. destruct Hnn as [Hnn1 Hnn].
    destruct (polyLoop_kept leg (elevation leg) 0 (snd st, nullPoint) r1 Hleg)
      as [kept [Hr1 Hk]].
    { split; reflexivity. }
    { exact Hnn1. }
    destruct (IH _ r Hrun Hnn) as [keptPerLeg [Hr Hall]].
    exists (kept :: keptPerLeg). cbn [fst snd concat] in *.
    rewrite Hr, Hr1, <- app_assoc. split; [reflexivity|].
    constructor; [exact Hk | exact Hall].
Qed.

End PixelThinning.

Section PixelThinningTheorem.

Context {C : Collaborators}.

(** C3, as the code has it.  When the projector succeeds and no sample
    falls on the pixel (0, 0), the polygon is the lower left corner of the
    drawing area, then for every leg in turn what the pixel thinning appends
    of the pixels of its samples, then the lower right corner.  The thinning
    starts every leg with no point appended: the pixel of a sample is
    appended if and only if it is the first point of its leg, or the last
    point of its leg, or its Manhattan distance from the last point appended
    for its leg exceeds two pixels; every other pixel is left out. *)
Theorem silhouette_thinning (wd : Widget) (legList : ElevationLegList)
        (ps : ProjectionState) :
  updateScreenCoords wd legList = Ok ps ->
  noNullPixel (rectHeight wd - Y0) (horizScale ps) (vertScale ps)
              (elevationLegs legList) = true ->
  exists keptPerLeg,
    poly ps
    = [mkPoint X0 (rectHeight wd - Y0 + Y0)] ++ concat keptPerLeg
      ++ [mkPoint (X0 + (rectWidth wd - X0 * 2)) (rectHeight wd - Y0 + Y0)]
    /\ Forall2 (fun leg kept =>
                  PixelsKept (length (elevation leg)) 0 None
                             (legPixels (rectHeight wd - Y0) (horizScale ps)
                                        (vertScale ps) leg)
                             kept)
               (elevationLegs legList) keptPerLeg.
Proof.
  intros Hupd Hnn.
  unfold updateScreenCoords in Hupd. cbv zeta in Hupd.
  apply bind_Ok in Hupd. destruct Hupd as [r [Hproj Hps]].
  injection Hps as <-. cbn [poly horizScale vertScale] in *.
  destruct (projectLegs_kept _ _ _ _ _ r Hproj Hnn) as [keptPerLeg [Hr Hall]].
  exists keptPerLeg. cbn [snd] in Hr. rewrite Hr, <- app_assoc.
  split; [reflexivity | exact Hall].
Qed.

End PixelThinningTheorem.

(** On the hill profile of three waypoints every sample is appended: the
    samples of a leg lie 150 pixels apart, and the first sample of the
    second leg is appended on the pixel of the last sample of the first. *)
Lemma silhouette_thinning_witness :
  exists ps keptPerLeg,
    @updateScreenCoords Demo.hill Demo.widget Demo.hillProfile = Ok ps
    /\ poly ps = [mkPoint 65 414] ++ concat keptPerLeg ++ [mkPoint 665 414]
    /\ Forall2 (fun leg kept =>
                  PixelsKept (length (elevation leg)) 0 None
                             (legPixels 400 (horizScale ps) (vertScale ps) leg) kept)
               (elevationLegs Demo.hillProfile) keptPerLeg
    /\ poly ps
       = [mkPoint 65 414; mkPoint 65 400; mkPoint 215 400; mkPoint 365 400;
          mkPoint 365 400; mkPoint 515 400; mkPoint 665 400; mkPoint 665 414].
Proof.
  destruct (@updateScreenCoords Demo.hill Demo.widget Demo.hillProfile)
    as [ps|] eqn:Hupd; [|vm_compute in Hupd; discriminate Hupd].
  assert (Hnn : noNullPixel (rectHeight Demo.widget - Y0) (horizScale ps) (vertScale ps)
                            (elevationLegs Demo.hillProfile) = true).
  { vm_compute in Hupd. injection Hupd as <-. vm_compute. reflexivity. }
  destruct (@silhouette_thinning Demo.hill Demo.widget Demo.hillProfile ps Hupd Hnn)
    as [keptPerLeg [Hpoly Hall]].
  exists ps, keptPerLeg. split; [reflexivity|].
  split; [exact Hpoly|]. split; [exact Hall|].
  vm_compute in Hupd. injection Hupd as <-. reflexivity.
Defined.

(** ** Properties of the handlers *)

Import Handlers.

Section HandlerFacts.

Context {C : Collaborators}.

Local Open Scope Q_scope.

(** What [updateScreenCoords()] changes: the projection, nothing else. *)
Lemma reproject_Ok (st st' : State) :
  reproject st = Ok st' ->
  updateScreenCoords (env st) (legList st) = Ok (projection st')
  /\ env st' = env st /\ visible st' = visible st
  /\ terminateFlag st' = terminateFlag st /\ legList st' = legList st
  /\ aircraftDistanceFromStart st' = aircraftDistanceFromStart st.
Proof.
  unfold reproject. intro H. apply bind_Ok in H. destruct H as [ps [Hps H]].
  injection H as <-. rewrite Hps. repeat split.
Qed.

Lemma reproject_sound (st : State) :
  Forall SoundLeg (elevationLegs (legList st)) ->
  exists st',
    reproject st = Ok st'
    /\ length (waypointX (projection st')) = S (length (elevationLegs (legList st))).
Proof.
  intro Hs. unfold reproject, updateScreenCoords.
  match goal with
  | |- context [projectLegs ?h ?hs ?vs ?legs ?s0] =>
      destruct (projectLegs_in_range h hs vs legs Hs s0) as [r [Hr Hlen]]
  end.
  rewrite Hr. cbn [bind]. eexists. split; [reflexivity|].
  cbn [projection setProjection waypointX]. rewrite length_app, Hlen.
  cbn [fst length]. lia.
Qed.

(** The loop of [simDataChanged] stays inside the route and builds the sum
    over the waypoints it visits. *)
Lemma sumDistanceTo_spec (rc : RouteController) (count : nat) :
  forall i acc,
    (i + count <= length (getRouteMapObjects rc))%nat ->
    sumDistanceTo rc count i acc
    = Ok (fold_left (fun a rmo => a + getDistanceTo rc rmo)
                    (firstn count (skipn i (getRouteMapObjects rc))) acc).
Proof.
  induction count as [|count IH]; intros i acc Hlen.
  - reflexivity.
  - cbn [sumDistanceTo].
    destruct (at_in_range (getRouteMapObjects rc) i) as [rmo Hrmo]; [lia|].
    rewrite Hrmo. cbn [bind]. rewrite IH by lia.
    apply at_Ok in Hrmo.
    destruct (nth_error_split _ _ Hrmo) as [pre [post [Hsplit Hpre]]].
    assert (Hskip : skipn i (getRouteMapObjects rc) = rmo :: post).
    { rewrite Hsplit, <- Hpre, skipn_app, skipn_all, Nat.sub_diag. reflexivity. }
    assert (Hskip' : skipn (S i) (getRouteMapObjects rc) = post).
    { replace (S i) with (1 + i)%nat by lia.
      rewrite <- skipn_skipn, Hskip. reflexivity. }
    rewrite Hskip, Hskip'. reflexivity.
Qed.

Lemma hidden_handle (e : Event) (st st' : State) (effs : list Effect) :
  visible st = false ->
  e <> ShowEvent ->
  handle e st = Ok (st', effs) ->
  visible st' = false /\ legList st' = legList st
  /\ terminateFlag st' = terminateFlag st
  /\ Forall (eq Repaint) effs
  /\ (schedulerEvent e = true -> st' = st /\ effs = []).
Proof.
  intros Hv Hshow Hh.
  assert (Hre : forall s s1, reproject s = Ok s1 ->
                  visible s1 = visible s /\ legList s1 = legList s
                  /\ terminateFlag s1 = terminateFlag s).
  { intros s s1 Hr. destruct (reproject_Ok _ _ Hr) as [_ [_ [Hv1 [Ht1 [Hl1 _]]]]].
    repeat split; assumption. }
  destruct e; cbn [handle] in Hh; try congruence.
  - injection Hh as <- <-.
    split; [exact Hv|]. split; [reflexivity|]. split; [reflexivity|].
    split; [constructor|]. intro Hx; discriminate Hx.
  - unfold routeChanged in Hh. rewrite Hv in Hh. injection Hh as <- <-.
    repeat split; try assumption; constructor.
  - unfold updateElevation in Hh. rewrite Hv in Hh. injection Hh as <- <-.
    repeat split; try assumption; constructor.
  - unfold updateTimeout in Hh. rewrite Hv in Hh. injection Hh as <- <-.
    repeat split; try assumption; constructor.
  - unfold updateFinished in Hh. rewrite Hv in Hh. injection Hh as <- <-.
    repeat split; try assumption; constructor.
  - injection Hh as <- <-.
    split; [reflexivity|]. split; [reflexivity|]. split; [reflexivity|].
    split; [constructor|]. intro Hx; discriminate Hx.
  - unfold resizeEvent in Hh. apply bind_Ok in Hh. destruct Hh as [s1 [Hr Hh]].
    injection Hh as <- <-.
    destruct (Hre _ _ Hr) as [Hv1 [Hl1 Ht1]].
    split; [congruence|]. split; [exact Hl1|]. split; [exact Ht1|].
    split; [constructor|]. intro Hx; discriminate Hx.
  - unfold disconnectedFromSimulator in Hh.
    apply bind_Ok in Hh. destruct Hh as [s1 [Hr Hh]].
    injection Hh as <- <-.
    destruct (Hre _ _ Hr) as [Hv1 [Hl1 Ht1]].
    split; [rewrite Hv1; exact Hv|]. split; [exact Hl1|]. split; [exact Ht1|].
    split; [repeat constructor|]. intro Hx; discriminate Hx.
  - unfold simDataChanged in Hh.
    destruct (aircraftShown (env st) && negb (flightplanEmpty (env st))).
    + cbv zeta in Hh.
      destruct (nearestLegIndex rc simulatorPos =? -1)%Z.
      * injection Hh as <- <-.
        split; [exact Hv|]. split; [reflexivity|]. split; [reflexivity|].
        split; [constructor|]. intro Hx; discriminate Hx.
      * apply bind_Ok in Hh. destruct Hh as [total [_ Hh]].
        apply bind_Ok in Hh. destruct Hh as [rmo [_ Hh]].
        match type of Hh with
        | (if ?b then _ else _) = _ => destruct b
        end.
        -- apply bind_Ok in Hh. destruct Hh as [s3 [Hr Hh]].
           injection Hh as <- <-.
           destruct (Hre _ _ Hr) as [Hv1 [Hl1 Ht1]].
           split; [rewrite Hv1; exact Hv|]. split; [exact Hl1|]. split; [exact Ht1|].
           split; [repeat constructor|]. intro Hx; discriminate Hx.
        -- injection Hh as <- <-.
           split; [exact Hv|]. split; [reflexivity|]. split; [reflexivity|].
           split; [repeat constructor|]. intro Hx; discriminate Hx.
    + injection Hh as <- <-.
      split; [exact Hv|]. split; [reflexivity|]. split; [reflexivity|].
      split; [destruct (isValid (simPosition (env st))); repeat constructor|].
      intro Hx; discriminate Hx.
Qed.

Lemma run_Ok_cons (e : Event) (events : list Event) (st st' : State)
      (effs : list Effect) :
  run (e :: events) st = Ok (st', effs) ->
  exists s1 e1 e2,
    handle e st = Ok (s1, e1) /\ run events s1 = Ok (st', e2) /\ effs = e1 ++ e2.
Proof.
  cbn [run]. intro H.
  apply bind_Ok in H. destruct H as [[s1 e1] [H1 H]].
  apply bind_Ok in H. destruct H as [[s2 e2] [H2 H]].
  cbn [fst snd] in *. injection H as <- <-.
  exists s1, e1, e2. repeat split; assumption.
Qed.

Lemma run_app (pre post : list Event) :
  forall st,
    run (pre ++ post) st
    = (r1 <- run pre st ;; r2 <- run post (fst r1) ;; Ok (fst r2, snd r1 ++ snd r2)).
Proof.
  induction pre as [|e pre IH]; intro st.
  - cbn [run app bind fst snd]. destruct (run post st) as [[s2 e2]|]; reflexivity.
  - cbn [run app]. destruct (handle e st) as [[s1 e1]|]; cbn [bind fst snd]; [|reflexivity].
    rewrite IH. destruct (run pre s1) as [[s2 e2]|]; cbn [bind fst snd]; [|reflexivity].
    destruct (run post s2) as [[s3 e3]|]; cbn [bind fst snd]; [|reflexivity].
    rewrite app_assoc. reflexivity.
Qed.

(** No handler leaves the cancellation flag set. *)
Lemma handle_terminate (e : Event) (st st' : State) (effs : list Effect) :
  terminateFlag st = false ->
  handle e st = Ok (st', effs) ->
  terminateFlag st' = false.
Proof.
  intros Ht Hh.
  destruct e; cbn [handle] in Hh.
  - injection Hh as <- <-. exact Ht.
  - unfold routeChanged in Hh. destruct (negb (visible st)); [congruence|].
    destruct geometryChanged; [congruence|].
    apply bind_Ok in Hh. destruct Hh as [s1 [Hr Hh]]. injection Hh as <- <-.
    destruct (reproject_Ok _ _ Hr) as [_ [_ [_ [Ht1 _]]]]. congruence.
  - unfold updateElevation in Hh. destruct (negb (visible st)); congruence.
  - unfold updateTimeout in Hh. destruct (negb (visible st)); [congruence|].
    injection Hh as <- <-. reflexivity.
  - unfold updateFinished in Hh. destruct (negb (visible st)); [congruence|].
    rewrite Ht in Hh.
    apply bind_Ok in Hh. destruct Hh as [s1 [Hr Hh]]. injection Hh as <- <-.
    destruct (reproject_Ok _ _ Hr) as [_ [_ [_ [Ht1 _]]]]. cbn in Ht1. congruence.
  - injection Hh as <- <-. exact Ht.
  - injection Hh as <- <-. exact Ht.
  - unfold resizeEvent in Hh.
    apply bind_Ok in Hh. destruct Hh as [s1 [Hr Hh]]. injection Hh as <- <-.
    destruct (reproject_Ok _ _ Hr) as [_ [_ [_ [Ht1 _]]]]. congruence.
  - unfold disconnectedFromSimulator in Hh.
    apply bind_Ok in Hh. destruct Hh as [s1 [Hr Hh]]. injection Hh as <- <-.
    destruct (reproject_Ok _ _ Hr) as [_ [_ [_ [Ht1 _]]]]. cbn in Ht1. congruence.
  - unfold simDataChanged in Hh.
    destruct (aircraftShown (env st) && negb (flightplanEmpty (env st))).
    + cbv zeta in Hh.
      destruct (nearestLegIndex rc simulatorPos =? -1)%Z.
      * injection Hh as <- <-. exact Ht.
      * apply bind_Ok in Hh. destruct Hh as [total [_ Hh]].
        apply bind_Ok in Hh. destruct Hh as [rmo [_ Hh]].
        match type of Hh with
        | (if ?b then _ else _) = _ => destruct b
        end.
        -- apply bind_Ok in Hh. destruct Hh as [s3 [Hr Hh]].
           injection Hh as <- <-.
           destruct (reproject_Ok _ _ Hr) as [_ [_ [_ [Ht1 _]]]].
           cbn in Ht1. congruence.
        -- injection Hh as <- <-. exact Ht.
    + injection Hh as <- <-. exact Ht.
Qed.

Lemma run_terminate (events : list Event) :
  forall st st' effs,
    terminateFlag st = false ->
    run events st = Ok (st', effs) ->
    terminateFlag st' = false.
Proof.
  induction events as [|e events IH]; intros st st' effs Ht Hrun.
  - injection Hrun as <- <-. exact Ht.
  - destruct (run_Ok_cons _ _ _ _ _ Hrun) as [s1 [e1 [e2 [H1 [H2 _]]]]].
    eapply IH; [|exact H2]. eapply handle_terminate; eassumption.
Qed.

(** From members that fit each other the projector stays in range and
    leaves members that fit each other. *)
Lemma InRange_sound (st : State) :
  InRange st ->
  Forall SoundLeg (elevationLegs (legList st))
  /\ (elevationLegs (legList st) <> [] ->
      length (routeMapObjects (legList st)) = S (length (elevationLegs (legList st)))).
Proof.
  intros [Hempty | [Hs Hr _]].
  - rewrite Hempty. split; [constructor | congruence].
  - split; assumption.
Qed.

Lemma reproject_InRange (st : State) :
  Forall SoundLeg (elevationLegs (legList st)) ->
  (elevationLegs (legList st) <> [] ->
   length (routeMapObjects (legList st)) = S (length (elevationLegs (legList st)))) ->
  exists st', reproject st = Ok st' /\ InRange st'.
Proof.
  intros Hs Hr.
  destruct (reproject_sound st Hs) as [st' [Hre Hlen]].
  exists st'. split; [exact Hre|].
  destruct (reproject_Ok _ _ Hre) as [_ [_ [_ [_ [Hl _]]]]].
  right. constructor; rewrite Hl; assumption.
Qed.

Lemma InRange_same (st st' : State) :
  legList st' = legList st -> projection st' = projection st ->
  InRange st -> InRange st'.
Proof. unfold InRange. intros -> ->. exact (fun H => H). Qed.

Lemma simDataChanged_in_range (rc : RouteController) (pos : Pos) (st : State) :
  (0 <= nearestLegIndex rc pos)%Z ->
  getRouteMapObjects rc <> [] ->
  (clampedIndex rc (nearestLegIndex rc pos) < length (getRouteMapObjects rc))%nat
  /\ (if (Z.of_nat (length (getRouteMapObjects rc)) <=? nearestLegIndex rc pos)%Z
      then (Z.of_nat (length (getRouteMapObjects rc)) - 1)%Z
      else nearestLegIndex rc pos)
     = Z.of_nat (clampedIndex rc (nearestLegIndex rc pos)).
Proof.
  intros Hn Hne. unfold clampedIndex.
  assert (Hpos : (0 < length (getRouteMapObjects rc))%nat).
  { destruct (getRouteMapObjects rc); [congruence | simpl; lia]. }
  split.
  - lia.
  - destruct (Z.leb_spec (Z.of_nat (length (getRouteMapObjects rc)))
                         (nearestLegIndex rc pos)); lia.
Qed.

(** [simDataChanged] on an aircraft that is shown over a flight plan, with a
    nearest leg of the route. *)
Lemma simDataChanged_shown (rc : RouteController) (pos : Pos) (st : State) :
  aircraftShown (env st) = true ->
  flightplanEmpty (env st) = false ->
  (0 <= nearestLegIndex rc pos)%Z ->
  getRouteMapObjects rc <> [] ->
  exists rmo,
    nth_error (getRouteMapObjects rc) (clampedIndex rc (nearestLegIndex rc pos))
    = Some rmo
    /\ simDataChanged rc pos st
       = let st2 := setAircraftDistance
                      (setEnv st (setSimPosition (env st) pos))
                      (distanceToWaypoint rc (S (clampedIndex rc (nearestLegIndex rc pos)))
                       - meterToNm (distanceMeterTo (position rmo) pos)) in
         if Num.ltb (maxHeight (projection st)) (altitude pos)
         then st3 <- reproject st2 ;; Ok (st3, [Repaint])
         else Ok (st2, [Repaint]).
Proof.
  intros Hshown Hplan Hn Hne.
  destruct (simDataChanged_in_range rc pos st Hn Hne) as [Hlt Hidx].
  destruct (at_in_range (getRouteMapObjects rc) _ Hlt) as [rmo Hrmo].
  exists rmo. split; [apply at_Ok, Hrmo|].
  unfold simDataChanged. rewrite Hshown, Hplan. cbn [negb andb]. cbv zeta.
  destruct (Z.eqb_spec (nearestLegIndex rc pos) (-1)) as [E|_]; [lia|].
  rewrite Hidx.
  replace (Z.to_nat (Z.of_nat (clampedIndex rc (nearestLegIndex rc pos)) + 1))
    with (S (clampedIndex rc (nearestLegIndex rc pos))) by lia.
  rewrite sumDistanceTo_spec by (cbn [Nat.add]; lia).
  cbn [bind]. unfold atInt.
  destruct (Z.ltb_spec (Z.of_nat (clampedIndex rc (nearestLegIndex rc pos))) 0) as [E|_];
    [lia|].
  rewrite Nat2Z.id, Hrmo. cbn [bind]. reflexivity.
Qed.

(** Every handler keeps the members fitting each other, given what the
    events carry. *)
Lemma handle_InRange (e : Event) (st : State) :
  InRange st ->
  WellFormed e ->
  exists st' effs, handle e st = Ok (st', effs) /\ InRange st'.
Proof.
  intros Hin Hwf.
  destruct (InRange_sound st Hin) as [Hs Hr].
  destruct e; cbn [handle].
  - eexists _, _. split; [reflexivity|]. exact Hin.
  - unfold routeChanged. destruct (negb (visible st)).
    { eexists _, _. split; [reflexivity | exact Hin]. }
    destruct geometryChanged.
    { eexists _, _. split; [reflexivity | exact Hin]. }
    destruct (reproject_InRange st Hs Hr) as [st' [Hre Hin']].
    rewrite Hre. cbn [bind]. eexists _, _. split; [reflexivity | exact Hin'].
  - unfold updateElevation. destruct (negb (visible st));
      eexists _, _; (split; [reflexivity | exact Hin]).
  - unfold updateTimeout. destruct (negb (visible st));
      eexists _, _; (split; [reflexivity | exact Hin]).
  - unfold updateFinished. destruct (negb (visible st)).
    { eexists _, _. split; [reflexivity | exact Hin]. }
    destruct (terminateFlag st).
    { eexists _, _. split; [reflexivity | exact Hin]. }
    destruct Hwf as [terminate [route [Hrun ->]]].
    destruct (fetch_sound terminate route Hrun) as [Hs' Hr'].
    destruct (reproject_InRange
                (setLegList st (fetchRouteElevationsThread terminate route)) Hs' Hr')
      as [st' [Hre Hin']].
    rewrite Hre. cbn [bind]. eexists _, _. split; [reflexivity | exact Hin'].
  - eexists _, _. split; [reflexivity | exact Hin].
  - eexists _, _. split; [reflexivity | exact Hin].
  - unfold resizeEvent.
    destruct (reproject_InRange st Hs Hr) as [st' [Hre Hin']].
    rewrite Hre. cbn [bind]. eexists _, _. split; [reflexivity | exact Hin'].
  - unfold disconnectedFromSimulator.
    destruct (reproject_InRange (setEnv st (setSimPosition (env st) defaultPos)) Hs Hr)
      as [st' [Hre Hin']].
    rewrite Hre. cbn [bind]. eexists _, _. split; [reflexivity | exact Hin'].
  - destruct (aircraftShown (env st) && negb (flightplanEmpty (env st))) eqn:Eshown.
    + destruct Hwf as [Hnone | [Hn Hne]].
      * unfold simDataChanged. rewrite Eshown. cbv zeta. rewrite Hnone.
        cbn [Z.eqb Pos.eqb]. eexists _, _. split; [reflexivity | exact Hin].
      * apply andb_true_iff in Eshown. destruct Eshown as [Hshown Hplan].
        apply negb_true_iff in Hplan.
        destruct (simDataChanged_shown rc simulatorPos st Hshown Hplan Hn Hne)
          as [rmo [_ Heq]].
        rewrite Heq. cbv zeta.
        destruct (Num.ltb (maxHeight (projection st)) (altitude simulatorPos)).
        -- match goal with
           | |- context [reproject ?s] =>
               destruct (reproject_InRange s Hs Hr) as [st' [Hre Hin']]
           end.
           rewrite Hre. cbn [bind]. eexists _, _. split; [reflexivity | exact Hin'].
        -- eexists _, _. split; [reflexivity | exact Hin].
    + unfold simDataChanged. rewrite Eshown.
      eexists _, _. split; [reflexivity | exact Hin].
Qed.

End HandlerFacts.

Section HandlerTheorems.

Context {C : Collaborators}.

Local Open Scope Q_scope.

(** X15.  While the widget is hidden and until it is shown, no handler
    starts the timer or the worker and none installs a profile: after any
    events other than the show event the widget is still hidden, its list of
    legs and its cancellation flag are what they were, and the only effect
    asked for is a repaint; the events of the scheduler (route change,
    terrain update, timer, end of the worker) change nothing at all. *)
Theorem hidden_widget_starts_no_worker (events : list Event) (st st' : State)
        (effs : list Effect) :
  visible st = false ->
  Forall (fun e => e <> ShowEvent) events ->
  run events st = Ok (st', effs) ->
  visible st' = false
  /\ legList st' = legList st
  /\ terminateFlag st' = terminateFlag st
  /\ Forall (eq Repaint) effs
  /\ (forallb schedulerEvent events = true -> st' = st /\ effs = []).
Proof.
  intros Hv Hall. revert st st' effs Hv.
  induction Hall as [|e events He Hall IH]; intros st st' effs Hv Hrun.
  - injection Hrun as <- <-. repeat split; try assumption; constructor.
  - destruct (run_Ok_cons _ _ _ _ _ Hrun) as [s1 [e1 [e2 [H1 [H2 ->]]]]].
    destruct (hidden_handle e st s1 e1 Hv He H1) as [Hv1 [Hl1 [Ht1 [Hf1 Hs1]]]].
    destruct (IH s1 st' e2 Hv1 H2) as [Hv2 [Hl2 [Ht2 [Hf2 Hs2]]]].
    split; [exact Hv2|]. split; [congruence|]. split; [congruence|].
    split; [apply Forall_app; split; assumption|].
    cbn [forallb]. intro Hb. apply andb_true_iff in Hb. destruct Hb as [Hb1 Hb2].
    destruct (Hs1 Hb1) as [-> ->]. destruct (Hs2 Hb2) as [-> ->].
    split; reflexivity.
Qed.

(** X16.  When the simulator reports a valid position for an aircraft that
    is shown over a flight plan and the route controller finds a nearest leg,
    [simDataChanged] stores the position, asks for one repaint and leaves a
    projection whose axis top is at least the altitude of the aircraft and
    not below the axis top it found: the handler raises the axis, it never
    lowers it. *)
Theorem sim_data_raises_axis_top (rc : RouteController) (pos : Pos)
        (st st' : State) (effs : list Effect) :
  aircraftShown (env st) = true ->
  flightplanEmpty (env st) = false ->
  nearestLegIndex rc pos <> (-1)%Z ->
  isValid pos = true ->
  simDataChanged rc pos st = Ok (st', effs) ->
  simPosition (env st') = pos
  /\ effs = [Repaint]
  /\ altitude pos <= maxHeight (projection st')
  /\ maxHeight (projection st) <= maxHeight (projection st').
Proof.
  intros Hshown Hplan Hn Hvalid Hsim.
  unfold simDataChanged in Hsim. rewrite Hshown, Hplan in Hsim.
  cbn [negb andb] in Hsim. cbv zeta in Hsim.
  destruct (Z.eqb_spec (nearestLegIndex rc pos) (-1)) as [E|_]; [congruence|].
  apply bind_Ok in Hsim. destruct Hsim as [total [_ Hsim]].
  apply bind_Ok in Hsim. destruct Hsim as [rmo [_ Hsim]].
  cbn [projection setAircraftDistance setEnv] in Hsim.
  destruct (Num.ltb (maxHeight (projection st)) (altitude pos)) eqn:Elt.
  - apply bind_Ok in Hsim. destruct Hsim as [s3 [Hre Hsim]].
    injection Hsim as <- <-.
    destruct (reproject_Ok _ _ Hre) as [Hupd [Henv _]].
    rewrite Henv. cbn [env setAircraftDistance setEnv simPosition setSimPosition].
    split; [reflexivity|]. split; [reflexivity|].
    cbn [env legList setAircraftDistance setEnv] in Hupd.
    unfold updateScreenCoords in Hupd.
    apply bind_Ok in Hupd. destruct Hupd as [r [_ Hps]].
    injection Hps as Hps. rewrite <- Hps. cbn [maxHeight].
    unfold axisTop.
    cbn [simPosition setSimPosition aircraftShown flightplanEmpty].
    rewrite Hvalid, Hshown, Hplan. cbn [negb andb].
    apply NumFacts.ltb_lt in Elt.
    match goal with
    | |- _ <= Num.fmax ?a ?b /\ _ => pose proof (NumFacts.fmax_ge_r a b) as Hge
    end.
    split; [exact Hge|]. apply Qlt_le_weak. eapply Qlt_le_trans; eassumption.
  - injection Hsim as <- <-.
    cbn [env projection setAircraftDistance setEnv simPosition setSimPosition].
    split; [reflexivity|]. split; [reflexivity|].
    apply NumFacts.ltb_ge in Elt. split; [exact Elt | apply Qle_refl].
Qed.

(** X17.  For an aircraft that is shown over a flight plan, a nearest leg
    index that is not negative and a route with waypoints, [simDataChanged]
    stays inside the list of waypoints when the legs of the profile are
    sound: an index beyond the route is taken as the last waypoint, and the
    distance of the aircraft from the start becomes the sum of the leg
    lengths of the waypoints up to that index, less the distance in nautical
    miles from that waypoint to the aircraft.  The list of legs is not
    touched. *)
Theorem sim_data_distance_from_start (rc : RouteController) (pos : Pos) (st : State) :
  aircraftShown (env st) = true ->
  flightplanEmpty (env st) = false ->
  (0 <= nearestLegIndex rc pos)%Z ->
  getRouteMapObjects rc <> [] ->
  Forall SoundLeg (elevationLegs (legList st)) ->
  exists st' rmo,
    simDataChanged rc pos st = Ok (st', [Repaint])
    /\ (clampedIndex rc (nearestLegIndex rc pos) < length (getRouteMapObjects rc))%nat
    /\ nth_error (getRouteMapObjects rc) (clampedIndex rc (nearestLegIndex rc pos))
       = Some rmo
    /\ aircraftDistanceFromStart st'
       = distanceToWaypoint rc (S (clampedIndex rc (nearestLegIndex rc pos)))
         - meterToNm (distanceMeterTo (position rmo) pos)
    /\ legList st' = legList st.
Proof.
  intros Hshown Hplan Hn Hne Hs.
  destruct (simDataChanged_shown rc pos st Hshown Hplan Hn Hne) as [rmo [Hrmo Heq]].
  destruct (simDataChanged_in_range rc pos st Hn Hne) as [Hlt _].
  rewrite Heq. cbv zeta.
  destruct (Num.ltb (maxHeight (projection st)) (altitude pos)).
  - match goal with
    | |- context [reproject ?s] =>
        destruct (reproject_sound s Hs) as [st' [Hre _]]
    end.
    rewrite Hre. cbn [bind].
    destruct (reproject_Ok _ _ Hre) as [_ [_ [_ [_ [Hl Hd]]]]].
    exists st', rmo. split; [reflexivity|]. split; [exact Hlt|].
    split; [exact Hrmo|]. split; [exact Hd | exact Hl].
  - eexists _, rmo. split; [reflexivity|]. split; [exact Hlt|].
    split; [exact Hrmo|]. split; reflexivity.
Qed.

(** X18.  From members that fit each other (no legs yet, or a profile and
    a projection that are consistent), no sequence of events makes a handler
    index a container out of range, provided every result handed over by the
    worker comes from a run that was not cancelled and every nearest leg
    index is -1 or a leg of a route with waypoints.  The members fit each
    other afterwards as well, and the mouse query on them stays in range for
    every pixel. *)
Theorem handlers_stay_in_range (events : list Event) (st : State) :
  InRange st ->
  Forall WellFormed events ->
  exists st' effs,
    run events st = Ok (st', effs)
    /\ InRange st'
    /\ forall mouseX,
         mouseMoveEvent (env st') (legList st') (projection st') mouseX <> OutOfRange.
Proof.
  intros Hin Hall. revert st Hin.
  induction Hall as [|e events He Hall IH]; intros st Hin.
  - exists st, []. split; [reflexivity|]. split; [exact Hin|].
    intro mouseX. destruct Hin as [Hempty | Hcons].
    + unfold mouseMoveEvent. rewrite Hempty. discriminate.
    + destruct (elevationLegs (legList st)) as [|leg0 legs0] eqn:Elegs.
      * unfold mouseMoveEvent. rewrite Elegs. discriminate.
      * destruct (mouseMoveEvent_answers (env st) (legList st) (projection st)
                                         mouseX Hcons) as [info Hq].
        { rewrite Elegs. discriminate. }
        rewrite Hq. discriminate.
  - destruct (handle_InRange e st Hin He) as [s1 [e1 [H1 Hin1]]].
    destruct (IH s1 Hin1) as [st' [e2 [H2 [Hin2 Hq]]]].
    exists st', (e1 ++ e2). split; [|split; assumption].
    cbn [run]. rewrite H1. cbn [bind fst snd]. rewrite H2. reflexivity.
Qed.

(** X19.  No handler leaves the cancellation flag set, so a result of the
    worker that arrives while the widget is visible is always installed:
    after any events from a state with the flag clear, [updateFinished] on a
    visible widget with a result of sound legs makes the result the list of
    legs, projects it with the current environment and asks for one
    repaint. *)
Theorem finished_result_is_installed (events : list Event) (st st1 : State)
        (effs : list Effect) (result : ElevationLegList) :
  terminateFlag st = false ->
  run events st = Ok (st1, effs) ->
  visible st1 = true ->
  Forall SoundLeg (elevationLegs result) ->
  exists st2,
    updateFinished result st1 = Ok (st2, [Repaint])
    /\ legList st2 = result
    /\ updateScreenCoords (env st1) result = Ok (projection st2)
    /\ terminateFlag st2 = false.
Proof.
  intros Ht Hrun Hv Hs.
  pose proof (run_terminate events st st1 effs Ht Hrun) as Ht1.
  unfold updateFinished. rewrite Hv, Ht1. cbn [negb].
  destruct (reproject_sound (setLegList st1 result) Hs) as [st2 [Hre _]].
  rewrite Hre. cbn [bind].
  destruct (reproject_Ok _ _ Hre) as [Hupd [_ [_ [Ht2 [Hl _]]]]].
  exists st2. split; [reflexivity|]. split; [exact Hl|].
  split; [exact Hupd|]. cbn in Ht2. congruence.
Qed.

End HandlerTheorems.

(** ** Runs of the handlers on the demo widget *)

Lemma hidden_widget_starts_no_worker_witness :
  exists st' effs,
    @run Demo.hill [RouteChanged true; UpdateElevation; UpdateTimeout false;
                    UpdateFinished Demo.hillProfile; ResizeEvent;
                    SimDataChanged controller (mkPos 0 1 5000)]
         (hidden widgetWithAircraft) = Ok (st', effs)
    /\ visible st' = false
    /\ legList st' = noResult
    /\ Forall (eq Repaint) effs.
Proof.
  destruct (@run Demo.hill [RouteChanged true; UpdateElevation; UpdateTimeout false;
                            UpdateFinished Demo.hillProfile; ResizeEvent;
                            SimDataChanged controller (mkPos 0 1 5000)]
                 (hidden widgetWithAircraft))
    as [[st' effs]|] eqn:Hrun; [|vm_compute in Hrun; discriminate Hrun].
  destruct (@hidden_widget_starts_no_worker Demo.hill
              [RouteChanged true; UpdateElevation; UpdateTimeout false;
               UpdateFinished Demo.hillProfile; ResizeEvent;
               SimDataChanged controller (mkPos 0 1 5000)]
              (hidden widgetWithAircraft) st' effs)
    as [Hv [Hl [_ [Hf _]]]];
    [reflexivity | repeat constructor; discriminate | exact Hrun |].
  exists st', effs. split; [reflexivity|]. split; [exact Hv|].
  split; [exact Hl | exact Hf].
Defined.

Lemma sim_data_raises_axis_top_witness :
  exists st',
    @simDataChanged Demo.hill controller (mkPos (1 # 2) 0 12000) shownWithHill
    = Ok (st', [Repaint])
    /\ (12000 <= maxHeight (projection st'))%Q
    /\ (maxHeight (projection shownWithHill) <= maxHeight (projection st'))%Q.
Proof.
  destruct (@simDataChanged Demo.hill controller (mkPos (1 # 2) 0 12000) shownWithHill)
    as [[st' effs]|] eqn:Hsim; [|vm_compute in Hsim; discriminate Hsim].
  destruct (@sim_data_raises_axis_top Demo.hill controller (mkPos (1 # 2) 0 12000)
              shownWithHill st' effs)
    as [_ [He [H1 H2]]].
  - vm_compute. reflexivity.
  - vm_compute. reflexivity.
  - vm_compute. intro Hx. discriminate Hx.
  - vm_compute. reflexivity.
  - exact Hsim.
  - exists st'. rewrite He. split; [reflexivity|]. split; [exact H1 | exact H2].
Defined.

Lemma sim_data_distance_from_start_witness :
  exists st',
    @simDataChanged Demo.hill controller (mkPos (5 # 2) 7 3000) shownWithHill
    = Ok (st', [Repaint])
    /\ clampedIndex controller 7 = 2%nat
    /\ (aircraftDistanceFromStart st' == -270)%Q.
Proof.
  destruct (@sim_data_distance_from_start Demo.hill controller (mkPos (5 # 2) 7 3000)
              shownWithHill)
    as [st' [rmo [Hsim [_ [Hrmo [Hd _]]]]]].
  - vm_compute. reflexivity.
  - vm_compute. reflexivity.
  - vm_compute. intro Hx. discriminate Hx.
  - discriminate.
  - replace (legList shownWithHill) with Demo.hillProfile by (vm_compute; reflexivity).
    apply (@fetch_sound Demo.hill Demo.running Demo.route3 running_neverSet).
  - exists st'. split; [exact Hsim|]. split; [reflexivity|].
    vm_compute in Hrmo. injection Hrmo as <-.
    rewrite Hd. vm_compute. reflexivity.
Defined.

Lemma handlers_stay_in_range_witness :
  exists st' effs,
    @run Demo.hill [ShowEvent; UpdateTimeout false; UpdateFinished Demo.hillProfile;
                    SimDataChanged controller (mkPos (1 # 2) 0 12000);
                    Environment Demo.widget; ResizeEvent; HideEvent]
         (hidden widgetWithAircraft) = Ok (st', effs)
    /\ @mouseMoveEvent Demo.hill (env st') (legList st') (projection st') 365
       <> OutOfRange.
Proof.
  destruct (@handlers_stay_in_range Demo.hill
              [ShowEvent; UpdateTimeout false; UpdateFinished Demo.hillProfile;
               SimDataChanged controller (mkPos (1 # 2) 0 12000);
               Environment Demo.widget; ResizeEvent; HideEvent]
              (hidden widgetWithAircraft))
    as [st' [effs [Hrun [_ Hq]]]].
  - left. reflexivity.
  - constructor; [exact I|]. constructor; [exact I|].
    constructor.
    { exists Demo.running, Demo.route3. split; [exact running_neverSet | reflexivity]. }
    constructor.
    { right. split; [vm_compute; intro Hx; discriminate Hx | discriminate]. }
    repeat (constructor; [exact I|]). constructor.
  - exists st', effs. split; [exact Hrun | exact (Hq 365%Z)].
Defined.

Lemma finished_result_is_installed_witness :
  exists st1 effs st2,
    @run Demo.hill [ShowEvent; UpdateTimeout true] (hidden widgetWithAircraft)
    = Ok (st1, effs)
    /\ @updateFinished Demo.hill Demo.hillProfile st1 = Ok (st2, [Repaint])
    /\ legList st2 = Demo.hillProfile.
Proof.
  destruct (@run Demo.hill [ShowEvent; UpdateTimeout true] (hidden widgetWithAircraft))
    as [[st1 effs]|] eqn:Hrun; [|vm_compute in Hrun; discriminate Hrun].
  destruct (@finished_result_is_installed Demo.hill [ShowEvent; UpdateTimeout true]
              (hidden widgetWithAircraft) st1 effs Demo.hillProfile)
    as [st2 [Hfin [Hl _]]].
  - reflexivity.
  - exact Hrun.
  - cbv in Hrun. injection Hrun as <- _. reflexivity.
  - apply (@fetch_sound Demo.hill Demo.running Demo.route3 running_neverSet).
  - exists st1, effs, st2. split; [reflexivity|]. split; [exact Hfin | exact Hl].
Defined.
